(** * usdMaya/util.cpp: the Maya <-> USD utility functions

    A shallow embedding of [third_party/maya/lib/usdMaya/util.cpp].  Every
    function of that file is a short sequence of calls into two host object
    models (the Maya dependency graph and the USD attribute/value system), so
    the embedding keeps the calls explicit: a function of the file is a
    program in a small free monad whose nodes are the host calls it makes, in
    the order the C++ makes them.  A host is a scene type with an answer to
    each read-only call and a state transformer for each mutating call;
    running a program against a host gives its result and the final scene. *)

From Stdlib Require Import ZArith NArith String Ascii List Lia Bool DecimalString.
From stdpp Require Import base list strings.

Open Scope string_scope.
Open Scope list_scope.
Open Scope Z_scope.

(** ** Host handles and enumerations *)

(** [MString] and [TfToken] are character strings. *)
Abbreviation MString := string (only parsing).
Abbreviation TfToken := string (only parsing).

(** [MStatus]: the codes of [MStatus::MStatusCode].  In a boolean context
    (and for [CHECK_MSTATUS_AND_RETURN]) only [kSuccess] counts as true. *)
Inductive MStatus :=
| kSuccess | kFailure | kInsufficientMemory | kInvalidParameter
| kLicenseFailure | kUnknownParameter | kNotImplemented | kNotFound
| kEndOfFile.

Definition MStatus_ok (st : MStatus) : bool :=
  match st with kSuccess => true | _ => false end.

(** [MObject()] and [MPlug()] are null handles; every other handle names an
    object of the scene that only the host can interpret. *)
Inductive MObject := MObject_null | MObject_at (id : nat).
Inductive MPlug := MPlug_null | MPlug_at (id : nat).
(** A dependency-graph iterator: the object it started from and the number
    of times it has advanced; what node it stands on is for the host to say. *)
Inductive MItDependencyGraph := ItDG_at (root : MObject) (position : nat).
Inductive UsdAttribute := UsdAttribute_at (id : nat).

Definition MObject_isNull (o : MObject) : bool :=
  match o with MObject_null => true | MObject_at _ => false end.

#[global] Instance MObject_eq_dec : EqDecision MObject.
Proof. solve_decision. Defined.
#[global] Instance MPlug_eq_dec : EqDecision MPlug.
Proof. solve_decision. Defined.

(** The members of [MFn::Type] that the file names; every other member is
    [kOtherFn]. *)
Inductive MFnType :=
| kInvalid
| kAnimCurveTimeToAngular | kAnimCurveTimeToDistance
| kAnimCurveTimeToTime | kAnimCurveTimeToUnitless
| kMute
| kPluginDependNode | kConstraint | kPointConstraint | kAimConstraint
| kOrientConstraint | kScaleConstraint | kGeometryConstraint
| kNormalConstraint | kTangentConstraint | kParentConstraint
| kPoleVectorConstraint | kTime | kJoint | kGeometryFilt | kTweak
| kPolyTweak | kSubdTweak | kCluster | kFluid | kPolyBoolOp
| kExpression | kTransform | kEnumAttribute
| kOtherFn (code : nat).

(** [MTransformationMatrix::RotationOrder]. *)
Inductive RotationOrder :=
| kInvalidOrder | kXYZ | kYZX | kZXY | kXZY | kYXZ | kZYX | kLast.

Inductive MTimeUnit := kSeconds | kOtherUnit (code : nat).

(** The traversal options of [MItDependencyGraph]. *)
Inductive ItDGDirection := kDownstream | kUpstream.
Inductive ItDGTraversal := kDepthFirst | kBreadthFirst.
Inductive ItDGLevel := kNodeLevel | kPlugLevel.

(** ** MDagPath

    A DAG path is the sequence of nodes from below the world root down to
    the node it names.  [length] counts them, [==] compares the sequences,
    and [pop(n)] removes the last [n] nodes; a [pop] of more nodes than the
    path has fails and leaves the path as it was. *)
Abbreviation MDagPath := (list MObject) (only parsing).

Definition MDagPath_length (p : MDagPath) : nat := length p.

Definition MDagPath_eqb (p q : MDagPath) : bool := bool_decide (p = q).

Definition MDagPath_pop (p : MDagPath) (num : nat) : MDagPath :=
  if (num <=? length p)%nat then firstn (length p - num) p else p.

(** ** The pure library operations the file calls

    [float] and [double] are the C++ types; their arithmetic, the Gf colour
    and comparison functions, [SdfPath], [TfStringReplace], [MString::split]
    and [MTime::as] are defined outside this file, so they are taken as
    operations of a library interface and left uninterpreted. *)
Class PxrLibs := {
  float : Type;
  double : Type;
  float_to_double : float -> double;
  double_to_float : double -> float;
  float_add : float -> float -> float;
  float_sub : float -> float -> float;
  float_div : float -> float -> float;
  double_sub : double -> double -> double;
  double_div : double -> double -> double;
  (** the literals [0.f], [1.f], [3.f], [1.0], [3.0] and [1e-9] *)
  lit_0f : float;
  lit_1f : float;
  lit_3f : float;
  lit_1_0 : double;
  lit_3_0 : double;
  lit_1e_9 : double;
  (** what a default-constructed [GfVec3f] component holds *)
  float_indeterminate : float;
  (** [GfIsClose(a, b, epsilon)] *)
  GfIsClose : double -> double -> double -> bool;
  (** [GfConvertDisplayToLinear] and [GfConvertLinearToDisplay] on the
      three components of a [GfVec3f] *)
  GfConvertDisplayToLinear : float * float * float -> float * float * float;
  GfConvertLinearToDisplay : float * float * float -> float * float * float;
  SdfPath : Type;
  SdfPath_of_string : string -> SdfPath;
  SdfPath_GetParentPath : SdfPath -> SdfPath;
  TfStringReplace : string -> string -> string -> string;
  (** [MString::split(c, array)]: the status and the array it fills *)
  MString_split : MString -> ascii -> MStatus * list MString;
  (** [MTime(value, from).as(to)] *)
  MTime_as : double -> MTimeUnit -> MTimeUnit -> double
}.

Section Values.
Context {L : PxrLibs}.

(** [GfVec3f], indexed by 0, 1, 2. *)
Definition GfVec3f : Type := float * float * float.

Definition GfVec3f_get (v : GfVec3f) (j : nat) : float :=
  match v, j with
  | (a, _, _), 0%nat => a
  | (_, b, _), 1%nat => b
  | (_, _, c), _ => c
  end.

Definition GfVec3f_set (v : GfVec3f) (j : nat) (x : float) : GfVec3f :=
  match v, j with
  | (_, b, c), 0%nat => (x, b, c)
  | (a, _, c), 1%nat => (a, x, c)
  | (a, b, _), _ => (a, b, x)
  end.

(** [MColor]: r, g, b, a. *)
Definition MColor : Type := float * float * float * float.

Definition MColor_get (c : MColor) (j : nat) : float :=
  match c, j with
  | (r, _, _, _), 0%nat => r
  | (_, g, _, _), 1%nat => g
  | (_, _, b, _), 2%nat => b
  | (_, _, _, a), _ => a
  end.

(** [VtValue]: the held types that the file tests with [IsHolding]; a value
    of any other type is [VtOther], an empty value [VtEmpty]. *)
Inductive VtValue :=
| VtEmpty
| VtFloat (f : float)
| VtVec3f (v : GfVec3f)
| VtBool (b : bool)
| VtString (s : string)
| VtToken (t : TfToken)
| VtOther (typeName : string).

Inductive UsdTimeCode := UsdTimeCode_Default | UsdTimeCode_at (t : double).

(** The operations queued on a local [MDGModifier]. *)
Inductive DGOp :=
| OpDisconnect (src dst : MPlug)
| OpConnect (src dst : MPlug).

(** ** Host calls

    [Query X]: a call that reads the scene and answers with an [X].  Where
    the C++ passes an [MStatus*] or receives an output array, the answer
    carries the status and the array. *)
Inductive Query : Type -> Type :=
(* MPlug *)
| PlugConnectedTo (p : MPlug) (asDst asSrc : bool) : Query (MStatus * list MPlug)
| PlugIsArray (p : MPlug) : Query bool
| PlugNumConnectedElements (p : MPlug) : Query nat
| PlugConnectionByPhysicalIndex (p : MPlug) (e : nat) : Query MPlug
| PlugIsCompound (p : MPlug) : Query bool
| PlugNumConnectedChildren (p : MPlug) : Query nat
| PlugNumChildren (p : MPlug) : Query nat
| PlugChild (p : MPlug) (c : nat) : Query (MStatus * MPlug)
| PlugNode (p : MPlug) : Query MObject
| PlugAttribute (p : MPlug) : Query (MStatus * MObject)
| PlugIsConnected (p : MPlug) : Query bool
| PlugAsBool (p : MPlug) : Query bool
| PlugGetValueFloat (p : MPlug) : Query (option float)
(* MObject, MDagPath and the function sets *)
| ObjApiType (o : MObject) : Query MFnType
| ObjHasFn (o : MObject) (t : MFnType) : Query bool
| DagPathHasFn (p : MDagPath) (t : MFnType) : Query bool
| DagPathFullPathName (p : MDagPath) : Query MString
| DagPathNumberOfShapesDirectlyBelow (p : MDagPath) : Query (option nat)
| FnFindPlug (o : MObject) (attr : string) (wantNetworked : bool)
    : Query (MStatus * MPlug)
| FnDagNodeGetConnectedSetsAndMembers (o : MObject) (instance : nat)
    (renderableSetsOnly : bool) : Query (list MObject * list MObject)
| FnDagNodeDagPath (o : MObject) : Query MDagPath
| FnLambertShaderAttach (o : MObject) : Query MStatus
| FnLambertShaderColor (o : MObject) : Query MColor
| FnLambertShaderTransparency (o : MObject) : Query MColor
| FnExpressionAttach (o : MObject) : Query MStatus
| FnExpressionIsAnimated (o : MObject) : Query bool
| FnEnumAttributeAttach (o : MObject) : Query MStatus
| FnEnumAttributeFieldIndex (o : MObject) (name : MString) : Query (MStatus * Z)
| AnimUtilIsAnimated (o : MObject) (checkParent : bool) : Query bool
(* iterators *)
| ItDGCreate (root : MObject) (filter : MFnType) (direction : ItDGDirection)
    (traversal : ItDGTraversal) (level : ItDGLevel)
    : Query (MStatus * MItDependencyGraph)
| ItDGIsDone (it : MItDependencyGraph) : Query bool
| ItDGNext (it : MItDependencyGraph) : Query MItDependencyGraph
| ItDGThisNode (it : MItDependencyGraph) : Query MObject
| ItMeshPolygonIndices (p : MDagPath) (component : MObject) : Query (list nat)
(* MTime *)
| TimeUiUnit : Query MTimeUnit
(* UsdAttribute *)
| UsdAttrGet (a : UsdAttribute) (time : UsdTimeCode) : Query (bool * VtValue)
| UsdAttrGetRoleName (a : UsdAttribute) : Query TfToken
| UsdAttrGetCustomDataByKey (a : UsdAttribute) (key : TfToken) : Query VtValue.

(** [Command]: a call that may change the scene; each returns an [MStatus]. *)
Inductive Command :=
| DGModifierDoIt (ops : list DGOp)
| PlugSetFloat (p : MPlug) (v : float)
| PlugSetBool (p : MPlug) (v : bool)
| PlugSetString (p : MPlug) (v : MString)
| PlugSetShort (p : MPlug) (v : Z).

(** ** Programs over the host

    A program returns a result ([Ret]), or makes a call and goes on with
    what the host gives back: a query and its answer ([Ask]), a command and
    its status ([Do]), or a message shown to the user ([Say]), as
    [MGlobal::displayError] and the error report of [CHECK_MSTATUS] are. *)
Inductive Prog (R : Type) : Type :=
| Ret (r : R)
| Ask {X : Type} (q : Query X) (k : X -> Prog R)
| Do (c : Command) (k : MStatus -> Prog R)
| Say (msg : MString) (k : Prog R).

Arguments Ret {R} r.
Arguments Ask {R X} q k.
Arguments Do {R} c k.
Arguments Say {R} msg k.

(** Sequencing: [bind m f] runs [m], then [f] on its result. *)
Fixpoint bind {A B} (m : Prog A) (f : A -> Prog B) : Prog B :=
  match m with
  | Ret a => f a
  | Ask q k => Ask q (fun x => bind (k x) f)
  | Do c k => Do c (fun st => bind (k st) f)
  | Say msg k => Say msg (bind k f)
  end.

(** A single host call as a program. *)
Definition ask {X} (q : Query X) : Prog X := Ask q Ret.
Definition exec (c : Command) : Prog MStatus := Do c Ret.
(** [MGlobal::displayError(msg)] *)
Definition displayError (msg : MString) : Prog unit := Say msg (Ret tt).

(** A [for] loop over [l] whose body either falls through to the next
    iteration with the updated locals ([inl]) or returns from the enclosing
    function ([inr]). *)
Fixpoint for_each {A S R} (l : list A) (body : A -> S -> Prog (S + R)) (s : S)
  : Prog (S + R) :=
  match l with
  | [] => Ret (inl s)
  | a :: l' =>
      bind (body a s) (fun x =>
        match x with
        | inl s' => for_each l' body s'
        | inr r => Ret (inr r)
        end)
  end.

(** A [for] loop over [l] without [return] or [break] in its body. *)
Fixpoint for_do {A S} (l : list A) (body : A -> S -> Prog S) (s : S)
  : Prog S :=
  match l with
  | [] => Ret s
  | a :: l' => bind (body a s) (fun s' => for_do l' body s')
  end.

End Values.

Arguments Ret {L R} r.
Arguments Ask {L R X} q k.
Arguments Do {L R} c k.
Arguments Say {L R} msg k.

(** The notations [x ← m; k] and [m ;; k] for sequencing programs. *)
Declare Scope prog_scope.
Delimit Scope prog_scope with prog.
Bind Scope prog_scope with Prog.
Notation "x ← y ; z" := (bind y (fun x => z))
  (at level 20, y at level 100, z at level 200, only parsing) : prog_scope.
Notation "' x ← y ; z" := (bind y (fun x => z))
  (at level 20, x pattern, y at level 100, z at level 200, only parsing)
  : prog_scope.
Notation "x ;; z" := (bind x (fun _ => z))
  (at level 100, z at level 200, only parsing, right associativity)
  : prog_scope.
Open Scope prog_scope.

(** ** The functions of util.cpp *)

Section PxrUsdMayaUtil.
Context {L : PxrLibs}.


Definition isAncestorDescendentRelationship (path1 path2 : MDagPath)
  : Prog bool :=
  let length1 := MDagPath_length path1 in
  let length2 := MDagPath_length path2 in
  if (length1 =? length2)%nat && negb (MDagPath_eqb path1 path2) then
    Ret false
  else
    let '(ancestor, descendent, diff) :=
      if (length2 <? length1)%nat
      then (path2, path1, (length1 - length2)%nat)
      else (path1, path2, (length2 - length1)%nat) in
    let descendent := MDagPath_pop descendent diff in
    let ret := MDagPath_eqb ancestor descendent in
    if ret then
      name1 ← ask (DagPathFullPathName path1);
      let err := name1 +:+ " and " in
      name2 ← ask (DagPathFullPathName path2);
      let err := err +:+ (name2 +:+ " have parenting relationships") in
      displayError err ;;
      Ret ret
    else Ret ret.

(** The loop of [getSampledType] over the plugs connected to [iPlug] as
    sources, and the [return 1] after it. *)
Fixpoint getSampledType_conns (conns : list MPlug) : Prog Z :=
  match conns with
  | [] => Ret 1%Z
  | conn :: rest =>
      ob ← ask (PlugNode conn);
      type ← ask (ObjApiType ob);
      match type with
      | kAnimCurveTimeToAngular
      | kAnimCurveTimeToDistance
      | kAnimCurveTimeToTime
      | kAnimCurveTimeToUnitless =>
          '(_, incoming) ← ask (FnFindPlug ob "i" true);
          connected ← ask (PlugIsConnected incoming);
          (* sampled, else curve *)
          if connected then Ret 1 else Ret 2
      | kMute =>
          '(_, mutePlug) ← ask (FnFindPlug ob "mute" true);
          muted ← ask (PlugAsBool mutePlug);
          (* static, else curve *)
          if muted then Ret 0 else Ret 2
      | _ => getSampledType_conns rest
      end
  end.

(** One iteration of the two inner loops of [getSampledType]:
    [if (retVal > 0) return retVal;].  [None] is a recursive call that ran
    out of fuel. *)
Definition returnIfPositive (retVal : option Z) : Prog (unit + option Z) :=
  match retVal with
  | None => Ret (inr None)
  | Some v => if 0 <? v then Ret (inr (Some v)) else Ret (inl tt)
  end.

(** [getSampledType]: 0 if static, 1 if sampled, 2 if a curve.  The C++
    recurses into the connected elements of an array plug and the children
    of a compound plug; [fuel] bounds the depth of that recursion. *)
Fixpoint getSampledType (fuel : nat) (iPlug : MPlug)
    (includeConnectedChildren : bool) : Prog (option Z) :=
  match fuel with
  | O => Ret None
  | S fuel =>
      '(_, conns) ← ask (PlugConnectedTo iPlug true false);
      if (length conns =? 0)%nat then
        isArray ← ask (PlugIsArray iPlug);
        if isArray then
          numConnectedElements ← ask (PlugNumConnectedElements iPlug);
          r ← for_each (seq 0 numConnectedElements) (fun e _ =>
                 elem ← ask (PlugConnectionByPhysicalIndex iPlug e);
                 retVal ← getSampledType fuel elem true;
                 returnIfPositive retVal) tt;
          match r with
          | inr retVal => Ret retVal
          | inl _ => Ret (Some 0)
          end
        else
          isCompound ← ask (PlugIsCompound iPlug);
          numConnectedChildren ←
            (if isCompound then ask (PlugNumConnectedChildren iPlug)
             else Ret 0%nat);
          if isCompound && (0 <? numConnectedChildren)%nat
             && includeConnectedChildren
          then
            numChildren ← ask (PlugNumChildren iPlug);
            r ← for_each (seq 0 numChildren) (fun c _ =>
                   '(_, child) ← ask (PlugChild iPlug c);
                   retVal ← getSampledType fuel child true;
                   returnIfPositive retVal) tt;
            match r with
            | inr retVal => Ret retVal
            | inl _ => Ret (Some 0)
            end
          else Ret (Some 0)
      else
        r ← getSampledType_conns conns;
        Ret (Some r)
  end.

(** [getRotOrder]: the three output parameters are passed in and returned. *)
Definition getRotOrder (iOrder : RotationOrder) (oXAxis oYAxis oZAxis : N)
  : bool * (N * N * N) :=
  match iOrder with
  | kXYZ => (true, (0, 1, 2))
  | kYZX => (true, (1, 2, 0))
  | kZXY => (true, (2, 0, 1))
  | kXZY => (true, (0, 2, 1))
  | kYXZ => (true, (1, 0, 2))
  | kZYX => (true, (2, 1, 0))
  | _ => (false, (oXAxis, oYAxis, oZAxis))
  end%N.

(** [getVisibilityType]: 0 dont write, 1 write static 0, 2 write anim 0,
    3 write anim -1. *)
Definition getVisibilityType (fuel : nat) (iPlug : MPlug) : Prog (option Z) :=
  type ← getSampledType fuel iPlug true;
  match type with
  | None => Ret None
  | Some type =>
      if type =? 0 then
        visible ← ask (PlugAsBool iPlug);
        if visible then Ret (Some 0) else Ret (Some 1)
      else
        visible ← ask (PlugAsBool iPlug);
        if visible then Ret (Some 3) else Ret (Some 2)
  end.

(** The [||] chain of [node.hasFn(...)] tests in [isAnimated]: the tests
    are made in order and stop at the first that holds. *)
Fixpoint hasAnyFn (node : MObject) (types : list MFnType) : Prog bool :=
  match types with
  | [] => Ret false
  | t :: types' =>
      b ← ask (ObjHasFn node t);
      if b then Ret true else hasAnyFn node types'
  end.

Definition isAnimated_types : list MFnType :=
  [ kPluginDependNode; kConstraint; kPointConstraint; kAimConstraint;
    kOrientConstraint; kScaleConstraint; kGeometryConstraint;
    kNormalConstraint; kTangentConstraint; kParentConstraint;
    kPoleVectorConstraint; kParentConstraint; kTime; kJoint; kGeometryFilt;
    kTweak; kPolyTweak; kSubdTweak; kCluster; kFluid; kPolyBoolOp ].

(** The first loop of [isAnimated], [for (; !iter.isDone(); iter.next())].
    It ends with [inl true] at a [return true], or with the nodes pushed on
    [nodesToCheckAnimCurve]; [fuel] bounds the number of iterations. *)
Fixpoint isAnimated_walk (fuel : nat) (iter : MItDependencyGraph)
    (nodesToCheckAnimCurve : list MObject)
  : Prog (option (bool + list MObject)) :=
  match fuel with
  | O => Ret None
  | S fuel =>
      done ← ask (ItDGIsDone iter);
      if done then Ret (Some (inr nodesToCheckAnimCurve))
      else
        node ← ask (ItDGThisNode iter);
        animating ← hasAnyFn node isAnimated_types;
        if animating then Ret (Some (inl true))
        else
          isExpression ← ask (ObjHasFn node kExpression);
          animatedExpression ←
            (if isExpression then
               stat ← ask (FnExpressionAttach node);
               if MStatus_ok stat then ask (FnExpressionIsAnimated node)
               else Ret false
             else Ret false);
          if animatedExpression then Ret (Some (inl true))
          else
            iter' ← ask (ItDGNext iter);
            isAnimated_walk fuel iter' (nodesToCheckAnimCurve ++ [node])
  end.

(** [isAnimated]. *)
Definition isAnimated (fuel : nat) (object : MObject) (checkParent : bool)
  : Prog (option bool) :=
  '(stat, iter) ← ask (ItDGCreate object kInvalid kUpstream kDepthFirst
                                  kNodeLevel);
  (if negb (MStatus_ok stat)
   then displayError "Unable to create DG iterator "
   else Ret tt);;
  walk ← isAnimated_walk fuel iter [];
  match walk with
  | None => Ret None
  | Some (inl b) => Ret (Some b)
  | Some (inr nodesToCheckAnimCurve) =>
      r ← for_each nodesToCheckAnimCurve (fun node _ =>
            animated ← ask (AnimUtilIsAnimated node checkParent);
            if animated then Ret (inr true) else Ret (inl tt)) tt;
      match r with
      | inr b => Ret (Some b)
      | inl _ => Ret (Some false)
      end
  end.

Definition isIntermediate (object : MObject) : Prog bool :=
  '(stat, plug) ← ask (FnFindPlug object "intermediateObject" false);
  if MStatus_ok stat then
    b ← ask (PlugAsBool plug);
    if b then Ret true else Ret false
  else Ret false.

(** The test of [isRenderable] on the visibility and lodVisibility plugs:
    true when the plug is off and has no incoming connection. *)
Definition isRenderable_off (stat : MStatus) (plug : MPlug) : Prog bool :=
  if MStatus_ok stat then
    b ← ask (PlugAsBool plug);
    if negb b then
      '(stat, arrayIn) ← ask (PlugConnectedTo plug true false);
      Ret (MStatus_ok stat && (length arrayIn =? 0)%nat)
    else Ret false
  else Ret false.

Definition isRenderable (object : MObject) : Prog bool :=
  (* templated turned on?  return false *)
  '(stat, plug) ← ask (FnFindPlug object "template" false);
  templated ← (if MStatus_ok stat then ask (PlugAsBool plug) else Ret false);
  if templated then Ret false
  else
    (* visibility or lodVisibility off?  return false *)
    '(stat, plug) ← ask (FnFindPlug object "visibility" false);
    off ← isRenderable_off stat plug;
    if off then Ret false
    else
      '(stat, plug) ← ask (FnFindPlug object "lodVisibility" false);
      off ← isRenderable_off stat plug;
      if off then Ret false
      else (* this shape is renderable *) Ret true.

(** [unsigned int] arithmetic wraps modulo 2^32. *)
Definition UINT_MODULUS : N := 2 ^ 32.

(** The loop of [stripNamespaces],
    [for (i = iDepth; i < len - 1; ++i) { name += strArray[i]; name += ":"; }];
    [count] is the number of iterations left. *)
Fixpoint stripNamespaces_loop (strArray : list MString) (i : N) (count : nat)
    (name : MString) : MString :=
  match count with
  | O => name
  | S count =>
      let name := name +:+ nth (N.to_nat i) strArray "" in
      let name := name +:+ ":" in
      stripNamespaces_loop strArray (i + 1)%N count name
  end.

Definition stripNamespaces (iNodeName : MString) (iDepth : N) : MString :=
  if (iDepth =? 0)%N then iNodeName
  else
    let '(status, strArray) := MString_split iNodeName ":"%char in
    if MStatus_ok status then
      let len := N.of_nat (length strArray) in
      (* we want to strip off more namespaces than what we have
         so we just return the last name *)
      if (len =? 0)%N then iNodeName
      else if (len <=? (iDepth + 1) mod UINT_MODULUS)%N then
        nth (N.to_nat (len - 1)) strArray ""
      else
        let name :=
          stripNamespaces_loop strArray iDepth
            (N.to_nat (len - 1 - iDepth)) "" in
        name +:+ nth (N.to_nat (len - 1)) strArray ""
    else iNodeName.

Definition SanitizeName (name : string) : string :=
  TfStringReplace name ":" "_".

(** This to allow various pipeline to sanitize the colorset name for
    output: a leading [rman_] is dropped. *)
Definition SanitizeColorSetName (name : string) : string :=
  let RMAN_PREFIX := "rman_" in
  let namePos :=
    if String.prefix RMAN_PREFIX name then String.length RMAN_PREFIX
    else 0%nat in
  String.substring namePos (String.length name - namePos) name.

(** ** Shader colours *)

(** [MObjectArray::setLength] and [VtArray::resize]: the array is cut to
    [n] elements or grown to [n] with default elements ([resize n d] of
    stdpp).  An [int] passed where the callee takes an [unsigned int] is
    converted modulo 2^32, and [static_cast<size_t>] converts modulo 2^64. *)
Definition int_to_unsigned (n : Z) : nat := Z.to_nat (n mod 2 ^ 32).
Definition int_to_size_t (n : Z) : N := Z.to_N (n mod 2 ^ 64).

(** Get array (constant or per face) of attached shaders.
    Pass numFaces==0 if retrieving shaders on a non polymesh.
    [shaderObjs] is the array behind the output pointer; the result pairs
    [hasShader] with the array as the function leaves it.  A store through
    [operator[]] at an index past the end of the array, which C++ leaves
    undefined, changes nothing here. *)
Definition _getAttachedMayaShaderObjects (node : MObject) (numFaces : Z)
    (shaderObjs : list MObject) : Prog (bool * list MObject) :=
  '(sgObjs, compObjs) ← ask (FnDagNodeGetConnectedSetsAndMembers node 0 true);
  (* If we have one shader connected we return a single shader.
     If there are multiple shaders, we return an per face array *)
  let shaderObjs :=
    if (length sgObjs =? 1)%nat || (numFaces =? 0) then
      resize 1 MObject_null shaderObjs
    else if (1 <? length sgObjs)%nat then
      resize (int_to_unsigned numFaces) MObject_null shaderObjs
    else shaderObjs in
  for_do (seq 0 (length sgObjs))
        (fun i '(hasShader, shaderObjs) =>
           (* Get associated Set and Shading Group *)
           '(_, seSurfaceShaderPlg) ←
             ask (FnFindPlug (nth i sgObjs MObject_null) "surfaceShader" false);
           (* Find connection shader->shadingGroup *)
           '(_, plgCons) ← ask (PlugConnectedTo seSurfaceShaderPlg true false);
           '(hasShader, shaderObj) ←
             (if (0 <? length plgCons)%nat then
                shaderObj ← ask (PlugNode (nth 0 plgCons MPlug_null));
                Ret (true, shaderObj)
              else Ret (hasShader, MObject_null));
           (* If we have multiple shaders, we assign them per face *)
           if (1 <? length sgObjs)%nat && (0 <? numFaces) then
             dagPath ← ask (FnDagNodeDagPath node);
             faces ← ask (ItMeshPolygonIndices dagPath
                            (nth i compObjs MObject_null));
             Ret (hasShader,
                  fold_left (fun objs index => <[index := shaderObj]> objs)
                            faces shaderObjs)
           else
             Ret (hasShader, <[0%nat := shaderObj]> shaderObjs))
        (false, shaderObjs).

(** [rgb] and [alpha] are the values behind the two pointers, [None] for a
    null pointer; the result carries them as the function leaves them. *)
Definition _GetColorAndTransparencyFromLambert (shaderObj : MObject)
    (rgb : option GfVec3f) (alpha : option float)
  : Prog (bool * option GfVec3f * option float) :=
  status ← ask (FnLambertShaderAttach shaderObj);
  if MStatus_ok status then
    rgb ← match rgb with
          | Some _ =>
              color ← ask (FnLambertShaderColor shaderObj);
              let displayColor : GfVec3f :=
                (MColor_get color 0, MColor_get color 1, MColor_get color 2) in
              Ret (Some (GfConvertDisplayToLinear displayColor))
          | None => Ret None
          end;
    alpha ← match alpha with
            | Some _ =>
                trn ← ask (FnLambertShaderTransparency shaderObj);
                (* Assign Alpha as 1.0 - average of shader trasparency *)
                let sum := float_add (float_add (MColor_get trn 0)
                                                (MColor_get trn 1))
                                     (MColor_get trn 2) in
                Ret (Some (double_to_float
                             (double_sub lit_1_0
                                (double_div (float_to_double sum) lit_3_0))))
            | None => Ret None
            end;
    Ret (true, rgb, alpha)
  else Ret (false, rgb, alpha).

(** [plug.child(j).getValue(x)]: [x] keeps its value when the host gives
    none. *)
Definition getChildValue (plug : MPlug) (j : nat) (x : float) : Prog float :=
  '(_, child) ← ask (PlugChild plug j);
  v ← ask (PlugGetValueFloat child);
  match v with Some y => Ret y | None => Ret x end.

Definition _GetColorAndTransparencyFromDepNode (shaderObj : MObject)
    (rgb : option GfVec3f) (alpha : option float)
  : Prog (bool * option GfVec3f * option float) :=
  '(status, colorPlug) ← ask (FnFindPlug shaderObj "color" false);
  if negb (MStatus_ok status) then Ret (false, rgb, alpha)
  else
    '(status, transparencyPlug) ←
      ask (FnFindPlug shaderObj "transparency" false);
    if negb (MStatus_ok status) then Ret (false, rgb, alpha)
    else
      rgb ← match rgb with
            | Some _ =>
                let displayColor : GfVec3f :=
                  (float_indeterminate, float_indeterminate,
                   float_indeterminate) in
                displayColor ←
                  for_do (seq 0 3) (fun j (displayColor : GfVec3f) =>
                    x ← getChildValue colorPlug j (GfVec3f_get displayColor j);
                    Ret (GfVec3f_set displayColor j x)) displayColor;
                Ret (Some (GfConvertDisplayToLinear displayColor))
            | None => Ret None
            end;
      alpha ← match alpha with
              | Some _ =>
                  trans ←
                    for_do (seq 0 3) (fun j (trans : float) =>
                      t ← getChildValue transparencyPlug j lit_0f;
                      Ret (float_add trans (float_div t lit_3f))) lit_0f;
                  Ret (Some (float_sub lit_1f trans))
              | None => Ret None
              end;
      Ret (true, rgb, alpha).

(** The outputs of the colour functions: the two arrays ([None] for a null
    pointer) and the two interpolation tokens. *)
Record ShaderColors := {
  RGBData : option (list GfVec3f);
  RGBInterp : TfToken;
  AlphaData : option (list float);
  AlphaInterp : TfToken
}.

(** [UsdGeomTokens->constant], [UsdGeomTokens->uniform] and
    [SdfValueRoleNames->Color]. *)
Definition UsdGeomTokens_constant : TfToken := "constant".
Definition UsdGeomTokens_uniform : TfToken := "uniform".
Definition SdfValueRoleNames_Color : TfToken := "Color".

(** What [VtArray::resize] puts in a new element. *)
Definition GfVec3f_default : GfVec3f :=
  (float_indeterminate, float_indeterminate, float_indeterminate).

(** The store [RGBData[i][j] = x] through the array pointer. *)
Definition setComponent (data : list GfVec3f) (i j : nat) (x : float)
  : list GfVec3f :=
  <[i := GfVec3f_set (nth i data GfVec3f_default) j x]> data.

(** The pointer to element [i] of an array that may be null, and the
    store back through that pointer. *)
Definition elementPtr {A} (d : A) (data : option (list A)) (i : nat)
  : option A :=
  match data with
  | Some l => Some (nth i l d)
  | None => None
  end.

Definition storeElement {A} (data : option (list A)) (i : nat)
    (x : option A) : option (list A) :=
  match data, x with
  | Some l, Some v => Some (<[i := v]> l)
  | _, _ => data
  end.

(** [TfStringPrintf("%d", i)] *)
Definition printf_d (i : nat) : string :=
  NilZero.string_of_uint (Nat.to_uint i).

(** The comparison of entry [i] with entry 0 in [_getMayaShadersColor]. *)
Definition rgbStillConstant (data : list GfVec3f) (i : nat)
    (constantRGB : bool) : bool :=
  fold_left
    (fun constantRGB j =>
       if negb (GfIsClose
                  (float_to_double (GfVec3f_get (nth 0 data GfVec3f_default) j))
                  (float_to_double (GfVec3f_get (nth i data GfVec3f_default) j))
                  lit_1e_9)
       then false else constantRGB)
    (seq 0 3) constantRGB.

Definition alphaStillConstant (data : list float) (i : nat)
    (constantAlpha : bool) : bool :=
  if negb (GfIsClose (float_to_double (nth 0 data lit_0f))
                     (float_to_double (nth i data lit_0f)) lit_1e_9)
  then false else constantAlpha.

(** [_GetColorAndTransparencyFromLambert(...) or
    _GetColorAndTransparencyFromDepNode(...)] on the same two pointers: the
    second is tried only when the first fails. *)
Definition _GetColorAndTransparency (shaderObj : MObject)
    (rgb : option GfVec3f) (alpha : option float)
  : Prog (bool * option GfVec3f * option float) :=
  '(gotLambert, rgb, alpha) ←
    _GetColorAndTransparencyFromLambert shaderObj rgb alpha;
  if gotLambert then Ret (true, rgb, alpha)
  else _GetColorAndTransparencyFromDepNode shaderObj rgb alpha.

(** The body of the loop of [_getMayaShadersColor] at index [i]; the loop
    carries the two arrays and the two flags. *)
Definition _getMayaShadersColor_body (shaderObjs : list MObject) (i : nat)
    (st : option (list GfVec3f) * option (list float) * bool * bool)
  : Prog (option (list GfVec3f) * option (list float) * bool * bool) :=
  let '(RGBData, AlphaData, constantRGB, constantAlpha) := st in
  (* Initialize RGB and Alpha to (1,1,1,1) *)
  let one := double_to_float lit_1_0 in
  let RGBData :=
    match RGBData with
    | Some d =>
        Some (setComponent (setComponent (setComponent d i 0 one) i 1 one)
                           i 2 one)
    | None => None
    end in
  let AlphaData :=
    match AlphaData with
    | Some d => Some (<[i := one]> d)
    | None => None
    end in
  let shaderObj := nth i shaderObjs MObject_null in
  if negb (MObject_isNull shaderObj) then
    (* first, we assume the shader is a lambert and try that API.  if
       not, we try our next best guess. *)
    '(gotValues, rgb, alpha) ←
      _GetColorAndTransparency shaderObj
        (elementPtr GfVec3f_default RGBData i) (elementPtr lit_0f AlphaData i);
    let RGBData := storeElement RGBData i rgb in
    let AlphaData := storeElement AlphaData i alpha in
    if gotValues then
      let constantRGB :=
        match RGBData with
        | Some d => rgbStillConstant d i constantRGB
        | None => constantRGB
        end in
      let constantAlpha :=
        match AlphaData with
        | Some d => alphaStillConstant d i constantAlpha
        | None => constantAlpha
        end in
      Ret (RGBData, AlphaData, constantRGB, constantAlpha)
    else
      displayError ("Failed to get shaders colors at index: " +:+ printf_d i
                    +:+ ". Unable to retrieve ShaderBaseColor.");;
      Ret (RGBData, AlphaData, constantRGB, constantAlpha)
  else
    displayError ("Invalid Maya Shader Object at index: " +:+ printf_d i
                  +:+ ". Unable to retrieve ShaderBaseColor.");;
    Ret (RGBData, AlphaData, constantRGB, constantAlpha).

(** The first part of [_getMayaShadersColor]: the two arrays are resized
    to the number of shaders and filled by the loop, which also computes
    the two flags. *)
Definition _getMayaShadersColor_fill (shaderObjs : list MObject)
    (out : ShaderColors)
  : Prog (option (list GfVec3f) * option (list float) * bool * bool) :=
  let constantRGB := true in
  let constantAlpha := true in
  let RGBData :=
    option_map (resize (length shaderObjs) GfVec3f_default) (RGBData out) in
  let AlphaData :=
    option_map (resize (length shaderObjs) lit_0f) (AlphaData out) in
  for_do (seq 0 (length shaderObjs)) (_getMayaShadersColor_body shaderObjs)
         (RGBData, AlphaData, constantRGB, constantAlpha).

Definition _getMayaShadersColor (numFaces : Z) (shaderObjs : list MObject)
    (out : ShaderColors) : Prog ShaderColors :=
  '(RGBData, AlphaData, constantRGB, constantAlpha) ←
    _getMayaShadersColor_fill shaderObjs out;
  (* If RGB or Alpha are constant, resize the array to 1 *)
  let '(RGBData, RGBInterp) :=
    match RGBData with
    | Some d =>
        if constantRGB then
          (Some (resize 1 GfVec3f_default d), UsdGeomTokens_constant)
        else if (N.of_nat (length d) =? int_to_size_t numFaces)%N then
          (RGBData, UsdGeomTokens_uniform)
        else (RGBData, RGBInterp out)
    | None => (RGBData, RGBInterp out)
    end in
  let '(AlphaData, AlphaInterp) :=
    match AlphaData with
    | Some d =>
        if constantAlpha then
          (Some (resize 1 lit_0f d), UsdGeomTokens_constant)
        else if (N.of_nat (length d) =? int_to_size_t numFaces)%N then
          (AlphaData, UsdGeomTokens_uniform)
        else (AlphaData, AlphaInterp out)
    | None => (AlphaData, AlphaInterp out)
    end in
  Ret {| RGBData := RGBData; RGBInterp := RGBInterp;
         AlphaData := AlphaData; AlphaInterp := AlphaInterp |}.

(** [GetLinearShaderColor]; [node] is the object the [MFnDagNode] is
    attached to. *)
Definition GetLinearShaderColor (node : MObject) (numFaces : Z)
    (out : ShaderColors) : Prog (bool * ShaderColors) :=
  '(hasShader, shaderObjs) ← _getAttachedMayaShaderObjects node numFaces [];
  if hasShader then
    out ← _getMayaShadersColor numFaces shaderObjs out;
    Ret (true, out)
  else Ret (false, out).

(** ** Connections *)

Definition GetConnected (plug : MPlug) : Prog MPlug :=
  '(status, conn) ← ask (PlugConnectedTo plug true false);
  if negb (MStatus_ok status) || negb (length conn =? 1)%nat then
    Ret MPlug_null
  else Ret (nth 0 conn MPlug_null).

(** [Connect]: [dgMod.disconnect] and [dgMod.connect] queue an operation on
    the local [MDGModifier] (the status they return is not read), and
    [dgMod.doIt()] hands the queue to the host. *)
Definition Connect (srcPlug dstPlug : MPlug) (clearDstPlug : bool)
  : Prog unit :=
  let dgMod : list DGOp := [] in
  dgMod ←
    (if clearDstPlug then
       '(_, plgCons) ← ask (PlugConnectedTo dstPlug true false);
       Ret (fold_left (fun dgMod plgCon => dgMod ++ [OpDisconnect plgCon dstPlug])
                      plgCons dgMod)
     else Ret dgMod);
  (* Execute the disconnect/connect *)
  let dgMod := dgMod ++ [OpConnect srcPlug dstPlug] in
  exec (DGModifierDoIt dgMod);;
  Ret tt.

(** ** DAG path to USD path *)

Definition _IsShape (dagPath : MDagPath) : Prog bool :=
  isTransform ← ask (DagPathHasFn dagPath kTransform);
  if isTransform then Ret false
  else
    (* go to the parent *)
    let parentDagPath := MDagPath_pop dagPath 1 in
    parentIsTransform ← ask (DagPathHasFn parentDagPath kTransform);
    if negb parentIsTransform then Ret false
    else
      let numberOfShapesDirectlyBelow := 0%nat in
      answer ← ask (DagPathNumberOfShapesDirectlyBelow parentDagPath);
      let numberOfShapesDirectlyBelow :=
        match answer with
        | Some n => n
        | None => numberOfShapesDirectlyBelow
        end in
      Ret (numberOfShapesDirectlyBelow =? 1)%nat.

(** [std::replace(s.begin(), s.end(), old, new)] *)
Fixpoint std_replace (old new : ascii) (s : string) : string :=
  match s with
  | EmptyString => EmptyString
  | String c s' =>
      String (if Ascii.eqb c old then new else c) (std_replace old new s')
  end.

Definition MDagPathToUsdPath (dagPath : MDagPath)
    (mergeTransformAndShape : bool) : Prog SdfPath :=
  usdPathStr ← ask (DagPathFullPathName dagPath);
  let usdPathStr := std_replace "|" "/" usdPathStr in
  (* replace namespace ":" with "_" *)
  let usdPathStr := std_replace ":" "_" usdPathStr in
  let usdPath := SdfPath_of_string usdPathStr in
  isShape ← (if mergeTransformAndShape then _IsShape dagPath else Ret false);
  if mergeTransformAndShape && isShape then
    Ret (SdfPath_GetParentPath usdPath)
  else Ret usdPath.

(** ** USD attribute values *)

Definition GetBoolCustomData (obj : UsdAttribute) (key : TfToken)
    (defaultValue : bool) : Prog bool :=
  let returnValue := defaultValue in
  data ← ask (UsdAttrGetCustomDataByKey obj key);
  match data with
  | VtEmpty => Ret returnValue
  | VtBool b => Ret b
  | _ =>
      displayError ("Custom Data: " +:+ key
                    +:+ " is not of type bool. Skipping...");;
      Ret returnValue
  end.

(** [_GetVec<GfVec3f>]; [UncheckedGet] on a value of another type is left
    undefined by C++ and gives the default vector here. *)
Definition _GetVec (attr : UsdAttribute) (val : VtValue) : Prog GfVec3f :=
  let ret := match val with VtVec3f v => v | _ => GfVec3f_default end in
  role ← ask (UsdAttrGetRoleName attr);
  if String.eqb role SdfValueRoleNames_Color then
    Ret (GfConvertLinearToDisplay ret)
  else Ret ret.

(** [CHECK_MSTATUS_AND_RETURN(status, retVal)]: when [status] is not
    [kSuccess] the macro reports the error and returns [retVal] from the
    enclosing function; otherwise the function goes on with [k]. *)
Definition CHECK_MSTATUS_AND_RETURN {S R} (status : MStatus) (retVal : R)
    (k : Prog (S + R)) : Prog (S + R) :=
  if MStatus_ok status then k
  else Say "API error detected in util.cpp" (Ret (inr retVal)).

Definition setPlugValue (usdAttr : UsdAttribute) (time : UsdTimeCode)
    (attrPlug : MPlug) : Prog bool :=
  let status := kFailure in
  '(got, val) ← ask (UsdAttrGet usdAttr time);
  r ←
    (if got then
       match val with
       | VtFloat f =>
           status ← exec (PlugSetFloat attrPlug f);
           Ret (inl status)
       | VtVec3f _ =>
           isCompound ← ask (PlugIsCompound attrPlug);
           if isCompound then
             vec3fVal ← _GetVec usdAttr val;
             for_each (seq 0 3) (fun i (_ : MStatus) =>
               '(status, childPlug) ← ask (PlugChild attrPlug i);
               CHECK_MSTATUS_AND_RETURN status false (
                 status ← exec (PlugSetFloat childPlug
                                             (GfVec3f_get vec3fVal i));
                 CHECK_MSTATUS_AND_RETURN status false (Ret (inl status))))
               status
           else Ret (inl status)
       | VtBool b =>
           status ← exec (PlugSetBool attrPlug b);
           Ret (inl status)
       | VtString s =>
           status ← exec (PlugSetString attrPlug s);
           Ret (inl status)
       | VtToken token =>
           '(status, attrObj) ← ask (PlugAttribute attrPlug);
           CHECK_MSTATUS_AND_RETURN status false (
             isEnum ← ask (ObjHasFn attrObj kEnumAttribute);
             if isEnum then
               status ← ask (FnEnumAttributeAttach attrObj);
               CHECK_MSTATUS_AND_RETURN status false (
                 '(status, enumVal) ←
                   ask (FnEnumAttributeFieldIndex attrObj token);
                 CHECK_MSTATUS_AND_RETURN status false (
                   status ← exec (PlugSetShort attrPlug enumVal);
                   Ret (inl status)))
             else Ret (inl status))
       | _ => Ret (inl status)
       end
     else Ret (inl status));
  match r with
  | inr b => Ret b
  | inl status =>
      r ← CHECK_MSTATUS_AND_RETURN (S := unit) status false (Ret (inl tt));
      match r with
      | inr b => Ret b
      | inl _ => Ret true
      end
  end.


End PxrUsdMayaUtil.

(** ** Hosts and the execution of programs

    A host interprets the calls over a scene: a query is answered from the
    scene and leaves it as it is, a command returns a status and the scene
    it leaves behind. *)
Record Host {L : PxrLibs} := {
  Scene : Type;
  answer : forall X, Query X -> Scene -> X;
  perform : Command -> Scene -> MStatus * Scene
}.

Arguments answer {L} h {X} q s.
Arguments perform {L} h c s.

(** [run h p s]: the result of [p] on the scene [s] of host [h], and the
    scene at the end. *)
Fixpoint run {L : PxrLibs} (h : Host) {R} (p : Prog R) (s : Scene h)
  : R * Scene h :=
  match p with
  | Ret r => (r, s)
  | Ask q k => run h (k (answer h q s)) s
  | Do c k => let '(st, s') := perform h c s in run h (k st) s'
  | Say _ k => run h k s
  end.

Definition result {L : PxrLibs} (h : Host) {R} (p : Prog R) (s : Scene h) : R :=
  fst (run h p s).

Definition final {L : PxrLibs} (h : Host) {R} (p : Prog R) (s : Scene h)
  : Scene h :=
  snd (run h p s).

(** The calls a program makes on a scene, in order. *)
Inductive Event {L : PxrLibs} :=
| EvAsk {X} (q : Query X)
| EvDo (c : Command)
| EvSay (msg : MString).

Fixpoint events {L : PxrLibs} (h : Host) {R} (p : Prog R) (s : Scene h)
  : list Event :=
  match p with
  | Ret _ => []
  | Ask q k => EvAsk q :: events h (k (answer h q s)) s
  | Do c k => EvDo c :: (let '(st, s') := perform h c s in events h (k st) s')
  | Say msg k => EvSay msg :: events h k s
  end.

Definition isCommand {L : PxrLibs} (e : Event) : bool :=
  match e with EvDo _ => true | _ => false end.

(** The commands among the calls of a program. *)
Definition commands {L : PxrLibs} (h : Host) {R} (p : Prog R) (s : Scene h)
  : list Event :=
  List.filter isCommand (events h p s).

(** The nodes a program visits with a dependency-graph iterator: the
    number of times it asks for the node an iterator stands on. *)
Definition isVisit {L : PxrLibs} (e : Event) : bool :=
  match e with
  | EvAsk q => match q with ItDGThisNode _ => true | _ => false end
  | _ => false
  end.

Definition nodesVisited {L : PxrLibs} (h : Host) {R} (p : Prog R)
    (s : Scene h) : nat :=
  length (List.filter isVisit (events h p s)).

(** A program is read-only when no path through it reaches a command. *)
Inductive readOnly {L : PxrLibs} {R} : Prog R -> Prop :=
| readOnly_Ret r : readOnly (Ret r)
| readOnly_Ask X (q : Query X) k :
    (forall x, readOnly (k x)) -> readOnly (Ask q k)
| readOnly_Say msg k : readOnly k -> readOnly (Say msg k).

(** ** Rotation orders, as their names read

    The three axes of a rotation order in the order its name lists them,
    the index of an axis (X is 0, Y is 1, Z is 2) and the position of an
    axis in an order. *)
Inductive Axis := AxisX | AxisY | AxisZ.

Definition rotationAxes (o : RotationOrder) : option (Axis * Axis * Axis) :=
  match o with
  | kXYZ => Some (AxisX, AxisY, AxisZ)
  | kYZX => Some (AxisY, AxisZ, AxisX)
  | kZXY => Some (AxisZ, AxisX, AxisY)
  | kXZY => Some (AxisX, AxisZ, AxisY)
  | kYXZ => Some (AxisY, AxisX, AxisZ)
  | kZYX => Some (AxisZ, AxisY, AxisX)
  | kInvalidOrder | kLast => None
  end.

Definition axisIndex (a : Axis) : N :=
  match a with AxisX => 0 | AxisY => 1 | AxisZ => 2 end%N.

Definition Axis_eqb (a b : Axis) : bool :=
  match a, b with
  | AxisX, AxisX | AxisY, AxisY | AxisZ, AxisZ => true
  | _, _ => false
  end.

Definition axisPosition (a : Axis) (axes : Axis * Axis * Axis) : N :=
  let '(a0, a1, a2) := axes in
  (if Axis_eqb a a0 then 0 else if Axis_eqb a a1 then 1 else 2)%N.

(** The outputs give each axis its position in the order. *)
Definition axesAtTheirPositions (axes : Axis * Axis * Axis) (out : N * N * N)
  : Prop :=
  out = (axisPosition AxisX axes, axisPosition AxisY axes,
         axisPosition AxisZ axes).

(** The outputs list the axes of the order: the first output is the index
    of its first axis, and so on. *)
Definition axesInOrder (axes : Axis * Axis * Axis) (out : N * N * N) : Prop :=
  let '(a0, a1, a2) := axes in
  out = (axisIndex a0, axisIndex a1, axisIndex a2).

(** ** Parenting of DAG paths

    Two paths are in a parenting relationship when the shorter one is the
    beginning of the longer one. *)
Definition parentingRelationship (path1 path2 : MDagPath) : bool :=
  if (length path2 <? length path1)%nat
  then MDagPath_eqb path2 (firstn (length path2) path1)
  else MDagPath_eqb path1 (firstn (length path1) path2).

(** ** The conversions, as the specification words them *)

(** The components of a name after the first [depth] are removed, joined
    again with [":"]. *)
Definition rejoinAfter (depth : N) (components : list MString) : MString :=
  String.concat ":" (skipn (N.to_nat depth) components).

(** A DAG path name with every ['|'] replaced by ['/'] and every [':'] by
    ['_'], character by character. *)
Definition usdPathCharacter (c : ascii) : ascii :=
  if Ascii.eqb c "|" then "/"%char
  else if Ascii.eqb c ":" then "_"%char
  else c.

Fixpoint usdPathString (name : string) : string :=
  match name with
  | EmptyString => EmptyString
  | String c name' => String (usdPathCharacter c) (usdPathString name')
  end.

(** A DAG path merges into its parent when it is not a transform, its
    parent is a transform, and exactly one shape lies directly below that
    parent. *)
Definition mergesIntoParent {L : PxrLibs} (h : Host) (s : Scene h)
    (dagPath : MDagPath) : bool :=
  let parent := MDagPath_pop dagPath 1 in
  negb (answer h (DagPathHasFn dagPath kTransform) s)
  && answer h (DagPathHasFn parent kTransform) s
  && bool_decide
       (answer h (DagPathNumberOfShapesDirectlyBelow parent) s = Some 1%nat).

(** ** The scene as [getSampledType] sees it *)

Section SceneViews.
Context {L : PxrLibs} (h : Host) (s : Scene h).

(** The plugs connected to [p] as its sources. *)
Definition sourcesOf (p : MPlug) : list MPlug :=
  snd (answer h (PlugConnectedTo p true false) s).

(** The node behind a source plug, and its type. *)
Definition sourceNode (c : MPlug) : MObject := answer h (PlugNode c) s.
Definition sourceNodeType (c : MPlug) : MFnType :=
  answer h (ObjApiType (sourceNode c)) s.

Definition isAnimCurveType (t : MFnType) : bool :=
  match t with
  | kAnimCurveTimeToAngular | kAnimCurveTimeToDistance
  | kAnimCurveTimeToTime | kAnimCurveTimeToUnitless => true
  | _ => false
  end.

Definition isMuteType (t : MFnType) : bool :=
  match t with kMute => true | _ => false end.

(** A source that is neither an animation curve nor a mute node decides
    nothing: the search passes over it. *)
Definition passedOver (c : MPlug) : bool :=
  negb (isAnimCurveType (sourceNodeType c))
  && negb (isMuteType (sourceNodeType c)).

(** The source is a mute node whose [mute] plug is on. *)
Definition mutedSource (c : MPlug) : bool :=
  isMuteType (sourceNodeType c)
  && answer h (PlugAsBool (snd (answer h (FnFindPlug (sourceNode c) "mute" true) s))) s.

(** The first source that decides is a mute node that is on: the
    connection animates nothing. *)
Definition staticallyMuted (conns : list MPlug) : Prop :=
  exists before c after,
    conns = before ++ c :: after /\
    Forall (fun x => passedOver x = true) before /\
    mutedSource c = true.

(** No animating connection is found on the plug itself. *)
Definition noAnimatingConnection (p : MPlug) : Prop :=
  sourcesOf p = [] \/ staticallyMuted (sourcesOf p).

(** The plugs the recursion of [getSampledType] visits from [p]. *)
Definition connectedElement (p : MPlug) (e : nat) : MPlug :=
  answer h (PlugConnectionByPhysicalIndex p e) s.
Definition childPlug (p : MPlug) (c : nat) : MPlug :=
  snd (answer h (PlugChild p c) s).

(** The plug hierarchy of the scene is well-founded: [rank] decreases from
    a plug to each of its connected elements and to each of its children. *)
Definition plugRankDecreases (rank : MPlug -> nat) : Prop :=
  forall p,
    (forall e, (e < answer h (PlugNumConnectedElements p) s)%nat ->
               (rank (connectedElement p e) < rank p)%nat) /\
    (forall c, (c < answer h (PlugNumChildren p) s)%nat ->
               (rank (childPlug p c) < rank p)%nat).

(** [getSampledType] returns [r] on [p]: it does so with any fuel above the
    rank of [p]. *)
Definition returnsSampledType (rank : MPlug -> nat) (p : MPlug)
    (includeConnectedChildren : bool) (r : Z) : Prop :=
  forall fuel, (rank p < fuel)%nat ->
    result h (getSampledType fuel p includeConnectedChildren) s = Some r.

End SceneViews.

(** ** Loops read as folds *)

(** [for_each] on a body without host calls. *)
Fixpoint fold_until {A S R} (l : list A) (f : A -> S -> S + R) (st : S)
  : S + R :=
  match l with
  | [] => inl st
  | a :: l' =>
      match f a st with
      | inl st' => fold_until l' f st'
      | inr r => inr r
      end
  end.

(** What [returnIfPositive] decides. *)
Definition positiveReturns (retVal : option Z) : unit + option Z :=
  match retVal with
  | None => inr None
  | Some v => if 0 <? v then inr (Some v) else inl tt
  end.

(** After one of the two loops of [getSampledType]: the value returned
    from inside the loop, or the [return 0] that follows it. *)
Definition loopReturn (r : unit + option Z) : option Z :=
  match r with
  | inr retVal => retVal
  | inl _ => Some 0
  end.

(** ** The scene as [isAnimated] sees it *)

Section IteratorViews.
Context {L : PxrLibs} (h : Host) (s : Scene h).

(** The iterator [isAnimated] creates on [object]. *)
Definition upstreamIterator (object : MObject) : MItDependencyGraph :=
  snd (answer h (ItDGCreate object kInvalid kUpstream kDepthFirst kNodeLevel) s).

(** The dependency-graph iterator of the scene is bounded: [remaining]
    decreases at each [next] of an iterator that is not done. *)
Definition iteratorAdvances (remaining : MItDependencyGraph -> nat) : Prop :=
  forall it,
    answer h (ItDGIsDone it) s = false ->
    (remaining (answer h (ItDGNext it) s) < remaining it)%nat.

(** What the tests of one turn of the walk decide on the current node. *)
Definition nodeAnimates (node : MObject) : bool :=
  result h (hasAnyFn node isAnimated_types) s
  || (answer h (ObjHasFn node kExpression) s
      && MStatus_ok (answer h (FnExpressionAttach node) s)
      && answer h (FnExpressionIsAnimated node) s).

End IteratorViews.

(** ** The scene as the shader colour functions see it *)

Section ShaderViews.
Context {L : PxrLibs} (h : Host) (s : Scene h).

(** The shading groups connected to a node, and the plugs connected as
    sources to the surface shader plug of a shading group. *)
Definition shadingGroups (node : MObject) : list MObject :=
  fst (answer h (FnDagNodeGetConnectedSetsAndMembers node 0 true) s).

Definition surfaceShaderSources (sg : MObject) : list MPlug :=
  snd (answer h (PlugConnectedTo
                   (snd (answer h (FnFindPlug sg "surfaceShader" false) s))
                   true false) s).

(** No shader is connected to the node: no shading group of the node has
    a source on its surface shader plug. *)
Definition noShaderConnected (node : MObject) : Prop :=
  forall sg, In sg (shadingGroups node) -> surfaceShaderSources sg = [].

(** The array of shaders that [GetLinearShaderColor] collects for a node. *)
Definition attachedShaders (node : MObject) (numFaces : Z) : list MObject :=
  snd (result h (_getAttachedMayaShaderObjects node numFaces []) s).

(** The colour of a shader can be retrieved: the Lambert function set
    attaches to it, or it has a color and a transparency plug. *)
Definition shaderReadable (shaderObj : MObject) : bool :=
  MStatus_ok (answer h (FnLambertShaderAttach shaderObj) s)
  || (MStatus_ok (fst (answer h (FnFindPlug shaderObj "color" false) s))
      && MStatus_ok (fst (answer h (FnFindPlug shaderObj "transparency" false) s))).

(** Entry [i] of the arrays holds a retrieved value. *)
Definition retrievedAt (shaderObjs : list MObject) (i : nat) : bool :=
  negb (MObject_isNull (nth i shaderObjs MObject_null))
  && shaderReadable (nth i shaderObjs MObject_null).

(** Two values agree within 1e-9. *)
Definition floatClose (a b : float) : bool :=
  GfIsClose (float_to_double a) (float_to_double b) lit_1e_9.

Definition rgbClose (a b : GfVec3f) : bool :=
  floatClose (GfVec3f_get a 0) (GfVec3f_get b 0)
  && floatClose (GfVec3f_get a 1) (GfVec3f_get b 1)
  && floatClose (GfVec3f_get a 2) (GfVec3f_get b 2).

(** All retrieved values of an array agree with its first entry. *)
Definition rgbAllAgree (shaderObjs : list MObject) (data : list GfVec3f)
  : Prop :=
  forall i, (i < length shaderObjs)%nat ->
    retrievedAt shaderObjs i = true ->
    rgbClose (nth 0 data GfVec3f_default) (nth i data GfVec3f_default) = true.

Definition alphaAllAgree (shaderObjs : list MObject) (data : list float)
  : Prop :=
  forall i, (i < length shaderObjs)%nat ->
    retrievedAt shaderObjs i = true ->
    floatClose (nth 0 data lit_0f) (nth i data lit_0f) = true.

(** The two arrays as the loop of [_getMayaShadersColor] fills them, before
    the function resizes them. *)
Definition filledRGB (shaderObjs : list MObject) (out : ShaderColors)
  : option (list GfVec3f) :=
  fst (fst (fst (result h (_getMayaShadersColor_fill shaderObjs out) s))).

Definition filledAlpha (shaderObjs : list MObject) (out : ShaderColors)
  : option (list float) :=
  snd (fst (fst (result h (_getMayaShadersColor_fill shaderObjs out) s))).

(** One turn of the loop on one of the two arrays and its flag: the turn
    at index [i] keeps the length of the array and its other entries, and
    the flag stays set only if entry [i], when it holds a retrieved value,
    agrees with entry 0. *)
Definition channelStep {A} (close : A -> A -> bool) (d : A)
    (retrieved : bool) (i : nat)
    (data : option (list A)) (c : bool)
    (data' : option (list A)) (c' : bool) : Prop :=
  match data with
  | None => data' = None /\ c' = c
  | Some arr =>
      exists arr',
        data' = Some arr' /\ length arr' = length arr /\
        (forall k, k <> i -> nth k arr' d = nth k arr d) /\
        c' = c && implb retrieved (close (nth 0 arr' d) (nth i arr' d))
  end.

(** What holds of an array and its flag before the turn at index [i]. *)
Definition channelInvariant {A} (close : A -> A -> bool) (d : A)
    (shaderObjs : list MObject) (i : nat)
    (data : option (list A)) (c : bool) : Prop :=
  match data with
  | None => True
  | Some arr =>
      length arr = length shaderObjs /\
      (c = true <->
       forall k, (k < i)%nat -> retrievedAt shaderObjs k = true ->
                 close (nth 0 arr d) (nth k arr d) = true)
  end.

End ShaderViews.

(** ** The commands of a program *)

(** Every command that a path through the program reaches satisfies [P]. *)
Inductive onlyCommands {L : PxrLibs} (P : Command -> Prop) {R}
  : Prog R -> Prop :=
| onlyCommands_Ret r : onlyCommands P (Ret r)
| onlyCommands_Ask X (q : Query X) k :
    (forall x, onlyCommands P (k x)) -> onlyCommands P (Ask q k)
| onlyCommands_Do c k :
    P c -> (forall st, onlyCommands P (k st)) -> onlyCommands P (Do c k)
| onlyCommands_Say msg k : onlyCommands P k -> onlyCommands P (Say msg k).



(** ** Further views of the programs and of the scene *)

(** The character [c] occurs in the string. *)
Fixpoint occurs (c : ascii) (s : string) : bool :=
  match s with
  | EmptyString => false
  | String x s' => Ascii.eqb x c || occurs c s'
  end.

(** The codes of [getVisibilityType] for a plug that is static or animated
    and on or off. *)
Definition visibilityCode (static visible : bool) : Z :=
  match static, visible with
  | true, true => 0
  | true, false => 1
  | false, false => 2
  | false, true => 3
  end.

(** The messages a program displays on a scene, in order. *)
Definition messages {L : PxrLibs} (h : Host) {R} (p : Prog R) (s : Scene h)
  : list MString :=
  flat_map (fun e => match e with EvSay msg => [msg] | _ => [] end)
           (events h p s).

(** The scene that the commands among the events leave, performed in
    order from [s]. *)
Fixpoint sceneAfter {L : PxrLibs} (h : Host) (evs : list Event) (s : Scene h)
  : Scene h :=
  match evs with
  | [] => s
  | EvDo c :: rest => sceneAfter h rest (snd (perform h c s))
  | _ :: rest => sceneAfter h rest s
  end.

Section FurtherViews.
Context {L : PxrLibs} (h : Host) (s : Scene h).

(** The node has a plug of that name and the plug is on. *)
Definition plugIsOn (object : MObject) (name : string) : bool :=
  MStatus_ok (fst (answer h (FnFindPlug object name false) s))
  && answer h (PlugAsBool (snd (answer h (FnFindPlug object name false) s))) s.

(** The node has a plug of that name, the plug is off, and the host
    reports, with success, that no source is connected to it. *)
Definition switchedOff (object : MObject) (name : string) : bool :=
  let plug := snd (answer h (FnFindPlug object name false) s) in
  MStatus_ok (fst (answer h (FnFindPlug object name false) s))
  && negb (answer h (PlugAsBool plug) s)
  && MStatus_ok (fst (answer h (PlugConnectedTo plug true false) s))
  && (length (snd (answer h (PlugConnectedTo plug true false) s)) =? 0)%nat.

(** The nodes a dependency-graph iterator yields before it is done, at
    most [n] of them. *)
Fixpoint upstreamNodes (n : nat) (iter : MItDependencyGraph) : list MObject :=
  match n with
  | O => []
  | S n =>
      if answer h (ItDGIsDone iter) s then []
      else answer h (ItDGThisNode iter) s
           :: upstreamNodes n (answer h (ItDGNext iter) s)
  end.

(** The input plug of the animation curve behind a source is itself
    connected: the curve is driven by something other than time. *)
Definition curveInputConnected (c : MPlug) : bool :=
  answer h (PlugIsConnected
              (snd (answer h (FnFindPlug (sourceNode h s c) "i" true) s))) s.

(** The operations [Connect] queues: with [clearDstPlug] a disconnection
    of each source of the destination, in the order the host lists them,
    and then the connection. *)
Definition queuedOps (srcPlug dstPlug : MPlug) (clearDstPlug : bool)
  : list DGOp :=
  (if clearDstPlug
   then map (fun plgCon => OpDisconnect plgCon dstPlug) (sourcesOf h s dstPlug)
   else [])
  ++ [OpConnect srcPlug dstPlug].

(** The shader behind a shading group: the node of the first source of its
    surface shader plug, a null object when it has none. *)
Definition surfaceShader (sg : MObject) : MObject :=
  match surfaceShaderSources h s sg with
  | [] => MObject_null
  | c :: _ => answer h (PlugNode c) s
  end.

(** The value of child [j] of a plug, and [d] when the child gives none. *)
Definition childFloat (plug : MPlug) (j : nat) (d : float) : float :=
  match answer h (PlugGetValueFloat (snd (answer h (PlugChild plug j) s))) s
  with
  | Some y => y
  | None => d
  end.

(** The node has one of the function sets that [isAnimated] lists, or it
    is an expression that is animated. *)
Definition animatingNode (node : MObject) : bool :=
  existsb (fun t => answer h (ObjHasFn node t) s) isAnimated_types
  || (answer h (ObjHasFn node kExpression) s
      && MStatus_ok (answer h (FnExpressionAttach node) s)
      && answer h (FnExpressionIsAnimated node) s).

(** The vector [setPlugValue] writes for a [GfVec3f] value: converted from
    linear to display when the role of the attribute is Color. *)
Definition vectorToWrite (usdAttr : UsdAttribute) (v : GfVec3f) : GfVec3f :=
  if String.eqb (answer h (UsdAttrGetRoleName usdAttr) s) SdfValueRoleNames_Color
  then GfConvertLinearToDisplay v
  else v.

End FurtherViews.

(** ** Sampled and curve-driven plugs

    What the results 1 and 2 of [getSampledType] stand for. *)

Section SampledViews.
Context {L : PxrLibs} (h : Host) (s : Scene h).

(** The source makes the plug sampled: it is an animation curve whose
    input plug is connected. *)
Definition sampledSource (c : MPlug) : bool :=
  isAnimCurveType (sourceNodeType h s c) && curveInputConnected h s c.

(** The source makes the plug curve-driven: it is an animation curve whose
    input plug is free, or a mute node that is off. *)
Definition curveSource (c : MPlug) : bool :=
  (isAnimCurveType (sourceNodeType h s c) && negb (curveInputConnected h s c))
  || (isMuteType (sourceNodeType h s c) && negb (mutedSource h s c)).

(** The first source that decides, all sources before it being passed
    over, satisfies [decides]. *)
Definition firstDeciding (decides : MPlug -> bool) (conns : list MPlug)
  : Prop :=
  exists before c after,
    conns = before ++ c :: after /\
    Forall (fun x => passedOver h s x = true) before /\
    decides c = true.

(** The connections sample the plug: the first source that decides is a
    driven animation curve, or no source decides at all. *)
Definition sampledConnection (conns : list MPlug) : Prop :=
  Forall (fun x => passedOver h s x = true) conns
  \/ firstDeciding sampledSource conns.

(** The connections drive the plug by a curve. *)
Definition curveConnection (conns : list MPlug) : Prop :=
  firstDeciding curveSource conns.

(** Among the [n] sub-plugs [f 0], ..., [f (n - 1)], the first that is not
    classified 0 is classified [r]. *)
Definition firstAnimated (rank : MPlug -> nat) (n : nat) (f : nat -> MPlug)
    (r : Z) : Prop :=
  exists e, (e < n)%nat /\
    returnsSampledType h s rank (f e) true r /\
    forall e', (e' < e)%nat -> returnsSampledType h s rank (f e') true 0.

End SampledViews.

(** White, and the colour and opacity [GetLinearShaderColor] computes from
    the colour and the transparency of a Lambert shader. *)
Definition whiteRGB {L : PxrLibs} : GfVec3f :=
  (double_to_float lit_1_0, double_to_float lit_1_0, double_to_float lit_1_0).

Definition lambertRGB {L : PxrLibs} (color : MColor) : GfVec3f :=
  GfConvertDisplayToLinear
    (MColor_get color 0, MColor_get color 1, MColor_get color 2).

Definition lambertAlpha {L : PxrLibs} (trn : MColor) : float :=
  double_to_float
    (double_sub lit_1_0
       (double_div
          (float_to_double
             (float_add (float_add (MColor_get trn 0) (MColor_get trn 1))
                        (MColor_get trn 2)))
          lit_3_0)).

(** * A host given by tables

    The host used in the examples: a scene is a table of plugs, a table of
    nodes and a table of USD attributes, and a handle is an index in its
    table.  The numbers that stand for [float] and [double] are fixed-point
    numbers in units of 1e-9. *)
Module TableHost.

Definition one : Z := 1000000000.

Definition divide (a b : Z) : Z := a * one / b.

(** Gamma 2.0 on fixed-point numbers. *)
Definition displayToLinear (v : Z * Z * Z) : Z * Z * Z :=
  let '(r, g, b) := v in (r * r / one, g * g / one, b * b / one).

Definition linearToDisplay (v : Z * Z * Z) : Z * Z * Z :=
  let '(r, g, b) := v in
  (Z.sqrt (r * one), Z.sqrt (g * one), Z.sqrt (b * one)).

(** [split] keeps the non-empty pieces between occurrences of [c]. *)
Fixpoint splitOn (c : ascii) (piece : string) (s : string) : list string :=
  match s with
  | EmptyString =>
      match piece with EmptyString => [] | _ => [piece] end
  | String x s' =>
      if Ascii.eqb x c then
        match piece with
        | EmptyString => splitOn c EmptyString s'
        | _ => piece :: splitOn c EmptyString s'
        end
      else splitOn c (piece +:+ String x EmptyString) s'
  end.

(** Replaces each occurrence of a one-character [from]. *)
Fixpoint replaceChar (c : ascii) (to : string) (s : string) : string :=
  match s with
  | EmptyString => EmptyString
  | String x s' =>
      if Ascii.eqb x c then to +:+ replaceChar c to s'
      else String x (replaceChar c to s')
  end.

Definition stringReplace (s from to : string) : string :=
  match from with
  | String c EmptyString => replaceChar c to s
  | _ => s
  end.

(** The parent of an absolute path: the text before its last ['/']. *)
Fixpoint parentPath (s : string) : string :=
  match s with
  | EmptyString => EmptyString
  | String x s' =>
      if existsb (Ascii.eqb "/") (list_ascii_of_string s')
      then String x (parentPath s')
      else EmptyString
  end.

Definition libs : PxrLibs := {|
  float := Z;
  double := Z;
  float_to_double := fun x => x;
  double_to_float := fun x => x;
  float_add := Z.add;
  float_sub := Z.sub;
  float_div := divide;
  double_sub := Z.sub;
  double_div := divide;
  lit_0f := 0;
  lit_1f := one;
  lit_3f := 3 * one;
  lit_1_0 := one;
  lit_3_0 := 3 * one;
  lit_1e_9 := 1;
  float_indeterminate := -1;
  GfIsClose := fun a b epsilon => Z.abs (a - b) <? epsilon;
  GfConvertDisplayToLinear := displayToLinear;
  GfConvertLinearToDisplay := linearToDisplay;
  SdfPath := string;
  SdfPath_of_string := fun s => s;
  SdfPath_GetParentPath := parentPath;
  TfStringReplace := stringReplace;
  MString_split := fun s c => (kSuccess, splitOn c EmptyString s);
  MTime_as := fun v from to =>
    match from, to with
    | kSeconds, kOtherUnit framesPerSecond => v * Z.of_nat framesPerSecond
    | _, _ => v
    end
|}.

#[local] Existing Instance libs.

#[local] Instance MFnType_eq_dec : EqDecision MFnType.
Proof. solve_decision. Defined.

(** The value a plug holds. *)
Inductive PlugValue :=
| PVNone
| PVBool (b : bool)
| PVFloat (f : Z)
| PVString (s : string)
| PVShort (n : Z).

Record PlugEntry := {
  plugNode : MObject;
  plugAttribute : MObject;
  plugSources : list MPlug;
  plugIsArray : bool;
  (** the connected elements of an array plug and the children of a
      compound plug, by index in the plug table *)
  plugElements : list nat;
  plugIsCompound : bool;
  plugChildren : list nat;
  plugValue : PlugValue
}.

Record NodeEntry := {
  nodeName : string;
  nodeType : MFnType;
  (** the function sets the node supports besides that of its type *)
  nodeFns : list MFnType;
  nodePlugs : list (string * nat);
  (** the nodes an upstream depth-first walk from the node visits *)
  nodeUpstream : list MObject;
  nodeHasAnimCurve : bool;
  nodeExpressionAnimated : bool;
  (** the shading groups of a shape, each with its component *)
  nodeSets : list (MObject * MObject);
  (** the face indices of a component *)
  nodeFaces : list nat;
  (** colour and transparency of a Lambert shader *)
  nodeLambert : option (Z * Z * Z * Z * (Z * Z * Z * Z));
  nodeEnumFields : list (string * Z);
  nodeShapesBelow : nat;
  nodeDagPath : list MObject
}.

Record AttrEntry := {
  attrValue : option VtValue;
  attrRole : string;
  attrCustomData : list (string * VtValue)
}.

Record Scene := {
  plugs : list PlugEntry;
  nodes : list NodeEntry;
  attrs : list AttrEntry;
  uiUnit : MTimeUnit
}.

Definition noPlug : PlugEntry := {|
  plugNode := MObject_null; plugAttribute := MObject_null;
  plugSources := []; plugIsArray := false; plugElements := [];
  plugIsCompound := false; plugChildren := []; plugValue := PVNone |}.

Definition noNode : NodeEntry := {|
  nodeName := ""; nodeType := kInvalid; nodeFns := []; nodePlugs := [];
  nodeUpstream := []; nodeHasAnimCurve := false;
  nodeExpressionAnimated := false; nodeSets := []; nodeFaces := [];
  nodeLambert := None; nodeEnumFields := []; nodeShapesBelow := 0;
  nodeDagPath := [] |}.

Definition noAttr : AttrEntry :=
  {| attrValue := None; attrRole := ""; attrCustomData := [] |}.

Definition plugAt (s : Scene) (p : MPlug) : PlugEntry :=
  match p with
  | MPlug_at id => nth id (plugs s) noPlug
  | MPlug_null => noPlug
  end.

Definition nodeAt (s : Scene) (o : MObject) : NodeEntry :=
  match o with
  | MObject_at id => nth id (nodes s) noNode
  | MObject_null => noNode
  end.

Definition attrAt (s : Scene) (a : UsdAttribute) : AttrEntry :=
  match a with UsdAttribute_at id => nth id (attrs s) noAttr end.

Definition plugExists (s : Scene) (p : MPlug) : bool :=
  match p with
  | MPlug_at id => (id <? length (plugs s))%nat
  | MPlug_null => false
  end.

Fixpoint lookup {V} (key : string) (table : list (string * V)) : option V :=
  match table with
  | [] => None
  | (k, v) :: rest => if String.eqb k key then Some v else lookup key rest
  end.

(** A sub-plug is a plug earlier in the table than the plug it belongs to. *)
Definition subPlug (p : MPlug) (table : list nat) (i : nat) : MStatus * MPlug :=
  match p, nth_error table i with
  | MPlug_at id, Some q =>
      if (q <? id)%nat then (kSuccess, MPlug_at q)
      else (kFailure, MPlug_null)
  | _, _ => (kInvalidParameter, MPlug_null)
  end.

Definition hasFn (s : Scene) (o : MObject) (t : MFnType) : bool :=
  bool_decide (nodeType (nodeAt s o) = t)
  || existsb (fun t' => bool_decide (t' = t)) (nodeFns (nodeAt s o)).

Definition asBool (v : PlugValue) : bool :=
  match v with
  | PVBool b => b
  | PVFloat f => negb (f =? 0)
  | PVShort n => negb (n =? 0)
  | _ => false
  end.

Definition fullPathName (s : Scene) (path : list MObject) : string :=
  fold_left (fun name o => name +:+ "|" +:+ nodeName (nodeAt s o)) path "".

Definition answer (X : Type) (q : Query X) (s : Scene) : X :=
  match q in Query X return X with
  | PlugConnectedTo p asDst asSrc =>
      (if plugExists s p then kSuccess else kFailure,
       if asDst then plugSources (plugAt s p) else [])
  | PlugIsArray p => plugIsArray (plugAt s p)
  | PlugNumConnectedElements p => length (plugElements (plugAt s p))
  | PlugConnectionByPhysicalIndex p e =>
      snd (subPlug p (plugElements (plugAt s p)) e)
  | PlugIsCompound p => plugIsCompound (plugAt s p)
  | PlugNumConnectedChildren p =>
      length (List.filter
                (fun c => match plugSources (nth c (plugs s) noPlug) with
                          | [] => false
                          | _ => true
                          end)
                (plugChildren (plugAt s p)))
  | PlugNumChildren p => length (plugChildren (plugAt s p))
  | PlugChild p c => subPlug p (plugChildren (plugAt s p)) c
  | PlugNode p => plugNode (plugAt s p)
  | PlugAttribute p =>
      (if plugExists s p then kSuccess else kFailure,
       plugAttribute (plugAt s p))
  | PlugIsConnected p =>
      match plugSources (plugAt s p) with [] => false | _ => true end
  | PlugAsBool p => asBool (plugValue (plugAt s p))
  | PlugGetValueFloat p =>
      match plugValue (plugAt s p) with
      | PVFloat f => Some f
      | _ => None
      end
  | ObjApiType o => nodeType (nodeAt s o)
  | ObjHasFn o t => hasFn s o t
  | DagPathHasFn p t => hasFn s (List.last p MObject_null) t
  | DagPathFullPathName p => fullPathName s p
  | DagPathNumberOfShapesDirectlyBelow p =>
      match p with
      | [] => None
      | _ => Some (nodeShapesBelow (nodeAt s (List.last p MObject_null)))
      end
  | FnFindPlug o attr _ =>
      match lookup attr (nodePlugs (nodeAt s o)) with
      | Some id => (kSuccess, MPlug_at id)
      | None => (kInvalidParameter, MPlug_null)
      end
  | FnDagNodeGetConnectedSetsAndMembers o _ _ =>
      (map fst (nodeSets (nodeAt s o)), map snd (nodeSets (nodeAt s o)))
  | FnDagNodeDagPath o => nodeDagPath (nodeAt s o)
  | FnLambertShaderAttach o =>
      match nodeLambert (nodeAt s o) with
      | Some _ => kSuccess
      | None => kFailure
      end
  | FnLambertShaderColor o =>
      match nodeLambert (nodeAt s o) with
      | Some (color, _) => color
      | None => (0, 0, 0, 0)
      end
  | FnLambertShaderTransparency o =>
      match nodeLambert (nodeAt s o) with
      | Some (_, transparency) => transparency
      | None => (0, 0, 0, 0)
      end
  | FnExpressionAttach o =>
      if bool_decide (nodeType (nodeAt s o) = kExpression) then kSuccess
      else kFailure
  | FnExpressionIsAnimated o => nodeExpressionAnimated (nodeAt s o)
  | FnEnumAttributeAttach o =>
      if hasFn s o kEnumAttribute then kSuccess else kFailure
  | FnEnumAttributeFieldIndex o name =>
      match lookup name (nodeEnumFields (nodeAt s o)) with
      | Some index => (kSuccess, index)
      | None => (kInvalidParameter, 0)
      end
  | AnimUtilIsAnimated o _ => nodeHasAnimCurve (nodeAt s o)
  | ItDGCreate root _ _ _ _ =>
      (match root with MObject_null => kFailure | _ => kSuccess end,
       ItDG_at root 0)
  | ItDGIsDone (ItDG_at root position) =>
      (length (nodeUpstream (nodeAt s root)) <=? position)%nat
  | ItDGNext (ItDG_at root position) => ItDG_at root (S position)
  | ItDGThisNode (ItDG_at root position) =>
      nth position (nodeUpstream (nodeAt s root)) MObject_null
  | ItMeshPolygonIndices _ component => nodeFaces (nodeAt s component)
  | TimeUiUnit => uiUnit s
  | UsdAttrGet a _ =>
      match attrValue (attrAt s a) with
      | Some v => (true, v)
      | None => (false, VtEmpty)
      end
  | UsdAttrGetRoleName a => attrRole (attrAt s a)
  | UsdAttrGetCustomDataByKey a key =>
      match lookup key (attrCustomData (attrAt s a)) with
      | Some v => v
      | None => VtEmpty
      end
  end.

(** Writing a value succeeds on a plug that holds a value of that kind. *)
Definition withValue (e : PlugEntry) (v : PlugValue) : PlugEntry := {|
  plugNode := plugNode e; plugAttribute := plugAttribute e;
  plugSources := plugSources e; plugIsArray := plugIsArray e;
  plugElements := plugElements e; plugIsCompound := plugIsCompound e;
  plugChildren := plugChildren e; plugValue := v |}.

Definition withSources (e : PlugEntry) (sources : list MPlug) : PlugEntry := {|
  plugNode := plugNode e; plugAttribute := plugAttribute e;
  plugSources := sources; plugIsArray := plugIsArray e;
  plugElements := plugElements e; plugIsCompound := plugIsCompound e;
  plugChildren := plugChildren e; plugValue := plugValue e |}.

Definition withPlugs (s : Scene) (table : list PlugEntry) : Scene := {|
  plugs := table; nodes := nodes s; attrs := attrs s; uiUnit := uiUnit s |}.

Definition updatePlug (s : Scene) (p : MPlug) (f : PlugEntry -> PlugEntry)
  : Scene :=
  match p with
  | MPlug_at id => withPlugs s (<[id := f (plugAt s p)]> (plugs s))
  | MPlug_null => s
  end.

Definition sameKind (v w : PlugValue) : bool :=
  match v, w with
  | PVBool _, PVBool _ | PVFloat _, PVFloat _
  | PVString _, PVString _ | PVShort _, PVShort _ => true
  | _, _ => false
  end.

Definition setValue (s : Scene) (p : MPlug) (v : PlugValue) : MStatus * Scene :=
  if plugExists s p && sameKind (plugValue (plugAt s p)) v then
    (kSuccess, updatePlug s p (fun e => withValue e v))
  else (kFailure, s).

(** A disconnection needs the connection to be there, a connection needs
    the destination to be free. *)
Definition applyOp (s : Scene) (op : DGOp) : option Scene :=
  match op with
  | OpDisconnect src dst =>
      if existsb (fun x => bool_decide (x = src)) (plugSources (plugAt s dst))
      then Some (updatePlug s dst (fun e =>
                   withSources e
                     (List.filter (fun x => negb (bool_decide (x = src)))
                                  (plugSources e))))
      else None
  | OpConnect src dst =>
      match plugSources (plugAt s dst) with
      | [] =>
          if plugExists s src && plugExists s dst then
            Some (updatePlug s dst (fun e => withSources e [src]))
          else None
      | _ => None
      end
  end.

Fixpoint applyOps (s : Scene) (ops : list DGOp) : MStatus * Scene :=
  match ops with
  | [] => (kSuccess, s)
  | op :: rest =>
      match applyOp s op with
      | Some s' => applyOps s' rest
      | None => (kFailure, s)
      end
  end.

Definition perform (c : Command) (s : Scene) : MStatus * Scene :=
  match c with
  | DGModifierDoIt ops => applyOps s ops
  | PlugSetFloat p v => setValue s p (PVFloat v)
  | PlugSetBool p v => setValue s p (PVBool v)
  | PlugSetString p v => setValue s p (PVString v)
  | PlugSetShort p v => setValue s p (PVShort v)
  end.

Definition host : Host := @Build_Host libs Scene answer perform.

(** The rank of a plug and what is left of an iterator in this host. *)
Definition rank (p : MPlug) : nat :=
  match p with
  | MPlug_null => 0
  | MPlug_at id => S id
  end.

Definition remaining (s : Scene) (it : MItDependencyGraph) : nat :=
  match it with
  | ItDG_at root position =>
      length (nodeUpstream (nodeAt s root)) - position
  end.

(** ** A small scene

    A transform with a cube shape below it.  The cube carries two shading
    groups, one face each, with a red and a blue Lambert shader.  The
    translation of the transform is driven by an animation curve on X and
    by a mute node that is on on Y. *)
Definition simplePlug (node attribute : nat) (sources : list MPlug)
    (v : PlugValue) : PlugEntry := {|
  plugNode := MObject_at node; plugAttribute := MObject_at attribute;
  plugSources := sources; plugIsArray := false; plugElements := [];
  plugIsCompound := false; plugChildren := []; plugValue := v |}.

Definition compoundPlug (node attribute : nat) (children : list nat)
  : PlugEntry := {|
  plugNode := MObject_at node; plugAttribute := MObject_at attribute;
  plugSources := []; plugIsArray := false; plugElements := [];
  plugIsCompound := true; plugChildren := children; plugValue := PVNone |}.

Definition arrayPlug (node attribute : nat) (elements : list nat)
  : PlugEntry := {|
  plugNode := MObject_at node; plugAttribute := MObject_at attribute;
  plugSources := []; plugIsArray := true; plugElements := elements;
  plugIsCompound := false; plugChildren := []; plugValue := PVNone |}.

Definition cubePlugs : list PlugEntry := [
  (* 0 translateX *) simplePlug 0 11 [MPlug_at 14] (PVFloat 0);
  (* 1 translateY *) simplePlug 0 11 [MPlug_at 15] (PVFloat 0);
  (* 2 translateZ *) simplePlug 0 11 [] (PVFloat 0);
  (* 3 visibility *) simplePlug 0 11 [] (PVBool true);
  (* 4 intermediateObject *) simplePlug 1 11 [] (PVBool false);
  (* 5 translateYZ *) compoundPlug 0 11 [1; 2]%nat;
  (* 6 translate *) compoundPlug 0 11 [0; 1; 2]%nat;
  (* 7 an array plug with one connected element *) arrayPlug 0 11 [0]%nat;
  (* 8 template *) simplePlug 1 11 [] (PVBool false);
  (* 9 lodVisibility *) simplePlug 1 11 [] (PVBool true);
  (* 10 surfaceShader of the first group *) simplePlug 2 11 [MPlug_at 11] PVNone;
  (* 11 outColor of the red shader *) simplePlug 3 11 [] PVNone;
  (* 12 input of the curve *) simplePlug 4 11 [] (PVFloat 0);
  (* 13 mute *) simplePlug 5 11 [] (PVBool true);
  (* 14 output of the curve *) simplePlug 4 11 [] (PVFloat 0);
  (* 15 output of the mute node *) simplePlug 5 11 [] (PVFloat 0);
  (* 16 surfaceShader of the second group *) simplePlug 7 11 [MPlug_at 17] PVNone;
  (* 17 outColor of the blue shader *) simplePlug 9 11 [] PVNone;
  (* 18 an enum plug *) simplePlug 0 10 [] (PVShort 0);
  (* 19 a string plug *) simplePlug 0 11 [] (PVString "")
].

Definition node (name : string) (type : MFnType) : NodeEntry := {|
  nodeName := name; nodeType := type; nodeFns := []; nodePlugs := [];
  nodeUpstream := []; nodeHasAnimCurve := false;
  nodeExpressionAnimated := false; nodeSets := []; nodeFaces := [];
  nodeLambert := None; nodeEnumFields := []; nodeShapesBelow := 0;
  nodeDagPath := [] |}.

Definition kMesh : MFnType := kOtherFn 296.
Definition kShadingEngine : MFnType := kOtherFn 320.
Definition kLambert : MFnType := kOtherFn 367.
Definition kComponent : MFnType := kOtherFn 524.
Definition kTypedAttribute : MFnType := kOtherFn 563.

Definition cubeNodes : list NodeEntry := [
  (* 0 *) {| nodeName := "ns:pCube1"; nodeType := kTransform; nodeFns := [];
             nodePlugs := [("translateX", 0); ("translateY", 1);
                           ("translateZ", 2); ("visibility", 3);
                           ("translate", 6)]%nat;
             nodeUpstream := [MObject_at 0; MObject_at 4; MObject_at 5];
             nodeHasAnimCurve := true; nodeExpressionAnimated := false;
             nodeSets := []; nodeFaces := []; nodeLambert := None;
             nodeEnumFields := []; nodeShapesBelow := 1;
             nodeDagPath := [MObject_at 0] |};
  (* 1 *) {| nodeName := "ns:pCubeShape1"; nodeType := kMesh; nodeFns := [];
             nodePlugs := [("intermediateObject", 4); ("template", 8);
                           ("visibility", 3); ("lodVisibility", 9)]%nat;
             nodeUpstream := [MObject_at 1];
             nodeHasAnimCurve := false; nodeExpressionAnimated := false;
             nodeSets := [(MObject_at 2, MObject_at 6);
                          (MObject_at 7, MObject_at 8)];
             nodeFaces := []; nodeLambert := None;
             nodeEnumFields := []; nodeShapesBelow := 0;
             nodeDagPath := [MObject_at 0; MObject_at 1] |};
  (* 2 *) {| nodeName := "redSG"; nodeType := kShadingEngine; nodeFns := [];
             nodePlugs := [("surfaceShader", 10%nat)]; nodeUpstream := [];
             nodeHasAnimCurve := false; nodeExpressionAnimated := false;
             nodeSets := []; nodeFaces := []; nodeLambert := None;
             nodeEnumFields := []; nodeShapesBelow := 0; nodeDagPath := [] |};
  (* 3 *) {| nodeName := "red"; nodeType := kLambert; nodeFns := [];
             nodePlugs := []; nodeUpstream := [];
             nodeHasAnimCurve := false; nodeExpressionAnimated := false;
             nodeSets := []; nodeFaces := [];
             nodeLambert := Some ((one, 0, 0, one), (0, 0, 0, one));
             nodeEnumFields := []; nodeShapesBelow := 0; nodeDagPath := [] |};
  (* 4 *) {| nodeName := "pCube1_translateX";
             nodeType := kAnimCurveTimeToDistance; nodeFns := [];
             nodePlugs := [("i", 12%nat)]; nodeUpstream := [];
             nodeHasAnimCurve := true; nodeExpressionAnimated := false;
             nodeSets := []; nodeFaces := []; nodeLambert := None;
             nodeEnumFields := []; nodeShapesBelow := 0; nodeDagPath := [] |};
  (* 5 *) {| nodeName := "mute_pCube1_translateY"; nodeType := kMute;
             nodeFns := []; nodePlugs := [("mute", 13%nat)];
             nodeUpstream := [];
             nodeHasAnimCurve := false; nodeExpressionAnimated := false;
             nodeSets := []; nodeFaces := []; nodeLambert := None;
             nodeEnumFields := []; nodeShapesBelow := 0; nodeDagPath := [] |};
  (* 6 *) {| nodeName := "f[0]"; nodeType := kComponent; nodeFns := [];
             nodePlugs := []; nodeUpstream := [];
             nodeHasAnimCurve := false; nodeExpressionAnimated := false;
             nodeSets := []; nodeFaces := [0%nat]; nodeLambert := None;
             nodeEnumFields := []; nodeShapesBelow := 0; nodeDagPath := [] |};
  (* 7 *) {| nodeName := "blueSG"; nodeType := kShadingEngine; nodeFns := [];
             nodePlugs := [("surfaceShader", 16%nat)]; nodeUpstream := [];
             nodeHasAnimCurve := false; nodeExpressionAnimated := false;
             nodeSets := []; nodeFaces := []; nodeLambert := None;
             nodeEnumFields := []; nodeShapesBelow := 0; nodeDagPath := [] |};
  (* 8 *) {| nodeName := "f[1]"; nodeType := kComponent; nodeFns := [];
             nodePlugs := []; nodeUpstream := [];
             nodeHasAnimCurve := false; nodeExpressionAnimated := false;
             nodeSets := []; nodeFaces := [1%nat]; nodeLambert := None;
             nodeEnumFields := []; nodeShapesBelow := 0; nodeDagPath := [] |};
  (* 9 *) {| nodeName := "blue"; nodeType := kLambert; nodeFns := [];
             nodePlugs := []; nodeUpstream := [];
             nodeHasAnimCurve := false; nodeExpressionAnimated := false;
             nodeSets := []; nodeFaces := [];
             nodeLambert := Some ((0, 0, one, one), (0, 0, 0, one));
             nodeEnumFields := []; nodeShapesBelow := 0; nodeDagPath := [] |};
  (* 10 *) {| nodeName := "interpolation"; nodeType := kEnumAttribute;
              nodeFns := []; nodePlugs := []; nodeUpstream := [];
              nodeHasAnimCurve := false; nodeExpressionAnimated := false;
              nodeSets := []; nodeFaces := []; nodeLambert := None;
              nodeEnumFields := [("linear", 0); ("smooth", 1)];
              nodeShapesBelow := 0; nodeDagPath := [] |};
  (* 11 *) node "attribute" kTypedAttribute
].

Definition cubeAttrs : list AttrEntry := [
  (* 0 *) {| attrValue := Some (VtFloat 500000000); attrRole := "";
             attrCustomData := [] |};
  (* 1 *) {| attrValue := Some (VtVec3f (250000000, 250000000, one));
             attrRole := "Color"; attrCustomData := [] |};
  (* 2 *) {| attrValue := Some (VtToken "smooth"); attrRole := "";
             attrCustomData := [("flag", VtBool true)] |};
  (* 3 *) {| attrValue := Some (VtOther "double"); attrRole := "";
             attrCustomData := [] |};
  (* 4 *) {| attrValue := None; attrRole := ""; attrCustomData := [] |}
].

Definition cube : Scene := {|
  plugs := cubePlugs; nodes := cubeNodes; attrs := cubeAttrs;
  uiUnit := kOtherUnit 24 |}.

(** Empty output arrays, with no interpolation set yet. *)
Definition noColors : ShaderColors := {|
  RGBData := Some []; RGBInterp := ""; AlphaData := Some []; AlphaInterp := "" |}.

Definition red : GfVec3f := (one, 0, 0).
Definition blue : GfVec3f := (0, 0, one).

End TableHost.


(** * A second scene

    The cube with more plugs, two more shapes and more USD attributes. *)
Module Rig.

Definition rigPlugs : list TableHost.PlugEntry :=
  TableHost.cubePlugs ++ [
  (* 20 an array plug: translateZ, translateY, translateX *)
    TableHost.arrayPlug 0 11 [2; 1; 0]%nat;
  (* 21 translateZX *) TableHost.compoundPlug 0 11 [2; 0]%nat;
  (* 22 a compound plug whose second child is missing *)
    TableHost.compoundPlug 0 11 [2; 40]%nat;
  (* 23 visibility of the sphere: off, and driven by the curve *)
    TableHost.simplePlug 12 11 [MPlug_at 14] (TableHost.PVBool false);
  (* 24 visibility of the hidden shape: off *)
    TableHost.simplePlug 13 11 [] (TableHost.PVBool false);
  (* 25 surfaceShader of the group of the sphere *)
    TableHost.simplePlug 14 11 [MPlug_at 11] TableHost.PVNone;
  (* 26, 27, 28 the colour of the ramp: 0.5, 0.5, 1 *)
    TableHost.simplePlug 15 11 [] (TableHost.PVFloat 500000000);
    TableHost.simplePlug 15 11 [] (TableHost.PVFloat 500000000);
    TableHost.simplePlug 15 11 [] (TableHost.PVFloat TableHost.one);
  (* 29 color of the ramp *) TableHost.compoundPlug 15 11 [26; 27; 28]%nat;
  (* 30, 31 the transparency of the ramp: 0.3 and 0.3; 32 holds no value *)
    TableHost.simplePlug 15 11 [] (TableHost.PVFloat 300000000);
    TableHost.simplePlug 15 11 [] (TableHost.PVFloat 300000000);
    TableHost.simplePlug 15 11 [] TableHost.PVNone;
  (* 33 transparency of the ramp *)
    TableHost.compoundPlug 15 11 [30; 31; 32]%nat
].

Definition shape (name : string) (visibility : nat)
    (sets : list (MObject * MObject)) : TableHost.NodeEntry := {|
  TableHost.nodeName := name; TableHost.nodeType := TableHost.kMesh;
  TableHost.nodeFns := [];
  TableHost.nodePlugs := [("visibility", visibility)];
  TableHost.nodeUpstream := []; TableHost.nodeHasAnimCurve := false;
  TableHost.nodeExpressionAnimated := false; TableHost.nodeSets := sets;
  TableHost.nodeFaces := []; TableHost.nodeLambert := None;
  TableHost.nodeEnumFields := []; TableHost.nodeShapesBelow := 0;
  TableHost.nodeDagPath := [] |}.

Definition rigNodes : list TableHost.NodeEntry :=
  TableHost.cubeNodes ++ [
  (* 12 *) shape "pSphereShape1" 23 [(MObject_at 14, MObject_at 6)];
  (* 13 *) shape "hiddenShape" 24 [];
  (* 14 *) {| TableHost.nodeName := "sphereSG";
              TableHost.nodeType := TableHost.kShadingEngine;
              TableHost.nodeFns := [];
              TableHost.nodePlugs := [("surfaceShader", 25%nat)];
              TableHost.nodeUpstream := [];
              TableHost.nodeHasAnimCurve := false;
              TableHost.nodeExpressionAnimated := false;
              TableHost.nodeSets := []; TableHost.nodeFaces := [];
              TableHost.nodeLambert := None; TableHost.nodeEnumFields := [];
              TableHost.nodeShapesBelow := 0; TableHost.nodeDagPath := [] |};
  (* 15 a shader that is not a Lambert shader *)
           {| TableHost.nodeName := "ramp";
              TableHost.nodeType := kOtherFn 500;
              TableHost.nodeFns := [];
              TableHost.nodePlugs := [("color", 29); ("transparency", 33)]%nat;
              TableHost.nodeUpstream := [];
              TableHost.nodeHasAnimCurve := false;
              TableHost.nodeExpressionAnimated := false;
              TableHost.nodeSets := []; TableHost.nodeFaces := [];
              TableHost.nodeLambert := None; TableHost.nodeEnumFields := [];
              TableHost.nodeShapesBelow := 0; TableHost.nodeDagPath := [] |}
].

Definition rigAttrs : list TableHost.AttrEntry :=
  TableHost.cubeAttrs ++ [
  (* 5 *) {| TableHost.attrValue := Some (VtToken (L := TableHost.libs) "cubic");
             TableHost.attrRole := "";
             TableHost.attrCustomData :=
               [("flag", VtToken (L := TableHost.libs) "yes")] |};
  (* 6 *) {| TableHost.attrValue := Some (VtBool (L := TableHost.libs) false);
             TableHost.attrRole := ""; TableHost.attrCustomData := [] |};
  (* 7 *) {| TableHost.attrValue :=
               Some (VtVec3f (L := TableHost.libs) (1, 2, 3));
             TableHost.attrRole := ""; TableHost.attrCustomData := [] |}
].

Definition rig : TableHost.Scene := {|
  TableHost.plugs := rigPlugs; TableHost.nodes := rigNodes;
  TableHost.attrs := rigAttrs; TableHost.uiUnit := kSeconds |}.

End Rig.


(** * Properties *)

(** ** Execution of sequenced programs and loops *)

Section Execution.
Context {L : PxrLibs} (h : Host).

Lemma run_bind {A B} (m : Prog A) (f : A -> Prog B) (s : Scene h) :
  run h (bind m f) s = run h (f (fst (run h m s))) (snd (run h m s)).
Proof.
  revert s. induction m as [a | X q k IH | c k IH | msg k IH]; intros s; simpl.
  - reflexivity.
  - apply IH.
  - destruct (perform h c s) as [st s']. apply IH.
  - apply IH.
Qed.

Lemma events_bind {A B} (m : Prog A) (f : A -> Prog B) (s : Scene h) :
  events h (bind m f) s
  = events h m s ++ events h (f (fst (run h m s))) (snd (run h m s)).
Proof.
  revert s. induction m as [a | X q k IH | c k IH | msg k IH]; intros s; simpl.
  - reflexivity.
  - f_equal. apply IH.
  - destruct (perform h c s) as [st s']. f_equal. apply IH.
  - f_equal. apply IH.
Qed.

Lemma readOnly_bind {A B} (m : Prog A) (f : A -> Prog B) :
  readOnly m -> (forall a, readOnly (f a)) -> readOnly (bind m f).
Proof.
  intros Hm Hf. induction Hm; simpl.
  - apply Hf.
  - constructor. auto.
  - constructor. auto.
Qed.

Lemma readOnly_for_each {A S R} (l : list A) (body : A -> S -> Prog (S + R)) :
  (forall a s, readOnly (body a s)) -> forall s, readOnly (for_each l body s).
Proof.
  intros Hbody. induction l as [| a l IH]; intros s; simpl.
  - constructor.
  - apply readOnly_bind; [apply Hbody |].
    intros [s' | r]; [apply IH | constructor].
Qed.

Lemma readOnly_for_do {A S} (l : list A) (body : A -> S -> Prog S) :
  (forall a s, readOnly (body a s)) -> forall s, readOnly (for_do l body s).
Proof.
  intros Hbody. induction l as [| a l IH]; intros s; simpl.
  - constructor.
  - apply readOnly_bind; [apply Hbody | apply IH].
Qed.

(** A read-only program leaves the scene as it found it and performs no
    command. *)
Lemma readOnly_final {R} (p : Prog R) (s : Scene h) :
  readOnly p -> snd (run h p s) = s.
Proof. induction 1; simpl; auto. Qed.

Lemma readOnly_commands {R} (p : Prog R) (s : Scene h) :
  readOnly p -> commands h p s = [].
Proof.
  unfold commands. induction 1; simpl; auto.
Qed.

Lemma run_bind_readOnly {A B} (m : Prog A) (f : A -> Prog B) (s : Scene h) :
  readOnly m -> run h (bind m f) s = run h (f (result h m s)) s.
Proof.
  intros Hm. rewrite run_bind, (readOnly_final m s Hm). reflexivity.
Qed.

End Execution.


(** Steps through the host calls at the head of a program that is run,
    without unfolding the functions it calls. *)
Ltac run_calls :=
  cbn [run events bind ask exec displayError fst snd].

(** Closes a [readOnly] goal for a program written with the notations:
    case analysis on every value the program branches on. *)
Ltac read_only :=
  repeat first
    [ progress intros
    | apply readOnly_Ret
    | apply readOnly_Ask
    | apply readOnly_Say
    | apply readOnly_bind
    | apply readOnly_for_each
    | apply readOnly_for_do
    | match goal with
      | |- readOnly (match ?x with _ => _ end) => destruct x
      | |- readOnly (if ?x then _ else _) => destruct x
      | |- readOnly (let '(_, _) := ?x in _) => destruct x
      end
    | progress (unfold ask, displayError)
    | progress simpl ].

(** ** getRotOrder *)

(** C10, as stated, fails: for the order YZX the output for the X axis is 1,
    while X stands at position 2 of that order. *)
Lemma getRotOrder_YZX_not_positions :
  rotationAxes kYZX = Some (AxisY, AxisZ, AxisX) /\
  snd (getRotOrder kYZX 7 7 7) = (1, 2, 0)%N /\
  ~ axesAtTheirPositions (AxisY, AxisZ, AxisX) (snd (getRotOrder kYZX 7 7 7)).
Proof.
  repeat split. unfold axesAtTheirPositions. simpl. discriminate.
Qed.

(** C10, amended: for each of the six recognized rotation orders
    [getRotOrder] returns true and its three outputs, in parameter order,
    are the indices of the first, second and third axis of the order, which
    is a permutation of 0, 1, 2; for any other order it returns false and
    the three outputs keep the values they had. *)
Theorem getRotOrder_lists_axes (iOrder : RotationOrder) (x y z : N) :
  match rotationAxes iOrder with
  | Some axes =>
      fst (getRotOrder iOrder x y z) = true /\
      axesInOrder axes (snd (getRotOrder iOrder x y z)) /\
      (let '(a, b, c) := snd (getRotOrder iOrder x y z) in
       Permutation [a; b; c] [0; 1; 2]%N)
  | None => getRotOrder iOrder x y z = (false, (x, y, z))
  end.
Proof.
  destruct iOrder; simpl; try reflexivity; (split; [reflexivity |]);
    (split; [reflexivity |]).
  - reflexivity.
  - (* 1 2 0 *) apply Permutation_sym, (Permutation_cons_app [1; 2]%N []).
    reflexivity.
  - (* 2 0 1 *) apply (Permutation_cons_app [0; 1]%N []). reflexivity.
  - apply perm_skip, perm_swap.
  - apply perm_swap.
  - apply Permutation_sym, (Permutation_rev [0; 1; 2]%N).
Qed.

(** ** isAncestorDescendentRelationship *)

Section AncestorDescendent.
Context {L : PxrLibs} (h : Host).

Lemma firstn_same_length {A} (l k : list A) :
  length l = length k -> firstn (length l) k = k.
Proof. intros ->. apply firstn_all. Qed.

Lemma MDagPath_pop_to (p : MDagPath) (n : nat) :
  (n <= length p)%nat -> MDagPath_pop p (length p - n) = firstn n p.
Proof.
  intros Hn. unfold MDagPath_pop.
  replace (length p - n <=? length p)%nat with true
    by (symmetry; apply Nat.leb_le; lia).
  f_equal. lia.
Qed.

Lemma isAncestorDescendentRelationship_result (path1 path2 : MDagPath)
    (s : Scene h) :
  result h (isAncestorDescendentRelationship path1 path2) s
  = parentingRelationship path1 path2.
Proof.
  unfold result, isAncestorDescendentRelationship, parentingRelationship,
    MDagPath_length.
  destruct (Nat.eqb_spec (length path1) (length path2)) as [Heq | Hne]; simpl.
  - replace (length path2 <? length path1)%nat with false
      by (symmetry; apply Nat.ltb_ge; lia).
    rewrite (MDagPath_pop_to path2 (length path1)) by lia.
    destruct (MDagPath_eqb path1 path2) eqn:E; simpl.
    + unfold MDagPath_eqb in E. apply bool_decide_eq_true in E. subst path2.
      rewrite firstn_all. unfold MDagPath_eqb.
      rewrite bool_decide_eq_true_2 by reflexivity. reflexivity.
    + unfold MDagPath_eqb in *. rewrite firstn_same_length by exact Heq.
      rewrite E. reflexivity.
  - destruct (Nat.ltb_spec (length path2) (length path1)) as [Hlt | Hge].
    + rewrite (MDagPath_pop_to path1 (length path2)) by lia.
      destruct (MDagPath_eqb path2 (firstn (length path2) path1));
        reflexivity.
    + rewrite (MDagPath_pop_to path2 (length path1)) by lia.
      destruct (MDagPath_eqb path1 (firstn (length path1) path2));
        reflexivity.
Qed.

Lemma parentingRelationship_sym (path1 path2 : MDagPath) :
  parentingRelationship path1 path2 = parentingRelationship path2 path1.
Proof.
  unfold parentingRelationship.
  destruct (Nat.ltb_spec (length path2) (length path1)) as [H21 | H21];
    destruct (Nat.ltb_spec (length path1) (length path2)) as [H12 | H12];
    try reflexivity; try lia.
  assert (Heq : length path1 = length path2) by lia.
  rewrite (firstn_same_length path1 path2 Heq).
  rewrite (firstn_same_length path2 path1 (eq_sym Heq)).
  unfold MDagPath_eqb. apply bool_decide_ext. split; congruence.
Qed.

Lemma parentingRelationship_same_length (path1 path2 : MDagPath) :
  length path1 = length path2 -> path1 <> path2 ->
  parentingRelationship path1 path2 = false.
Proof.
  intros Heq Hne. unfold parentingRelationship.
  rewrite Heq, Nat.ltb_irrefl, <- Heq, (firstn_same_length path1 path2 Heq).
  unfold MDagPath_eqb. apply bool_decide_eq_false. exact Hne.
Qed.

(** C9: [isAncestorDescendentRelationship] returns the same boolean for
    (path1, path2) and for (path2, path1), and it returns false whenever the
    two paths have equal length and are not equal. *)
Theorem isAncestorDescendentRelationship_symmetric (path1 path2 : MDagPath)
    (s : Scene h) :
  result h (isAncestorDescendentRelationship path1 path2) s
  = result h (isAncestorDescendentRelationship path2 path1) s
  /\ (MDagPath_length path1 = MDagPath_length path2 -> path1 <> path2 ->
      result h (isAncestorDescendentRelationship path1 path2) s = false).
Proof.
  rewrite !isAncestorDescendentRelationship_result. split.
  - apply parentingRelationship_sym.
  - apply parentingRelationship_same_length.
Qed.

End AncestorDescendent.

(** ** GetConnected *)

Section GetConnected.
Context {L : PxrLibs} (h : Host).

(** C8: [GetConnected] asks the host once for the sources of the plug.  It
    returns the source when the query succeeds with exactly one plug, and a
    null plug in every other case (the query fails, or it reports no plug or
    more than one); it makes no other call and leaves the scene alone. *)
Theorem GetConnected_single_source (plug : MPlug) (s : Scene h) :
  let status := fst (answer h (PlugConnectedTo plug true false) s) in
  let conn := snd (answer h (PlugConnectedTo plug true false) s) in
  (forall src, MStatus_ok status = true -> conn = [src] ->
     result h (GetConnected plug) s = src) /\
  (MStatus_ok status = false \/ length conn <> 1%nat ->
     result h (GetConnected plug) s = MPlug_null) /\
  events h (GetConnected plug) s = [EvAsk (PlugConnectedTo plug true false)] /\
  final h (GetConnected plug) s = s.
Proof.
  unfold result, final, GetConnected. simpl.
  destruct (answer h (PlugConnectedTo plug true false) s) as [status conn].
  simpl. repeat split.
  - intros src Hok ->. rewrite Hok. reflexivity.
  - intros [Hfail | Hlen].
    + rewrite Hfail. reflexivity.
    + destruct (MStatus_ok status); [| reflexivity]. simpl.
      destruct (Nat.eqb_spec (length conn) 1); [contradiction | reflexivity].
  - destruct (negb (MStatus_ok status) || negb (length conn =? 1)%nat);
      reflexivity.
  - destruct (negb (MStatus_ok status) || negb (length conn =? 1)%nat);
      reflexivity.
Qed.

End GetConnected.

(** ** stripNamespaces *)

Section StripNamespaces.
Context {L : PxrLibs}.

Lemma string_append_assoc (a b c : string) :
  (a +:+ b) +:+ c = a +:+ (b +:+ c).
Proof.
  induction a as [| x a IH]; [reflexivity |].
  change (String x ((a +:+ b) +:+ c) = String x (a +:+ (b +:+ c))).
  f_equal. exact IH.
Qed.

Lemma skipn_cons_nth {A} (d : A) (l : list A) (i : nat) :
  (i < length l)%nat -> skipn i l = nth i l d :: skipn (S i) l.
Proof.
  revert i. induction l as [| x l IH]; intros i Hi; simpl in Hi; [lia |].
  destruct i as [| i]; simpl; [reflexivity |]. apply IH. lia.
Qed.

Lemma concat_cons_nonempty (sep x : string) (l : list string) :
  l <> [] -> String.concat sep (x :: l) = x +:+ sep +:+ String.concat sep l.
Proof. destruct l; [congruence | reflexivity]. Qed.

(** The loop leaves the components from [i] up to the last but one, each
    followed by [":"], appended to the name it started from. *)
Lemma stripNamespaces_loop_rejoins (strArray : list MString) (count : nat) :
  forall (i : nat) (name : MString),
    (i + count + 1 = length strArray)%nat ->
    stripNamespaces_loop strArray (N.of_nat i) count name
      +:+ nth (length strArray - 1) strArray ""
    = name +:+ String.concat ":" (skipn i strArray).
Proof.
  induction count as [| count IH]; intros i name Hlen; simpl.
  - replace (length strArray - 1)%nat with i by lia.
    rewrite (skipn_cons_nth "" strArray i) by lia.
    rewrite skipn_all2 by lia. reflexivity.
  - replace (N.of_nat i + 1)%N with (N.of_nat (S i)) by lia.
    rewrite IH by lia. rewrite Nat2N.id.
    rewrite (skipn_cons_nth "" strArray i) by lia.
    rewrite concat_cons_nonempty.
    + rewrite !string_append_assoc. reflexivity.
    + intros Hnil. apply (f_equal (@length _)) in Hnil.
      rewrite length_skipn in Hnil. simpl in Hnil. lia.
Qed.

Lemma last_nth {A} (d : A) (l : list A) :
  List.last l d = nth (length l - 1) l d.
Proof.
  induction l as [| x l IH]; [reflexivity |].
  destruct l as [| y l]; [reflexivity |].
  change (List.last (x :: y :: l) d) with (List.last (y :: l) d). rewrite IH.
  simpl. rewrite Nat.sub_0_r. reflexivity.
Qed.

(** C5, amended: [stripNamespaces(name, 0)] is the name unchanged; for a
    depth other than 0, when the name splits on [':'] into at least one and
    at most [depth + 1] components the last component is returned, and when
    it splits into more the first [depth] components are removed and the
    rest are returned joined with [":"]; when the split fails or yields no
    component the name is returned unchanged.  Depths and array lengths are
    those of an [unsigned int]. *)
Theorem stripNamespaces_components (iNodeName : MString) (iDepth : N)
    (status : MStatus) (strArray : list MString) :
  MString_split iNodeName ":" = (status, strArray) ->
  (iDepth < UINT_MODULUS)%N ->
  (N.of_nat (length strArray) < UINT_MODULUS)%N ->
  stripNamespaces iNodeName 0 = iNodeName /\
  (MStatus_ok status = false \/ strArray = [] ->
   stripNamespaces iNodeName iDepth = iNodeName) /\
  (MStatus_ok status = true -> iDepth <> 0%N -> strArray <> [] ->
   (N.of_nat (length strArray) <= iDepth + 1)%N ->
   stripNamespaces iNodeName iDepth = List.last strArray "") /\
  (MStatus_ok status = true -> iDepth <> 0%N ->
   (iDepth + 1 < N.of_nat (length strArray))%N ->
   stripNamespaces iNodeName iDepth = rejoinAfter iDepth strArray).
Proof.
  intros Hsplit Hdepth Hlen. unfold UINT_MODULUS in *.
  split; [reflexivity |]. unfold stripNamespaces.
  rewrite Hsplit. split; [| split].
  - intros [Hfail | ->]; destruct (iDepth =? 0)%N; try reflexivity.
    + now rewrite Hfail.
    + destruct (MStatus_ok status); reflexivity.
  - intros Hok Hnz Hne Hle. rewrite Hok.
    destruct (N.eqb_spec iDepth 0) as [| _]; [contradiction |].
    destruct (N.eqb_spec (N.of_nat (length strArray)) 0) as [H0 | H0].
    { destruct strArray; [contradiction | discriminate]. }
    rewrite last_nth.
    replace (N.to_nat (N.of_nat (length strArray) - 1))
      with (length strArray - 1)%nat by lia.
    destruct (N.leb_spec (N.of_nat (length strArray))
                ((iDepth + 1) mod UINT_MODULUS)) as [_ | Hgt];
      [reflexivity |].
    (* the comparison can only fail when [iDepth + 1] wraps to 0: the loop
       then makes no iteration *)
    replace (N.to_nat (N.of_nat (length strArray) - 1 - iDepth)) with 0%nat
      by lia.
    reflexivity.
  - intros Hok Hnz Hlt. rewrite Hok.
    destruct (N.eqb_spec iDepth 0) as [| _]; [contradiction |].
    destruct (N.eqb_spec (N.of_nat (length strArray)) 0) as [H0 | H0]; [lia |].
    assert (Hmod : ((iDepth + 1) mod UINT_MODULUS = iDepth + 1)%N).
    { apply N.mod_small. unfold UINT_MODULUS. lia. }
    rewrite Hmod.
    destruct (N.leb_spec (N.of_nat (length strArray)) (iDepth + 1)) as [| _];
      [lia |].
    unfold rejoinAfter.
    replace (N.to_nat (N.of_nat (length strArray) - 1))
      with (length strArray - 1)%nat by lia.
    rewrite <- (N2Nat.id iDepth) at 1.
    rewrite stripNamespaces_loop_rejoins by lia.
    reflexivity.
Qed.

End StripNamespaces.

(** ** MDagPathToUsdPath *)

Section MDagPathToUsdPath.
Context {L : PxrLibs} (h : Host).

(** The two passes of [std::replace] amount to the replacement of each
    character on its own. *)
Lemma std_replace_twice (name : string) :
  std_replace ":" "_" (std_replace "|" "/" name) = usdPathString name.
Proof.
  induction name as [| c name IH]; simpl; [reflexivity |].
  rewrite IH. f_equal. unfold usdPathCharacter.
  destruct (Ascii.eqb c "|") eqn:Hbar; [reflexivity |].
  reflexivity.
Qed.

Lemma usdPathString_get (name : string) (n : nat) :
  String.get n (usdPathString name)
  = option_map usdPathCharacter (String.get n name).
Proof.
  revert n. induction name as [| c name IH]; intros [| n]; simpl;
    try reflexivity. apply IH.
Qed.

Lemma _IsShape_result (dagPath : MDagPath) (s : Scene h) :
  result h (_IsShape dagPath) s = mergesIntoParent h s dagPath.
Proof.
  unfold result, _IsShape, mergesIntoParent. simpl.
  destruct (answer h (DagPathHasFn dagPath kTransform) s); simpl;
    [reflexivity |].
  destruct (answer h (DagPathHasFn (MDagPath_pop dagPath 1) kTransform) s);
    simpl; [| reflexivity].
  destruct (answer h (DagPathNumberOfShapesDirectlyBelow
                        (MDagPath_pop dagPath 1)) s) as [n |]; simpl.
  - destruct (Nat.eqb_spec n 1) as [-> | Hne].
    + symmetry. apply bool_decide_eq_true_2. reflexivity.
    + symmetry. apply bool_decide_eq_false_2. congruence.
  - reflexivity.
Qed.

Lemma _IsShape_readOnly (dagPath : MDagPath) : readOnly (_IsShape dagPath).
Proof. unfold _IsShape. read_only. Qed.

(** C6: [MDagPathToUsdPath] returns the path made from the full path name
    of the DAG path with every ['|'] replaced by ['/'] and every [':'] by
    ['_'] (each character of the name is replaced on its own and no other
    character changes); when [mergeTransformAndShape] is set and the path is
    not a transform while its parent is a transform with exactly one shape
    directly below it, the parent path of that path is returned instead. *)
Theorem MDagPathToUsdPath_converts (dagPath : MDagPath)
    (mergeTransformAndShape : bool) (s : Scene h) :
  let name := answer h (DagPathFullPathName dagPath) s in
  let converted := SdfPath_of_string (usdPathString name) in
  result h (MDagPathToUsdPath dagPath mergeTransformAndShape) s
  = (if mergeTransformAndShape && mergesIntoParent h s dagPath
     then SdfPath_GetParentPath converted
     else converted)
  /\ (forall n, String.get n (usdPathString name)
                = option_map usdPathCharacter (String.get n name)).
Proof.
  cbv zeta. split; [| apply usdPathString_get].
  unfold result, MDagPathToUsdPath. run_calls.
  rewrite std_replace_twice.
  destruct mergeTransformAndShape; run_calls; [| reflexivity].
  rewrite run_bind_readOnly by apply _IsShape_readOnly.
  rewrite _IsShape_result.
  destruct (mergesIntoParent h s dagPath); reflexivity.
Qed.

End MDagPathToUsdPath.

(** ** getSampledType *)

Section Loops.
Context {L : PxrLibs} (h : Host).

Lemma result_bind_readOnly {A B} (m : Prog A) (f : A -> Prog B) (s : Scene h) :
  readOnly m -> result h (bind m f) s = result h (f (result h m s)) s.
Proof. intros Hm. unfold result. now rewrite run_bind_readOnly. Qed.

(** A loop whose body is read-only computes the fold of what its body
    returns. *)
Lemma result_for_each {A S R} (l : list A) (body : A -> S -> Prog (S + R))
    (f : A -> S -> S + R) (s : Scene h) :
  (forall a st, readOnly (body a st)) ->
  (forall a st, In a l -> result h (body a st) s = f a st) ->
  forall st, result h (for_each l body st) s = fold_until l f st.
Proof.
  intros Hro. induction l as [| a l IH]; intros Hf st; [reflexivity |].
  cbn [for_each fold_until].
  rewrite result_bind_readOnly by apply Hro.
  rewrite Hf by (left; reflexivity).
  destruct (f a st) as [st' | r]; [| reflexivity].
  apply IH. intros a' st'' Hin. apply Hf. right. exact Hin.
Qed.

Lemma result_returnIfPositive (retVal : option Z) (s : Scene h) :
  result h (returnIfPositive retVal) s = positiveReturns retVal.
Proof.
  unfold returnIfPositive, positiveReturns.
  destruct retVal as [v |]; [destruct (0 <? v) |]; reflexivity.
Qed.

Lemma returnIfPositive_readOnly (retVal : option Z) :
  readOnly (returnIfPositive retVal).
Proof. unfold returnIfPositive. read_only. Qed.

Lemma getSampledType_conns_readOnly (conns : list MPlug) :
  readOnly (getSampledType_conns conns).
Proof.
  induction conns as [| c conns IH]; cbn [getSampledType_conns];
    [constructor |].
  read_only; exact IH.
Qed.

Lemma getSampledType_readOnly (fuel : nat) :
  forall p b, readOnly (getSampledType fuel p b).
Proof.
  induction fuel as [| fuel IH]; intros p b; cbn [getSampledType];
    [constructor |].
  read_only; try apply IH; try apply returnIfPositive_readOnly;
    apply getSampledType_conns_readOnly.
Qed.

End Loops.

Section SampledType.
Context {L : PxrLibs} (h : Host) (s : Scene h).

Lemma getSampledType_conns_cons (c : MPlug) (conns : list MPlug) :
  result h (getSampledType_conns (c :: conns)) s
  = if isAnimCurveType (sourceNodeType h s c) then
      if answer h (PlugIsConnected
                     (snd (answer h (FnFindPlug (sourceNode h s c) "i" true) s))) s
      then 1 else 2
    else if isMuteType (sourceNodeType h s c) then
      if mutedSource h s c then 0 else 2
    else result h (getSampledType_conns conns) s.
Proof.
  unfold result, mutedSource, sourceNodeType, sourceNode.
  cbn [getSampledType_conns]. run_calls.
  destruct (answer h (ObjApiType (answer h (PlugNode c) s)) s);
    cbn [isAnimCurveType isMuteType andb]; run_calls;
    try reflexivity;
    match goal with
    | |- context [answer h (FnFindPlug ?o ?n ?w) s] =>
        destruct (answer h (FnFindPlug o n w) s) as [st pl]
    end; run_calls;
    match goal with
    | |- context [if ?b then _ else _] => destruct b
    end; reflexivity.
Qed.

Lemma getSampledType_conns_passedOver (before rest : list MPlug) :
  Forall (fun x => passedOver h s x = true) before ->
  result h (getSampledType_conns (before ++ rest)) s
  = result h (getSampledType_conns rest) s.
Proof.
  induction 1 as [| c before Hc _ IH]; [reflexivity |].
  cbn [app]. rewrite getSampledType_conns_cons.
  unfold passedOver in Hc. apply andb_true_iff in Hc as [Hcurve Hmute].
  apply negb_true_iff in Hcurve, Hmute. rewrite Hcurve, Hmute. exact IH.
Qed.

(** What the loop over the sources returns, by the first source that
    decides. *)
Lemma getSampledType_conns_cases (conns : list MPlug) :
  (Forall (fun x => passedOver h s x = true) conns
   /\ result h (getSampledType_conns conns) s = 1)
  \/ (firstDeciding h s (sampledSource h s) conns
      /\ result h (getSampledType_conns conns) s = 1)
  \/ (firstDeciding h s (curveSource h s) conns
      /\ result h (getSampledType_conns conns) s = 2)
  \/ (firstDeciding h s (mutedSource h s) conns
      /\ result h (getSampledType_conns conns) s = 0).
Proof.
  induction conns as [| c conns IH]; [left; split; [constructor | reflexivity] |].
  rewrite getSampledType_conns_cons.
  assert (Hhere : forall decides, decides c = true ->
            firstDeciding h s decides (c :: conns)).
  { intros decides Hc. exists [], c, conns.
    repeat split; [constructor | exact Hc]. }
  unfold sampledSource, curveSource, curveInputConnected in *.
  destruct (isAnimCurveType (sourceNodeType h s c)) eqn:Hcurve.
  - destruct (answer h (PlugIsConnected _) s) eqn:Hin.
    + right; left. split; [| reflexivity]. apply Hhere.
      unfold sampledSource, curveInputConnected. now rewrite Hcurve, Hin.
    + right; right; left. split; [| reflexivity]. apply Hhere.
      unfold curveSource, curveInputConnected. now rewrite Hcurve, Hin.
  - destruct (isMuteType (sourceNodeType h s c)) eqn:Hmute.
    + destruct (mutedSource h s c) eqn:Hmuted.
      * right; right; right. split; [| reflexivity]. now apply Hhere.
      * right; right; left. split; [| reflexivity]. apply Hhere.
        unfold curveSource. rewrite Hcurve, Hmute, Hmuted. reflexivity.
    + assert (Hpassed : passedOver h s c = true).
      { unfold passedOver. now rewrite Hcurve, Hmute. }
      assert (Hlater : forall decides, firstDeciding h s decides conns ->
                firstDeciding h s decides (c :: conns)).
      { intros decides (before & c' & after & -> & Hbefore & Hc').
        exists (c :: before), c', after.
        repeat split; [constructor; assumption | exact Hc']. }
      destruct IH as [[Hall Hr] | [[Hd Hr] | [[Hd Hr] | [Hd Hr]]]].
      * left. split; [constructor; assumption | exact Hr].
      * right; left. split; [apply Hlater, Hd | exact Hr].
      * right; right; left. split; [apply Hlater, Hd | exact Hr].
      * right; right; right. split; [apply Hlater, Hd | exact Hr].
Qed.

(** The result of the loop over the sources when a given source is the
    first that decides. *)
Lemma getSampledType_conns_first (before after : list MPlug) (c : MPlug) :
  Forall (fun x => passedOver h s x = true) before ->
  (sampledSource h s c = true ->
   result h (getSampledType_conns (before ++ c :: after)) s = 1)
  /\ (curveSource h s c = true ->
      result h (getSampledType_conns (before ++ c :: after)) s = 2).
Proof.
  intros Hbefore. rewrite getSampledType_conns_passedOver by exact Hbefore.
  rewrite getSampledType_conns_cons.
  unfold sampledSource, curveSource, curveInputConnected. split.
  - intros Hc. apply andb_true_iff in Hc as [-> ->]. reflexivity.
  - intros Hc. apply orb_true_iff in Hc as [Hc | Hc];
      apply andb_true_iff in Hc as [Hty Hoff]; apply negb_true_iff in Hoff.
    + rewrite Hty, Hoff. reflexivity.
    + rewrite Hty, Hoff.
      destruct (sourceNodeType h s c); try discriminate Hty. reflexivity.
Qed.

(** The loop over the sources returns 1 exactly on a sampling connection
    and 2 exactly on a curve connection. *)
Lemma getSampledType_conns_sampled_or_curve (conns : list MPlug) :
  (result h (getSampledType_conns conns) s = 1
   <-> sampledConnection h s conns)
  /\ (result h (getSampledType_conns conns) s = 2
      <-> curveConnection h s conns).
Proof.
  unfold sampledConnection, curveConnection. split; split.
  - intros Hone.
    destruct (getSampledType_conns_cases conns)
      as [[Hall _] | [[Hd _] | [[_ Hr] | [_ Hr]]]];
      [left; exact Hall | right; exact Hd | congruence | congruence].
  - intros [Hall | (before & c & after & -> & Hbefore & Hc)].
    + rewrite <- (app_nil_r conns).
      now rewrite getSampledType_conns_passedOver.
    + now apply (getSampledType_conns_first before after c Hbefore).
  - intros Htwo.
    destruct (getSampledType_conns_cases conns)
      as [[_ Hr] | [[_ Hr] | [[Hd _] | [_ Hr]]]];
      [congruence | congruence | exact Hd | congruence].
  - intros (before & c & after & -> & Hbefore & Hc).
    now apply (getSampledType_conns_first before after c Hbefore).
Qed.

Lemma getSampledType_conns_range (conns : list MPlug) :
  In (result h (getSampledType_conns conns) s) [0; 1; 2].
Proof.
  induction conns as [| c conns IH]; [right; left; reflexivity |].
  rewrite getSampledType_conns_cons.
  repeat match goal with
         | |- context [if ?b then _ else _] => destruct b
         end; simpl; auto.
Qed.

Lemma getSampledType_conns_zero (conns : list MPlug) :
  result h (getSampledType_conns conns) s = 0 <-> staticallyMuted h s conns.
Proof.
  induction conns as [| c conns IH].
  - split; [discriminate |].
    intros (before & c & after & Heq & _). destruct before; discriminate.
  - rewrite getSampledType_conns_cons. unfold staticallyMuted.
    destruct (isAnimCurveType (sourceNodeType h s c)) eqn:Hcurve;
      [| destruct (isMuteType (sourceNodeType h s c)) eqn:Hmute;
         [destruct (mutedSource h s c) eqn:Hmuted |]].
    + (* an animation curve decides: sampled or curve *)
      split.
      * destruct (answer h _ s); discriminate.
      * intros (before & c' & after & Heq & Hpassed & Hmuted).
        destruct before as [| x before]; injection Heq as <- _.
        -- unfold mutedSource in Hmuted.
           destruct (sourceNodeType h s c); discriminate.
        -- apply Forall_inv in Hpassed. unfold passedOver in Hpassed.
           rewrite Hcurve in Hpassed. discriminate.
    + (* a mute node that is on *)
      split; [| reflexivity]. intros _.
      exists [], c, conns. repeat split; [constructor | exact Hmuted].
    + (* a mute node that is off *)
      split; [discriminate |].
      intros (before & c' & after & Heq & Hpassed & Hmuted').
      destruct before as [| x before]; injection Heq as <- _.
      * congruence.
      * apply Forall_inv in Hpassed. unfold passedOver in Hpassed.
        rewrite Hmute in Hpassed. rewrite andb_false_r in Hpassed.
        discriminate.
    + (* any other node is passed over *)
      rewrite IH. split.
      * intros (before & c' & after & -> & Hpassed & Hmuted).
        exists (c :: before), c', after. repeat split; [| exact Hmuted].
        constructor; [| exact Hpassed].
        unfold passedOver. now rewrite Hcurve, Hmute.
      * intros (before & c' & after & Heq & Hpassed & Hmuted).
        destruct before as [| x before]; injection Heq as <- Heq.
        -- unfold mutedSource in Hmuted. rewrite Hmute in Hmuted.
           discriminate.
        -- exists before, c', after. repeat split; [exact Heq | | exact Hmuted].
           now apply Forall_inv_tail in Hpassed.
Qed.

(** What a loop of [getSampledType] returns after its last iteration. *)
Lemma getSampledType_S (fuel : nat) (p : MPlug) (b : bool) :
  result h (getSampledType (S fuel) p b) s
  = if (length (sourcesOf h s p) =? 0)%nat then
      if answer h (PlugIsArray p) s then
        loopReturn
          (fold_until (seq 0 (answer h (PlugNumConnectedElements p) s))
             (fun e _ => positiveReturns
                (result h (getSampledType fuel (connectedElement h s p e) true) s))
             tt)
      else if answer h (PlugIsCompound p) s
              && (0 <? answer h (PlugNumConnectedChildren p) s)%nat && b
      then
        loopReturn
          (fold_until (seq 0 (answer h (PlugNumChildren p) s))
             (fun c _ => positiveReturns
                (result h (getSampledType fuel (childPlug h s p c) true) s))
             tt)
      else Some 0
    else Some (result h (getSampledType_conns (sourcesOf h s p)) s).
Proof.
  unfold result at 1, sourcesOf. cbn [getSampledType]. run_calls.
  destruct (answer h (PlugConnectedTo p true false) s) as [st conns].
  run_calls.
  destruct (length conns =? 0)%nat; run_calls.
  - destruct (answer h (PlugIsArray p) s); run_calls.
    + rewrite run_bind_readOnly.
      2:{ apply readOnly_for_each. intros e st'. read_only;
          [apply getSampledType_readOnly | apply returnIfPositive_readOnly]. }
      rewrite (result_for_each h _ _
                 (fun e _ => positiveReturns
                    (result h (getSampledType fuel (connectedElement h s p e) true) s))).
      * destruct (fold_until _ _ tt); reflexivity.
      * intros e st'. read_only;
          [apply getSampledType_readOnly | apply returnIfPositive_readOnly].
      * intros e st' _. unfold result. run_calls.
        rewrite run_bind_readOnly by apply getSampledType_readOnly.
        apply result_returnIfPositive.
    + destruct (answer h (PlugIsCompound p) s); run_calls; cbn [andb];
        [| reflexivity].
      destruct ((0 <? answer h (PlugNumConnectedChildren p) s)%nat && b);
        run_calls; [| reflexivity].
      rewrite run_bind_readOnly.
      2:{ apply readOnly_for_each. intros e st'. read_only;
          [apply getSampledType_readOnly | apply returnIfPositive_readOnly]. }
      rewrite (result_for_each h _ _
                 (fun c _ => positiveReturns
                    (result h (getSampledType fuel (childPlug h s p c) true) s))).
      * destruct (fold_until _ _ tt); reflexivity.
      * intros e st'. read_only;
          [apply getSampledType_readOnly | apply returnIfPositive_readOnly].
      * intros c st' _. unfold result, childPlug. run_calls.
        destruct (answer h (PlugChild p c) s) as [st'' child]. run_calls.
        rewrite run_bind_readOnly by apply getSampledType_readOnly.
        apply result_returnIfPositive.
  - rewrite run_bind_readOnly by apply getSampledType_conns_readOnly.
    reflexivity.
Qed.

End SampledType.

Section SampledTypeRecursion.
Context {L : PxrLibs} (h : Host) (s : Scene h).

Lemma fold_positive_cases (l : list nat) (g : nat -> option Z) :
  match fold_until l (fun e _ => positiveReturns (g e)) tt with
  | inl _ => forall e, In e l -> exists v, g e = Some v /\ v <= 0
  | inr None => exists e, In e l /\ g e = None
  | inr (Some v) => 0 < v /\ exists e, In e l /\ g e = Some v
  end.
Proof.
  induction l as [| a l IH]; cbn [fold_until]; [intros e [] |].
  unfold positiveReturns at 1.
  destruct (g a) as [v |] eqn:Hga.
  - destruct (Z.ltb_spec 0 v) as [Hpos | Hle].
    + split; [exact Hpos |]. exists a. split; [left; reflexivity | exact Hga].
    + destruct (fold_until l _ tt) as [[] | [v' |]].
      * intros e [<- | Hin]; [exists v; auto | auto].
      * destruct IH as [Hpos (e & Hin & He)]. split; [exact Hpos |].
        exists e. split; [right; exact Hin | exact He].
      * destruct IH as (e & Hin & He). exists e.
        split; [right; exact Hin | exact He].
  - exists a. split; [left; reflexivity | exact Hga].
Qed.

Lemma fold_positive_mono (l : list nat) (g g' : nat -> option Z) (r : Z) :
  (forall e v, In e l -> g e = Some v -> g' e = Some v) ->
  loopReturn (fold_until l (fun e _ => positiveReturns (g e)) tt) = Some r ->
  loopReturn (fold_until l (fun e _ => positiveReturns (g' e)) tt) = Some r.
Proof.
  induction l as [| a l IH]; intros Hg; cbn [fold_until]; [auto |].
  unfold positiveReturns at 1 3.
  destruct (g a) as [v |] eqn:Hga; [| discriminate].
  rewrite (Hg a v (or_introl eq_refl) Hga).
  destruct (0 <? v); [auto |].
  apply IH. intros e v' Hin. apply Hg. right. exact Hin.
Qed.

Lemma getSampledType_O (p : MPlug) (b : bool) :
  result h (getSampledType 0 p b) s = None.
Proof. reflexivity. Qed.

(** Whatever [getSampledType] returns is 0, 1 or 2. *)
Lemma getSampledType_range (fuel : nat) :
  forall p b r,
    result h (getSampledType fuel p b) s = Some r -> In r [0; 1; 2].
Proof.
  induction fuel as [| fuel IH]; intros p b r; [discriminate |].
  rewrite getSampledType_S.
  assert (Hloop : forall (n : nat) (f : nat -> MPlug),
    loopReturn (fold_until (seq 0 n)
      (fun e _ => positiveReturns (result h (getSampledType fuel (f e) true) s))
      tt) = Some r -> In r [0; 1; 2]).
  { intros n f.
    pose proof (fold_positive_cases (seq 0 n)
      (fun e => result h (getSampledType fuel (f e) true) s)) as Hcases.
    cbv beta in Hcases.
    destruct (fold_until _ _ tt) as [[] | [v |]]; cbn [loopReturn].
    - intros [= <-]. left. reflexivity.
    - intros [= <-]. destruct Hcases as [_ (e & _ & He)]. eapply IH, He.
    - discriminate. }
  destruct (length (sourcesOf h s p) =? 0)%nat.
  - destruct (answer h (PlugIsArray p) s); [apply Hloop |].
    destruct (_ && _ && b); [apply Hloop |].
    intros [= <-]. left. reflexivity.
  - intros [= <-]. apply getSampledType_conns_range.
Qed.

(** More fuel does not change what [getSampledType] returns. *)
Lemma getSampledType_fuel_mono (fuel : nat) :
  forall fuel' p b r,
    (fuel <= fuel')%nat ->
    result h (getSampledType fuel p b) s = Some r ->
    result h (getSampledType fuel' p b) s = Some r.
Proof.
  induction fuel as [| fuel IH]; intros fuel' p b r Hle; [discriminate |].
  destruct fuel' as [| fuel']; [lia |].
  rewrite !getSampledType_S.
  destruct (length (sourcesOf h s p) =? 0)%nat; [| auto].
  destruct (answer h (PlugIsArray p) s).
  - apply fold_positive_mono. intros e v _. apply IH. lia.
  - destruct (_ && _ && b); [| auto].
    apply fold_positive_mono. intros e v _. apply IH. lia.
Qed.

Section WellFounded.
Variable rank : MPlug -> nat.
Hypothesis Hrank : plugRankDecreases h s rank.

(** [getSampledType] returns once its fuel exceeds the rank of the plug. *)
Lemma getSampledType_returns (fuel : nat) :
  forall p b, (rank p < fuel)%nat ->
    exists r, result h (getSampledType fuel p b) s = Some r.
Proof.
  induction fuel as [| fuel IH]; intros p b Hfuel; [lia |].
  rewrite getSampledType_S.
  assert (Hloop : forall (n : nat) (f : nat -> MPlug),
    (forall e, (e < n)%nat -> (rank (f e) < rank p)%nat) ->
    exists r, loopReturn (fold_until (seq 0 n)
      (fun e _ => positiveReturns (result h (getSampledType fuel (f e) true) s))
      tt) = Some r).
  { intros n f Hf.
    pose proof (fold_positive_cases (seq 0 n)
      (fun e => result h (getSampledType fuel (f e) true) s)) as Hcases.
    cbv beta in Hcases.
    destruct (fold_until _ _ tt) as [[] | [v |]]; cbn [loopReturn]; eauto.
    destruct Hcases as (e & Hin & He). apply in_seq in Hin.
    destruct (IH (f e) true) as [r Hr]; [specialize (Hf e); lia |].
    congruence. }
  destruct (Hrank p) as [Helem Hchild].
  destruct (length (sourcesOf h s p) =? 0)%nat; [| eauto].
  destruct (answer h (PlugIsArray p) s).
  - apply Hloop. exact Helem.
  - destruct (_ && _ && b); [| eauto]. apply Hloop. exact Hchild.
Qed.

Lemma getSampledType_returnsSampledType (p : MPlug) (b : bool) :
  exists r, returnsSampledType h s rank p b r.
Proof.
  destruct (getSampledType_returns (S (rank p)) p b) as [r Hr]; [lia |].
  exists r. intros fuel Hfuel.
  apply (getSampledType_fuel_mono (S (rank p))); [lia | exact Hr].
Qed.

Lemma returnsSampledType_unique (p : MPlug) (b : bool) (r : Z) (fuel : nat) :
  returnsSampledType h s rank p b r ->
  forall r', result h (getSampledType fuel p b) s = Some r' -> r' = r.
Proof.
  intros Hr r' Hr'.
  pose proof (Hr (S (Nat.max fuel (rank p))) ltac:(lia)) as H1.
  pose proof (getSampledType_fuel_mono fuel (S (Nat.max fuel (rank p))) p b r'
                ltac:(lia) Hr') as H2.
  congruence.
Qed.

End WellFounded.

End SampledTypeRecursion.

Section SampledTypeClaims.
Context {L : PxrLibs} (h : Host) (s : Scene h).
Variable rank : MPlug -> nat.
Hypothesis Hrank : plugRankDecreases h s rank.

Lemma getSampledType_zero_noAnimatingConnection (fuel : nat) (p : MPlug)
    (b : bool) :
  result h (getSampledType fuel p b) s = Some 0 ->
  noAnimatingConnection h s p.
Proof.
  destruct fuel as [| fuel]; [discriminate |].
  rewrite getSampledType_S.
  destruct (length (sourcesOf h s p) =? 0)%nat eqn:Hlen.
  - intros _. left. now apply Nat.eqb_eq, length_zero_iff_nil in Hlen.
  - intros [= Hzero]. right. now apply getSampledType_conns_zero.
Qed.

Lemma subplugs_all_static (fuel : nat) (n : nat) (f : nat -> MPlug) :
  loopReturn (fold_until (seq 0 n)
    (fun e _ => positiveReturns (result h (getSampledType fuel (f e) true) s))
    tt) = Some 0 ->
  forall e, (e < n)%nat ->
    returnsSampledType h s rank (f e) true 0
    /\ noAnimatingConnection h s (f e).
Proof.
  intros Hloop e He.
  enough (Hret : returnsSampledType h s rank (f e) true 0).
  { split; [exact Hret |].
    apply (getSampledType_zero_noAnimatingConnection (S (rank (f e))) (f e) true).
    apply Hret. lia. }
  pose proof (fold_positive_cases (seq 0 n)
    (fun e => result h (getSampledType fuel (f e) true) s)) as Hcases.
  cbv beta in Hcases.
  destruct (fold_until _ _ tt) as [[] | [v |]]; cbn [loopReturn] in Hloop.
  - destruct (Hcases e) as (v & Hv & Hle); [apply in_seq; lia |].
    pose proof (getSampledType_range h s fuel _ _ _ Hv) as Hin.
    assert (v = 0) as -> by (simpl in Hin; lia).
    destruct (getSampledType_returnsSampledType h s rank Hrank (f e) true)
      as [r Hr].
    rewrite (returnsSampledType_unique h s rank (f e) true r fuel Hr 0 Hv).
    exact Hr.
  - injection Hloop as ->. lia.
  - discriminate.
Qed.

(** What [getSampledType] returns with some fuel it returns with any fuel
    above the rank of the plug. *)
Lemma result_returnsSampledType (fuel : nat) (p : MPlug) (b : bool) (r : Z) :
  result h (getSampledType fuel p b) s = Some r ->
  returnsSampledType h s rank p b r.
Proof.
  intros Hrun.
  destruct (getSampledType_returnsSampledType h s rank Hrank p b) as [r' Hr'].
  rewrite (returnsSampledType_unique h s rank p b r' fuel Hr' r Hrun).
  exact Hr'.
Qed.

(** A loop over sub-plugs that returns from inside does so at the first
    sub-plug that is not classified 0. *)
Lemma fold_positive_first (g : nat -> option Z) (r : Z) (n : nat) :
  forall k,
    fold_until (seq k n) (fun e _ => positiveReturns (g e)) tt = inr (Some r) ->
    exists e, (k <= e < k + n)%nat /\ g e = Some r /\ 0 < r /\
      forall e', (k <= e' < e)%nat -> exists v, g e' = Some v /\ v <= 0.
Proof.
  induction n as [| n IH]; intros k; cbn [seq fold_until]; [discriminate |].
  unfold positiveReturns at 1.
  destruct (g k) as [v |] eqn:Hgk; [| discriminate].
  destruct (Z.ltb_spec 0 v) as [Hpos | Hle].
  - intros [= <-]. exists k.
    split; [lia |]. split; [exact Hgk |]. split; [exact Hpos |].
    intros e' He'. lia.
  - intros Hrest. destruct (IH (S k) Hrest) as (e & He & Hge & Hr & Hbefore).
    exists e. split; [lia |]. split; [exact Hge |]. split; [exact Hr |].
    intros e' He'. destruct (Nat.eq_dec e' k) as [-> | Hne].
    + exists v. split; [exact Hgk | exact Hle].
    + apply Hbefore. lia.
Qed.

Lemma subplugs_firstAnimated (fuel : nat) (n : nat) (f : nat -> MPlug)
    (r : Z) :
  r <> 0 ->
  loopReturn (fold_until (seq 0 n)
    (fun e _ => positiveReturns (result h (getSampledType fuel (f e) true) s))
    tt) = Some r ->
  firstAnimated h s rank n f r.
Proof.
  intros Hnz Hloop.
  destruct (fold_until (seq 0 n) _ tt) as [[] | [v |]] eqn:Hfold;
    cbn [loopReturn] in Hloop; [congruence | | discriminate].
  injection Hloop as ->.
  destruct (fold_positive_first
              (fun e => result h (getSampledType fuel (f e) true) s) r n 0 Hfold)
    as (e & He & Hge & _ & Hbefore).
  exists e. split; [lia |]. split.
  - eapply result_returnsSampledType, Hge.
  - intros e' He'. destruct (Hbefore e' ltac:(lia)) as (v & Hv & Hle).
    pose proof (getSampledType_range h s fuel _ _ _ Hv) as Hin.
    assert (v = 0) as -> by (simpl in Hin; lia).
    eapply result_returnsSampledType, Hv.
Qed.

(** C1: on every plug [getSampledType] returns exactly one of 0, 1 and 2,
    and it returns 0 only when it finds no animating connection: on the
    plug itself (it has no source, or the first source that decides is a
    mute node that is on), and, where the plug has no source, on each
    connected element of an array plug and, with [includeConnectedChildren]
    set, on each child of a compound plug that has connected children; each
    of these is itself classified 0.  On a plug that has sources, it
    returns 1 (sampled) exactly when the first source that decides is an
    animation curve whose input plug is connected, or no source decides,
    and 2 (curve) exactly when the first source that decides is an
    animation curve whose input plug is free or a mute node that is off.
    On a plug without sources, a result other than 0 is the classification
    of the first connected element of the array, or of the first child of
    the compound, that is not classified 0. *)
Theorem getSampledType_classifies (p : MPlug) (includeConnectedChildren : bool) :
  exists r,
    returnsSampledType h s rank p includeConnectedChildren r /\
    (forall r', returnsSampledType h s rank p includeConnectedChildren r' ->
                r' = r) /\
    (r = 0 \/ r = 1 \/ r = 2) /\
    (sourcesOf h s p <> [] ->
       (r = 1 <-> sampledConnection h s (sourcesOf h s p)) /\
       (r = 2 <-> curveConnection h s (sourcesOf h s p))) /\
    (sourcesOf h s p = [] -> r <> 0 ->
       (answer h (PlugIsArray p) s = true /\
        firstAnimated h s rank (answer h (PlugNumConnectedElements p) s)
                      (connectedElement h s p) r)
       \/ (answer h (PlugIsArray p) s = false /\
           answer h (PlugIsCompound p) s = true /\
           (0 < answer h (PlugNumConnectedChildren p) s)%nat /\
           includeConnectedChildren = true /\
           firstAnimated h s rank (answer h (PlugNumChildren p) s)
                         (childPlug h s p) r)) /\
    (r = 0 ->
       noAnimatingConnection h s p /\
       (sourcesOf h s p = [] ->
        answer h (PlugIsArray p) s = true ->
        forall e, (e < answer h (PlugNumConnectedElements p) s)%nat ->
          returnsSampledType h s rank (connectedElement h s p e) true 0
          /\ noAnimatingConnection h s (connectedElement h s p e)) /\
       (sourcesOf h s p = [] ->
        answer h (PlugIsArray p) s = false ->
        answer h (PlugIsCompound p) s = true ->
        (0 < answer h (PlugNumConnectedChildren p) s)%nat ->
        includeConnectedChildren = true ->
        forall c, (c < answer h (PlugNumChildren p) s)%nat ->
          returnsSampledType h s rank (childPlug h s p c) true 0
          /\ noAnimatingConnection h s (childPlug h s p c))).
Proof.
  destruct (getSampledType_returnsSampledType h s rank Hrank p
              includeConnectedChildren) as [r Hr].
  exists r. split; [exact Hr |].
  pose proof (Hr (S (rank p)) ltac:(lia)) as Hrun.
  split; [| split; [| split; [| split]]].
  - intros r' Hr'. specialize (Hr' (S (rank p)) ltac:(lia)). congruence.
  - pose proof (getSampledType_range h s _ _ _ _ Hrun) as Hin.
    simpl in Hin. intuition auto.
  - (* a plug with sources: the first source that decides *)
    intros Hsources. rewrite getSampledType_S in Hrun.
    destruct (Nat.eqb_spec (length (sourcesOf h s p)) 0) as [Hlen | _].
    { apply length_zero_iff_nil in Hlen. contradiction. }
    injection Hrun as <-.
    apply getSampledType_conns_sampled_or_curve.
  - (* a plug without sources: the first sub-plug that is not static *)
    intros Hsources Hnz. rewrite getSampledType_S, Hsources in Hrun.
    cbn [length Nat.eqb] in Hrun.
    destruct (answer h (PlugIsArray p) s).
    + left. split; [reflexivity |].
      eapply subplugs_firstAnimated; [exact Hnz | exact Hrun].
    + right. split; [reflexivity |].
      destruct (answer h (PlugIsCompound p) s); cbn [andb] in Hrun;
        [| congruence].
      destruct (Nat.ltb_spec 0 (answer h (PlugNumConnectedChildren p) s))
        as [Hconn | _]; cbn [andb] in Hrun; [| congruence].
      destruct includeConnectedChildren; [| congruence].
      split; [reflexivity |]. split; [exact Hconn |]. split; [reflexivity |].
      eapply subplugs_firstAnimated; [exact Hnz | exact Hrun].
  - intros ->. rewrite getSampledType_S in Hrun.
    destruct (length (sourcesOf h s p) =? 0)%nat eqn:Hlen.
    + apply Nat.eqb_eq, length_zero_iff_nil in Hlen.
      split; [left; exact Hlen |].
      destruct (answer h (PlugIsArray p) s).
      * split; [| discriminate].
        intros _ _. eapply subplugs_all_static, Hrun.
      * split; [discriminate |].
        intros _ _ Hcompound Hconn Hinclude.
        apply Nat.ltb_lt in Hconn.
        rewrite Hcompound, Hconn, Hinclude in Hrun. cbn [andb] in Hrun.
        eapply subplugs_all_static, Hrun.
    + apply Nat.eqb_neq in Hlen.
      assert (Hne : sourcesOf h s p <> []).
      { intros Hnil. rewrite Hnil in Hlen. apply Hlen. reflexivity. }
      split; [| split; intros Hnil; contradiction].
      right. apply getSampledType_conns_zero. congruence.
Qed.

End SampledTypeClaims.

(** ** isAnimated *)

Section IsAnimated.
Context {L : PxrLibs} (h : Host) (s : Scene h).

Lemma hasAnyFn_readOnly (node : MObject) (types : list MFnType) :
  readOnly (hasAnyFn node types).
Proof.
  induction types as [| t types IH]; cbn [hasAnyFn]; [constructor |].
  read_only; exact IH.
Qed.

Lemma isAnimated_walk_readOnly (fuel : nat) :
  forall iter nodes, readOnly (isAnimated_walk fuel iter nodes).
Proof.
  induction fuel as [| fuel IH]; intros iter nodes; cbn [isAnimated_walk];
    [constructor |].
  read_only; try apply hasAnyFn_readOnly; apply IH.
Qed.

Lemma isAnimated_walk_S (fuel : nat) (iter : MItDependencyGraph)
    (nodes : list MObject) :
  result h (isAnimated_walk (S fuel) iter nodes) s
  = if answer h (ItDGIsDone iter) s then Some (inr nodes)
    else if nodeAnimates h s (answer h (ItDGThisNode iter) s) then Some (inl true)
    else result h (isAnimated_walk fuel (answer h (ItDGNext iter) s)
                     (nodes ++ [answer h (ItDGThisNode iter) s])) s.
Proof.
  unfold nodeAnimates. unfold result at 1. cbn [isAnimated_walk]. run_calls.
  destruct (answer h (ItDGIsDone iter) s); run_calls; [reflexivity |].
  rewrite run_bind_readOnly by apply hasAnyFn_readOnly.
  destruct (result h (hasAnyFn _ isAnimated_types) s); run_calls;
    [reflexivity |].
  cbn [orb].
  destruct (answer h (ObjHasFn _ kExpression) s); run_calls; cbn [andb].
  - destruct (MStatus_ok (answer h (FnExpressionAttach _) s)); run_calls;
      cbn [andb]; [| reflexivity].
    destruct (answer h (FnExpressionIsAnimated _) s); reflexivity.
  - reflexivity.
Qed.

Lemma isAnimated_walk_fuel_mono (fuel : nat) :
  forall fuel' iter nodes w,
    (fuel <= fuel')%nat ->
    result h (isAnimated_walk fuel iter nodes) s = Some w ->
    result h (isAnimated_walk fuel' iter nodes) s = Some w.
Proof.
  induction fuel as [| fuel IH]; intros fuel' iter nodes w Hle;
    [discriminate |].
  destruct fuel' as [| fuel']; [lia |].
  rewrite !isAnimated_walk_S.
  destruct (answer h (ItDGIsDone iter) s); [auto |].
  destruct (nodeAnimates h s _); [auto |].
  apply IH. lia.
Qed.

Section Bounded.
Variable remaining : MItDependencyGraph -> nat.
Hypothesis Hadvances : iteratorAdvances h s remaining.

(** The walk returns once its fuel exceeds what remains of the iterator,
    and it pushes at most that many nodes. *)
Lemma isAnimated_walk_returns (fuel : nat) :
  forall iter nodes, (remaining iter < fuel)%nat ->
    exists w, result h (isAnimated_walk fuel iter nodes) s = Some w /\
      forall pushed, w = inr pushed ->
        (length pushed <= length nodes + remaining iter)%nat.
Proof.
  induction fuel as [| fuel IH]; intros iter nodes Hfuel; [lia |].
  rewrite isAnimated_walk_S.
  destruct (answer h (ItDGIsDone iter) s) eqn:Hdone.
  - exists (inr nodes). split; [reflexivity |]. intros pushed [= <-]. lia.
  - destruct (nodeAnimates h s _).
    + exists (inl true). split; [reflexivity |]. discriminate.
    + pose proof (Hadvances iter Hdone) as Hless.
      destruct (IH (answer h (ItDGNext iter) s)
                   (nodes ++ [answer h (ItDGThisNode iter) s]) ltac:(lia))
        as (w & Hw & Hbound).
      exists w. split; [exact Hw |].
      intros pushed Hpushed. specialize (Hbound pushed Hpushed).
      rewrite length_app in Hbound. simpl in Hbound. lia.
Qed.

Lemma isAnimated_returns (object : MObject) (checkParent : bool) :
  exists b, forall fuel,
    (remaining (upstreamIterator h s object) < fuel)%nat ->
    result h (isAnimated fuel object checkParent) s = Some b.
Proof.
  set (iter := upstreamIterator h s object).
  destruct (isAnimated_walk_returns (S (remaining iter)) iter [] ltac:(lia))
    as (w & Hw & _).
  assert (Hany : forall fuel, (remaining iter < fuel)%nat ->
            result h (isAnimated_walk fuel iter []) s = Some w).
  { intros fuel Hfuel.
    apply (isAnimated_walk_fuel_mono (S (remaining iter))); [lia | exact Hw]. }
  assert (Hrun : forall fuel, (remaining iter < fuel)%nat ->
    result h (isAnimated fuel object checkParent) s
    = match w with
      | inl b => Some b
      | inr nodes =>
          match fold_until nodes
                  (fun node _ =>
                     if answer h (AnimUtilIsAnimated node checkParent) s
                     then inr true else inl tt) tt with
          | inr b => Some b
          | inl _ => Some false
          end
      end).
  { intros fuel Hfuel. specialize (Hany fuel Hfuel).
    unfold result at 1, isAnimated. run_calls.
    fold (upstreamIterator h s object). fold iter.
    destruct (answer h (ItDGCreate object kInvalid kUpstream kDepthFirst
                          kNodeLevel) s) as [stat it0] eqn:Hcreate.
    assert (it0 = iter) as ->.
    { unfold iter, upstreamIterator. now rewrite Hcreate. }
    rewrite run_bind_readOnly by (destruct (negb (MStatus_ok stat)); read_only).
    rewrite run_bind_readOnly by apply isAnimated_walk_readOnly.
    rewrite Hany. destruct w as [b | nodes]; run_calls; [reflexivity |].
    rewrite run_bind_readOnly by (apply readOnly_for_each; read_only).
    rewrite (result_for_each h _ _
               (fun node _ =>
                  if answer h (AnimUtilIsAnimated node checkParent) s
                  then inr true else inl tt)).
    - destruct (fold_until nodes _ tt); reflexivity.
    - read_only.
    - intros node st _. unfold result. run_calls.
      destruct (answer h (AnimUtilIsAnimated node checkParent) s);
        reflexivity. }
  destruct w as [b | nodes].
  - exists b. exact Hrun.
  - destruct (fold_until nodes _ tt) as [[] | b].
    + exists false. exact Hrun.
    + exists b. exact Hrun.
Qed.

(** The tests on a node and the second loop visit no node. *)
Lemma nodesVisited_Ask {X R} (q : Query X) (k : X -> Prog R) :
  nodesVisited h (Ask q k) s
  = ((if isVisit (EvAsk q) then 1 else 0)
     + nodesVisited h (k (answer h q s)) s)%nat.
Proof.
  unfold nodesVisited. cbn [events List.filter].
  destruct (isVisit (EvAsk q)); reflexivity.
Qed.

Lemma nodesVisited_Ret {R} (r : R) : nodesVisited h (Ret r) s = 0%nat.
Proof. reflexivity. Qed.

Lemma nodesVisited_Say {R} (msg : MString) (k : Prog R) :
  nodesVisited h (Say msg k) s = nodesVisited h k s.
Proof. reflexivity. Qed.

Lemma nodesVisited_bind {A B} (m : Prog A) (f : A -> Prog B) :
  readOnly m ->
  nodesVisited h (bind m f) s
  = (nodesVisited h m s + nodesVisited h (f (result h m s)) s)%nat.
Proof.
  intros Hm. unfold nodesVisited, result.
  rewrite events_bind, (readOnly_final h m s Hm), List.filter_app, length_app.
  reflexivity.
Qed.

Ltac count_visits :=
  repeat (cbn [bind ask displayError];
          rewrite ?nodesVisited_Ask, ?nodesVisited_Ret, ?nodesVisited_Say;
          cbn [isVisit Nat.add]).

Lemma hasAnyFn_visits (node : MObject) (types : list MFnType) :
  nodesVisited h (hasAnyFn node types) s = 0%nat.
Proof.
  induction types as [| t types IH]; cbn [hasAnyFn]; [reflexivity |].
  count_visits.
  destruct (answer h (ObjHasFn node t) s); [reflexivity | exact IH].
Qed.

Lemma for_each_visits {A S R} (l : list A) (body : A -> S -> Prog (S + R)) :
  (forall a st, readOnly (body a st)) ->
  (forall a st, nodesVisited h (body a st) s = 0%nat) ->
  forall st, nodesVisited h (for_each l body st) s = 0%nat.
Proof.
  intros Hro Hbody. induction l as [| a l IH]; intros st; [reflexivity |].
  cbn [for_each]. rewrite nodesVisited_bind by apply Hro.
  rewrite Hbody. destruct (result h (body a st) s); [apply IH | reflexivity].
Qed.

(** The walk visits no more nodes than the iterator has left, whatever its
    fuel. *)
Lemma isAnimated_walk_visits (fuel : nat) :
  forall iter nodes,
    (nodesVisited h (isAnimated_walk fuel iter nodes) s <= remaining iter)%nat.
Proof.
  induction fuel as [| fuel IH]; intros iter nodes; [apply Nat.le_0_l |].
  cbn [isAnimated_walk]. count_visits.
  destruct (answer h (ItDGIsDone iter) s) eqn:Hdone;
    [count_visits; apply Nat.le_0_l |].
  pose proof (Hadvances iter Hdone) as Hless.
  count_visits.
  rewrite nodesVisited_bind by apply hasAnyFn_readOnly.
  rewrite hasAnyFn_visits. cbn [Nat.add].
  specialize (IH (answer h (ItDGNext iter) s)
                 (nodes ++ [answer h (ItDGThisNode iter) s])).
  destruct (result h (hasAnyFn _ isAnimated_types) s); count_visits; [lia |].
  destruct (answer h (ObjHasFn _ kExpression) s); count_visits.
  - destruct (MStatus_ok (answer h (FnExpressionAttach _) s)); count_visits.
    + destruct (answer h (FnExpressionIsAnimated _) s); count_visits; lia.
    + lia.
  - lia.
Qed.

Lemma isAnimated_visits (fuel : nat) (object : MObject) (checkParent : bool) :
  (nodesVisited h (isAnimated fuel object checkParent) s
   <= remaining (upstreamIterator h s object))%nat.
Proof.
  unfold isAnimated, upstreamIterator. count_visits.
  destruct (answer h (ItDGCreate object kInvalid kUpstream kDepthFirst
                        kNodeLevel) s) as [stat iter]. cbn [snd].
  assert (Hrest :
    (nodesVisited h
       (bind (isAnimated_walk fuel iter [])
          (fun walk : option (bool + list MObject) =>
             match walk with
             | Some (inl b) => Ret (Some b)
             | Some (inr nodesToCheckAnimCurve) =>
                 bind
                   (for_each nodesToCheckAnimCurve
                      (fun node (_ : unit) =>
                         bind (ask (AnimUtilIsAnimated node checkParent))
                           (fun animated : bool =>
                              if animated then Ret (inr true)
                              else Ret (inl tt))) tt)
                   (fun r : unit + bool =>
                      match r with
                      | inl _ => Ret (Some false)
                      | inr b => Ret (Some b)
                      end)
             | None => Ret None
             end)) s <= remaining iter)%nat).
  { rewrite nodesVisited_bind by apply isAnimated_walk_readOnly.
    pose proof (isAnimated_walk_visits fuel iter []) as Hwalk.
    destruct (result h (isAnimated_walk fuel iter []) s) as [[b | nodes] |];
      count_visits; try lia.
    rewrite nodesVisited_bind by (apply readOnly_for_each; read_only).
    rewrite for_each_visits.
    + destruct (result h (for_each nodes _ tt) s); count_visits; lia.
    + read_only.
    + intros node st. count_visits.
      destruct (answer h (AnimUtilIsAnimated node checkParent) s);
        reflexivity. }
  destruct (negb (MStatus_ok stat)); count_visits; exact Hrest.
Qed.

End Bounded.

End IsAnimated.

(** ** Termination of the two traversals *)

Section Termination.
Context {L : PxrLibs} (h : Host) (s : Scene h).

(** C4: on a scene whose plug hierarchy is well-founded the recursion of
    [getSampledType] returns on every plug, and on a scene whose
    dependency-graph iterator is bounded the walk of [isAnimated] returns on
    every object, having visited no more nodes than the iterator had left. *)
Theorem traversals_terminate (rank : MPlug -> nat)
    (remaining : MItDependencyGraph -> nat) :
  plugRankDecreases h s rank ->
  iteratorAdvances h s remaining ->
  (forall p includeConnectedChildren,
     exists r, forall fuel, (rank p < fuel)%nat ->
       result h (getSampledType fuel p includeConnectedChildren) s = Some r) /\
  (forall object checkParent,
     exists b, forall fuel,
       (remaining (upstreamIterator h s object) < fuel)%nat ->
       result h (isAnimated fuel object checkParent) s = Some b) /\
  (forall object checkParent fuel,
     (nodesVisited h (isAnimated fuel object checkParent) s
      <= remaining (upstreamIterator h s object))%nat).
Proof.
  intros Hrank Hadvances. split; [| split].
  - intros p b. apply (getSampledType_returnsSampledType h s rank Hrank).
  - apply (isAnimated_returns h s remaining Hadvances).
  - intros object checkParent fuel.
    apply (isAnimated_visits h s remaining Hadvances).
Qed.

End Termination.

(** ** GetLinearShaderColor *)

Section ShaderColorsReadOnly.
Context {L : PxrLibs}.

Lemma _getAttachedMayaShaderObjects_readOnly node numFaces shaderObjs :
  readOnly (_getAttachedMayaShaderObjects node numFaces shaderObjs).
Proof. unfold _getAttachedMayaShaderObjects. read_only. Qed.

Lemma _GetColorAndTransparencyFromLambert_readOnly shaderObj rgb alpha :
  readOnly (_GetColorAndTransparencyFromLambert shaderObj rgb alpha).
Proof. unfold _GetColorAndTransparencyFromLambert. read_only. Qed.

Lemma getChildValue_readOnly plug j x : readOnly (getChildValue plug j x).
Proof. unfold getChildValue. read_only. Qed.

Lemma _GetColorAndTransparencyFromDepNode_readOnly shaderObj rgb alpha :
  readOnly (_GetColorAndTransparencyFromDepNode shaderObj rgb alpha).
Proof.
  unfold _GetColorAndTransparencyFromDepNode.
  read_only; apply getChildValue_readOnly.
Qed.

Lemma _GetColorAndTransparency_readOnly shaderObj rgb alpha :
  readOnly (_GetColorAndTransparency shaderObj rgb alpha).
Proof.
  unfold _GetColorAndTransparency.
  apply readOnly_bind; [apply _GetColorAndTransparencyFromLambert_readOnly |].
  intros [[[] rgb'] alpha']; [constructor |].
  apply _GetColorAndTransparencyFromDepNode_readOnly.
Qed.

Lemma _getMayaShadersColor_body_readOnly shaderObjs i st :
  readOnly (_getMayaShadersColor_body shaderObjs i st).
Proof.
  unfold _getMayaShadersColor_body. destruct st as [[[rgb al] c] ca].
  destruct (negb _); [| read_only].
  apply readOnly_bind; [apply _GetColorAndTransparency_readOnly |].
  read_only.
Qed.

Lemma _getMayaShadersColor_fill_readOnly shaderObjs out :
  readOnly (_getMayaShadersColor_fill shaderObjs out).
Proof.
  unfold _getMayaShadersColor_fill. apply readOnly_for_do.
  apply _getMayaShadersColor_body_readOnly.
Qed.

Lemma _getMayaShadersColor_readOnly numFaces shaderObjs out :
  readOnly (_getMayaShadersColor numFaces shaderObjs out).
Proof.
  unfold _getMayaShadersColor.
  apply readOnly_bind; [apply _getMayaShadersColor_fill_readOnly |].
  intros [[[rgb al] c] ca]. read_only.
Qed.


End ShaderColorsReadOnly.

Section LoopInvariants.
Context {L : PxrLibs} (h : Host) (s : Scene h).

(** A property of the locals that every turn of a read-only loop keeps
    holds when the loop ends. *)
Lemma for_do_invariant {A S} (P : S -> Prop) (l : list A)
    (body : A -> S -> Prog S) :
  (forall a st, readOnly (body a st)) ->
  (forall a st, In a l -> P st -> P (result h (body a st) s)) ->
  forall st, P st -> P (result h (for_do l body st) s).
Proof.
  intros Hro. induction l as [| a l IH]; intros Hstep st Hst; [exact Hst |].
  cbn [for_do]. rewrite result_bind_readOnly by apply Hro.
  apply IH.
  - intros a' st' Hin. apply Hstep. right. exact Hin.
  - apply Hstep; [left; reflexivity | exact Hst].
Qed.

(** The same for a loop over the indices [k], ..., [k + m - 1], with a
    property that follows the index. *)
Lemma for_do_seq_invariant {S} (P : nat -> S -> Prop) (m : nat)
    (body : nat -> S -> Prog S) :
  (forall i st, readOnly (body i st)) ->
  forall k,
    (forall i st, (k <= i < k + m)%nat -> P i st ->
                  P (Datatypes.S i) (result h (body i st) s)) ->
    forall st, P k st -> P (k + m)%nat (result h (for_do (seq k m) body st) s).
Proof.
  intros Hro. induction m as [| m IH]; intros k Hstep st Hst.
  - rewrite Nat.add_0_r. exact Hst.
  - cbn [seq for_do]. rewrite result_bind_readOnly by apply Hro.
    replace (k + Datatypes.S m)%nat with (Datatypes.S k + m)%nat by lia.
    apply IH.
    + intros i st' Hi. apply Hstep. lia.
    + apply Hstep; [lia | exact Hst].
Qed.

End LoopInvariants.

Section NoShader.
Context {L : PxrLibs} (h : Host) (s : Scene h).

Lemma _getAttachedMayaShaderObjects_no_shader node numFaces shaderObjs :
  noShaderConnected h s node ->
  fst (result h (_getAttachedMayaShaderObjects node numFaces shaderObjs) s)
  = false.
Proof.
  intros Hnone. unfold result at 1, _getAttachedMayaShaderObjects. run_calls.
  unfold noShaderConnected, shadingGroups in Hnone.
  destruct (answer h (FnDagNodeGetConnectedSetsAndMembers node 0 true) s)
    as [sgObjs compObjs]. cbn [fst] in Hnone.
  match goal with
  | |- fst (fst (run h (for_do ?l ?body ?st0) s)) = false =>
      apply (for_do_invariant h s (fun x => fst x = false) l body)
  end; [read_only | | reflexivity].
  intros i [hasShader objs] Hin Hfalse. cbn [fst] in Hfalse. subst hasShader.
  apply in_seq in Hin.
  assert (Hsg : surfaceShaderSources h s (nth i sgObjs MObject_null) = []).
  { apply Hnone, nth_In. lia. }
  unfold surfaceShaderSources in Hsg.
  unfold result. run_calls.
  destruct (answer h (FnFindPlug (nth i sgObjs MObject_null) "surfaceShader"
                        false) s) as [st plg]. cbn [snd] in Hsg. run_calls.
  destruct (answer h (PlugConnectedTo plg true false) s) as [st' plgCons].
  cbn [snd] in Hsg. subst plgCons. run_calls.
  change (0 <? length (@nil MPlug))%nat with false. run_calls.
  destruct ((1 <? length sgObjs)%nat && (0 <? numFaces)); reflexivity.
Qed.

End NoShader.

Section ShaderRetrieval.
Context {L : PxrLibs} (h : Host) (s : Scene h).

Lemma _GetColorAndTransparencyFromLambert_got shaderObj rgb alpha :
  fst (fst (result h (_GetColorAndTransparencyFromLambert shaderObj rgb alpha) s))
  = MStatus_ok (answer h (FnLambertShaderAttach shaderObj) s).
Proof.
  unfold result, _GetColorAndTransparencyFromLambert. run_calls.
  destruct (MStatus_ok (answer h (FnLambertShaderAttach shaderObj) s));
    [| reflexivity].
  destruct rgb, alpha; run_calls; reflexivity.
Qed.

Lemma _GetColorAndTransparencyFromDepNode_got shaderObj rgb alpha :
  fst (fst (result h (_GetColorAndTransparencyFromDepNode shaderObj rgb alpha) s))
  = MStatus_ok (fst (answer h (FnFindPlug shaderObj "color" false) s))
    && MStatus_ok (fst (answer h (FnFindPlug shaderObj "transparency" false) s)).
Proof.
  unfold result, _GetColorAndTransparencyFromDepNode. run_calls.
  destruct (answer h (FnFindPlug shaderObj "color" false) s) as [st1 colorPlug].
  cbn [fst]. destruct (MStatus_ok st1); cbn [negb andb]; [| reflexivity].
  run_calls.
  destruct (answer h (FnFindPlug shaderObj "transparency" false) s)
    as [st2 transparencyPlug].
  cbn [fst]. destruct (MStatus_ok st2); cbn [negb]; [| reflexivity].
  destruct rgb, alpha; run_calls; rewrite ?run_bind; reflexivity.
Qed.

Lemma _GetColorAndTransparency_got shaderObj rgb alpha :
  fst (fst (result h (_GetColorAndTransparency shaderObj rgb alpha) s))
  = shaderReadable h s shaderObj.
Proof.
  unfold shaderReadable.
  rewrite <- (_GetColorAndTransparencyFromLambert_got shaderObj rgb alpha).
  unfold _GetColorAndTransparency.
  rewrite result_bind_readOnly
    by apply _GetColorAndTransparencyFromLambert_readOnly.
  destruct (result h (_GetColorAndTransparencyFromLambert shaderObj rgb alpha) s)
    as [[[] rgb'] alpha']; cbn [fst orb]; [reflexivity |].
  apply _GetColorAndTransparencyFromDepNode_got.
Qed.

Lemma rgbStillConstant_and (data : list GfVec3f) (i : nat) (c : bool) :
  rgbStillConstant data i c
  = c && rgbClose (nth 0 data GfVec3f_default) (nth i data GfVec3f_default).
Proof.
  unfold rgbStillConstant, rgbClose, floatClose. cbn [seq fold_left].
  repeat match goal with
         | |- context [GfIsClose ?a ?b ?e] => destruct (GfIsClose a b e)
         end; destruct c; reflexivity.
Qed.

Lemma alphaStillConstant_and (data : list float) (i : nat) (c : bool) :
  alphaStillConstant data i c
  = c && floatClose (nth 0 data lit_0f) (nth i data lit_0f).
Proof.
  unfold alphaStillConstant, floatClose.
  destruct (GfIsClose _ _ _), c; reflexivity.
Qed.

Lemma nth_insert_ne {A} (d v : A) (l : list A) (i k : nat) :
  k <> i -> nth k (<[i := v]> l) d = nth k l d.
Proof.
  intros Hne. rewrite !nth_lookup, list_lookup_insert_ne by congruence.
  reflexivity.
Qed.

Lemma setComponent_length data i j x :
  length (setComponent data i j x) = length data.
Proof. unfold setComponent. apply length_insert. Qed.

Lemma setComponent_other data i j x k :
  k <> i ->
  nth k (setComponent data i j x) GfVec3f_default = nth k data GfVec3f_default.
Proof. intros Hne. unfold setComponent. now apply nth_insert_ne. Qed.

Lemma storeElement_some {A} (l : list A) (i : nat) (x : option A) :
  exists l', storeElement (Some l) i x = Some l' /\ length l' = length l /\
    forall d k, k <> i -> nth k l' d = nth k l d.
Proof.
  destruct x as [v |]; cbn [storeElement].
  - exists (<[i := v]> l). split; [reflexivity |].
    split; [apply length_insert |]. intros d k Hne. now apply nth_insert_ne.
  - exists l. auto.
Qed.

End ShaderRetrieval.

Section ShaderFill.
Context {L : PxrLibs} (h : Host) (s : Scene h).

Lemma channelStep_no_retrieval {A} (close : A -> A -> bool) (d : A) (i : nat)
    (data data' : option (list A)) (c : bool) :
  match data with
  | None => data' = None
  | Some arr => exists arr', data' = Some arr' /\ length arr' = length arr /\
                  forall k, k <> i -> nth k arr' d = nth k arr d
  end ->
  channelStep close d false i data c data' c.
Proof.
  unfold channelStep. destruct data as [arr |]; [| auto].
  intros (arr' & -> & Hlen & Hother). exists arr'.
  repeat split; auto. cbn [implb]. now rewrite andb_true_r.
Qed.

Lemma _getMayaShadersColor_body_step (shaderObjs : list MObject) (i : nat)
    (rgb : option (list GfVec3f)) (al : option (list float)) (c ca : bool) :
  let '(rgb', al', c', ca') :=
    result h (_getMayaShadersColor_body shaderObjs i (rgb, al, c, ca)) s in
  channelStep rgbClose GfVec3f_default (retrievedAt h s shaderObjs i) i
              rgb c rgb' c'
  /\ channelStep floatClose lit_0f (retrievedAt h s shaderObjs i) i
                 al ca al' ca'.
Proof.
  unfold _getMayaShadersColor_body, retrievedAt.
  set (one := double_to_float lit_1_0).
  set (shaderObj := nth i shaderObjs MObject_null).
  set (rgb1 := match rgb with
               | Some d => Some (setComponent (setComponent (setComponent d i 0 one) i 1 one) i 2 one)
               | None => None
               end).
  set (al1 := match al with Some d => Some (<[i := one]> d) | None => None end).
  assert (Hrgb1 : match rgb with
                  | None => rgb1 = None
                  | Some arr => exists arr', rgb1 = Some arr' /\
                      length arr' = length arr /\
                      forall k, k <> i ->
                        nth k arr' GfVec3f_default = nth k arr GfVec3f_default
                  end).
  { subst rgb1. destruct rgb as [arr |]; [| reflexivity].
    eexists. split; [reflexivity |]. split.
    - now rewrite !setComponent_length.
    - intros k Hk. now rewrite !setComponent_other. }
  assert (Hal1 : match al with
                 | None => al1 = None
                 | Some arr => exists arr', al1 = Some arr' /\
                     length arr' = length arr /\
                     forall k, k <> i -> nth k arr' lit_0f = nth k arr lit_0f
                 end).
  { subst al1. destruct al as [arr |]; [| reflexivity].
    eexists. split; [reflexivity |]. split.
    - apply length_insert.
    - intros k Hk. now apply nth_insert_ne. }
  clearbody rgb1 al1.
  destruct (MObject_isNull shaderObj) eqn:Hnull; cbn [negb andb].
  - (* a null shader object: nothing is retrieved *)
    unfold result. rewrite run_bind_readOnly by read_only. cbn [run fst].
    split; now apply channelStep_no_retrieval.
  - unfold result.
    rewrite run_bind_readOnly by apply _GetColorAndTransparency_readOnly.
    pose proof (_GetColorAndTransparency_got h s shaderObj
                  (elementPtr GfVec3f_default rgb1 i)
                  (elementPtr lit_0f al1 i)) as Hgot.
    destruct (result h (_GetColorAndTransparency shaderObj _ _) s)
      as [[got rgbv] alv].
    cbn [fst] in Hgot. subst got.
    assert (Hrgb2 : match rgb with
                    | None => storeElement rgb1 i rgbv = None
                    | Some arr => exists arr', storeElement rgb1 i rgbv = Some arr' /\
                        length arr' = length arr /\
                        forall k, k <> i ->
                          nth k arr' GfVec3f_default = nth k arr GfVec3f_default
                    end).
    { destruct rgb as [arr |].
      - destruct Hrgb1 as (arr1 & -> & Hlen1 & Hoth1).
        destruct (storeElement_some arr1 i rgbv) as (arr2 & -> & Hlen2 & Hoth2).
        exists arr2. split; [reflexivity |]. split; [congruence |].
        intros k Hk. rewrite Hoth2, Hoth1 by exact Hk. reflexivity.
      - rewrite Hrgb1. reflexivity. }
    assert (Hal2 : match al with
                   | None => storeElement al1 i alv = None
                   | Some arr => exists arr', storeElement al1 i alv = Some arr' /\
                       length arr' = length arr /\
                       forall k, k <> i -> nth k arr' lit_0f = nth k arr lit_0f
                   end).
    { destruct al as [arr |].
      - destruct Hal1 as (arr1 & -> & Hlen1 & Hoth1).
        destruct (storeElement_some arr1 i alv) as (arr2 & -> & Hlen2 & Hoth2).
        exists arr2. split; [reflexivity |]. split; [congruence |].
        intros k Hk. rewrite Hoth2, Hoth1 by exact Hk. reflexivity.
      - rewrite Hal1. reflexivity. }
    destruct (shaderReadable h s shaderObj).
    + (* the values were retrieved: each flag is updated *)
      cbn [run fst]. unfold channelStep. split.
      * destruct rgb as [arr |].
        -- destruct Hrgb2 as (arr2 & -> & Hlen & Hoth). exists arr2.
           repeat split; auto. apply rgbStillConstant_and.
        -- rewrite Hrgb2. auto.
      * destruct al as [arr |].
        -- destruct Hal2 as (arr2 & -> & Hlen & Hoth). exists arr2.
           repeat split; auto. apply alphaStillConstant_and.
        -- rewrite Hal2. auto.
    + rewrite run_bind_readOnly by read_only. cbn [run fst].
      split; now apply channelStep_no_retrieval.
Qed.

Lemma channelInvariant_step {A} (close : A -> A -> bool) (d : A)
    (shaderObjs : list MObject) (i : nat)
    (data data' : option (list A)) (c c' : bool) :
  channelInvariant h s close d shaderObjs i data c ->
  channelStep close d (retrievedAt h s shaderObjs i) i data c data' c' ->
  channelInvariant h s close d shaderObjs (S i) data' c'.
Proof.
  unfold channelInvariant, channelStep.
  destruct data as [arr |].
  - intros [Hlen Hc] (arr' & -> & Hlen' & Hother & ->).
    split; [congruence |].
    rewrite andb_true_iff, Hc. split.
    + intros [Hbefore Hnow] k Hk Hret.
      destruct (Nat.eq_dec k i) as [-> | Hne].
      * rewrite Hret in Hnow. exact Hnow.
      * rewrite (Hother k Hne), (Hother 0%nat) by lia. apply Hbefore; [lia | exact Hret].
    + intros Hall. split.
      * intros k Hk Hret.
        rewrite <- (Hother k), <- (Hother 0%nat) by lia. apply Hall; [lia | exact Hret].
      * destruct (retrievedAt h s shaderObjs i) eqn:Hret; [| reflexivity].
        cbn [implb]. apply Hall; [lia | exact Hret].
  - intros _ [-> _]. exact I.
Qed.

(** The arrays and flags that the loop leaves. *)
Lemma _getMayaShadersColor_fill_spec (shaderObjs : list MObject)
    (out : ShaderColors) :
  let '(rgb, al, c, ca) :=
    result h (_getMayaShadersColor_fill shaderObjs out) s in
  channelInvariant h s rgbClose GfVec3f_default shaderObjs (length shaderObjs)
                   rgb c
  /\ channelInvariant h s floatClose lit_0f shaderObjs (length shaderObjs)
                      al ca.
Proof.
  unfold _getMayaShadersColor_fill.
  pose proof (for_do_seq_invariant h s
    (fun i (st : option (list GfVec3f) * option (list float) * bool * bool) =>
       let '(rgb, al, c, ca) := st in
       channelInvariant h s rgbClose GfVec3f_default shaderObjs i rgb c
       /\ channelInvariant h s floatClose lit_0f shaderObjs i al ca)
    (length shaderObjs) (_getMayaShadersColor_body shaderObjs)
    (_getMayaShadersColor_body_readOnly shaderObjs) 0%nat) as Hloop.
  cbn [Nat.add] in Hloop. apply Hloop; clear Hloop.
  - intros i [[[rgb al] c] ca] Hi [Hrgb Hal].
    pose proof (_getMayaShadersColor_body_step shaderObjs i rgb al c ca) as Hstep.
    destruct (result h (_getMayaShadersColor_body shaderObjs i (rgb, al, c, ca)) s)
      as [[[rgb' al'] c'] ca'].
    destruct Hstep as [Hs1 Hs2].
    split; eapply channelInvariant_step; eauto.
  - unfold channelInvariant. split.
    + destruct (RGBData out) as [d |]; cbn [option_map]; [| exact I].
      split; [apply length_resize |]. split; [intros _ k Hk; lia | reflexivity].
    + destruct (AlphaData out) as [d |]; cbn [option_map]; [| exact I].
      split; [apply length_resize |]. split; [intros _ k Hk; lia | reflexivity].
Qed.

End ShaderFill.

Section ShaderColorClaim.
Context {L : PxrLibs} (h : Host) (s : Scene h).

Lemma resize_one {A} (d : A) (l : list A) : resize 1 d l = [nth 0 l d].
Proof. destruct l as [| a [| b l]]; reflexivity. Qed.

(** The outputs of [_getMayaShadersColor] from the arrays and flags of its
    loop. *)
Lemma _getMayaShadersColor_result (numFaces : Z) (shaderObjs : list MObject)
    (out : ShaderColors) :
  let '(rgb, al, c, ca) :=
    result h (_getMayaShadersColor_fill shaderObjs out) s in
  let out' := result h (_getMayaShadersColor numFaces shaderObjs out) s in
  (forall data, rgb = Some data ->
     (c = true ->
      RGBData out' = Some [nth 0 data GfVec3f_default]
      /\ RGBInterp out' = UsdGeomTokens_constant) /\
     (c = false -> N.of_nat (length data) = int_to_size_t numFaces ->
      RGBData out' = Some data /\ RGBInterp out' = UsdGeomTokens_uniform))
  /\
  (forall data, al = Some data ->
     (ca = true ->
      AlphaData out' = Some [nth 0 data lit_0f]
      /\ AlphaInterp out' = UsdGeomTokens_constant) /\
     (ca = false -> N.of_nat (length data) = int_to_size_t numFaces ->
      AlphaData out' = Some data /\ AlphaInterp out' = UsdGeomTokens_uniform)).
Proof.
  unfold _getMayaShadersColor.
  rewrite result_bind_readOnly by apply _getMayaShadersColor_fill_readOnly.
  destruct (result h (_getMayaShadersColor_fill shaderObjs out) s)
    as [[[rgb al] c] ca].
  cbv zeta. split.
  - intros data ->. split.
    + intros ->. destruct al as [adata |]; [destruct ca |];
        try destruct (N.of_nat (length adata) =? int_to_size_t numFaces)%N;
        cbn; rewrite resize_one; auto.
    + intros -> Hlen. apply N.eqb_eq in Hlen. rewrite Hlen.
      destruct al as [adata |]; [destruct ca |];
        try destruct (N.of_nat (length adata) =? int_to_size_t numFaces)%N;
        cbn; auto.
  - intros data ->. split.
    + intros ->. destruct rgb as [rdata |]; [destruct c |];
        try destruct (N.of_nat (length rdata) =? int_to_size_t numFaces)%N;
        cbn; rewrite resize_one; auto.
    + intros -> Hlen. apply N.eqb_eq in Hlen. rewrite Hlen.
      destruct rgb as [rdata |]; [destruct c |];
        try destruct (N.of_nat (length rdata) =? int_to_size_t numFaces)%N;
        cbn; auto.
Qed.

(** C7: [GetLinearShaderColor] returns false, and leaves its outputs as
    they were, when no shader is connected to the node.  When it returns
    true, take the RGB array as the loop over the shaders filled it: if all
    its retrieved entries agree within 1e-9 with its first entry, the RGB
    output is resized to that one element and its interpolation is
    constant; otherwise, when the length of the array equals [numFaces],
    its interpolation is uniform and the array is left whole.  The same
    holds of the alpha outputs. *)
Theorem GetLinearShaderColor_interpolation (node : MObject) (numFaces : Z)
    (out : ShaderColors) :
  (noShaderConnected h s node ->
   result h (GetLinearShaderColor node numFaces out) s = (false, out))
  /\
  (forall out',
     result h (GetLinearShaderColor node numFaces out) s = (true, out') ->
     let shaderObjs := attachedShaders h s node numFaces in
     (forall data, filledRGB h s shaderObjs out = Some data ->
        length data = length shaderObjs /\
        (rgbAllAgree h s shaderObjs data ->
         RGBData out' = Some [nth 0 data GfVec3f_default]
         /\ RGBInterp out' = UsdGeomTokens_constant) /\
        (~ rgbAllAgree h s shaderObjs data ->
         N.of_nat (length data) = int_to_size_t numFaces ->
         RGBData out' = Some data /\ RGBInterp out' = UsdGeomTokens_uniform))
     /\
     (forall data, filledAlpha h s shaderObjs out = Some data ->
        length data = length shaderObjs /\
        (alphaAllAgree h s shaderObjs data ->
         AlphaData out' = Some [nth 0 data lit_0f]
         /\ AlphaInterp out' = UsdGeomTokens_constant) /\
        (~ alphaAllAgree h s shaderObjs data ->
         N.of_nat (length data) = int_to_size_t numFaces ->
         AlphaData out' = Some data
         /\ AlphaInterp out' = UsdGeomTokens_uniform))).
Proof.
  split.
  - intros Hnone.
    pose proof (_getAttachedMayaShaderObjects_no_shader h s node numFaces []
                  Hnone) as Hfalse.
    unfold GetLinearShaderColor.
    rewrite result_bind_readOnly
      by apply _getAttachedMayaShaderObjects_readOnly.
    destruct (result h (_getAttachedMayaShaderObjects node numFaces []) s)
      as [hasShader objs].
    cbn [fst] in Hfalse. subst hasShader. reflexivity.
  - intros out' Hrun. unfold attachedShaders, filledRGB, filledAlpha.
    unfold GetLinearShaderColor in Hrun.
    rewrite result_bind_readOnly in Hrun
      by apply _getAttachedMayaShaderObjects_readOnly.
    destruct (result h (_getAttachedMayaShaderObjects node numFaces []) s)
      as [hasShader shaderObjs].
    destruct hasShader; [| discriminate].
    rewrite result_bind_readOnly in Hrun by apply _getMayaShadersColor_readOnly.
    injection Hrun as <-. cbn [snd]. cbv zeta.
    pose proof (_getMayaShadersColor_fill_spec h s shaderObjs out) as Hfill.
    pose proof (_getMayaShadersColor_result numFaces shaderObjs out) as Hres.
    destruct (result h (_getMayaShadersColor_fill shaderObjs out) s)
      as [[[rgb al] c] ca].
    cbn [fst snd]. destruct Hfill as [Hrgb Hal]. destruct Hres as [Hr Ha].
    split.
    + intros data ->. destruct Hrgb as [Hlen Hc].
      destruct (Hr data eq_refl) as [Hconst Hunif].
      split; [exact Hlen |]. split.
      * intros Hagree. apply Hconst, (proj2 Hc). exact Hagree.
      * intros Hdiffer. apply Hunif.
        destruct c; [| reflexivity]. exfalso.
        apply Hdiffer. intros k Hk Hret. exact (proj1 Hc eq_refl k Hk Hret).
    + intros data ->. destruct Hal as [Hlen Hc].
      destruct (Ha data eq_refl) as [Hconst Hunif].
      split; [exact Hlen |]. split.
      * intros Hagree. apply Hconst, (proj2 Hc). exact Hagree.
      * intros Hdiffer. apply Hunif.
        destruct ca; [| reflexivity]. exfalso.
        apply Hdiffer. intros k Hk Hret. exact (proj1 Hc eq_refl k Hk Hret).
Qed.

End ShaderColorClaim.

(** ** Which functions modify the scene *)

Section Commands.
Context {L : PxrLibs}.




(** The commands a program performs on a scene satisfy what all the
    commands it can reach satisfy. *)
Lemma onlyCommands_events (P : Command -> Prop) (h : Host) {R} (p : Prog R) :
  onlyCommands P p ->
  forall s, Forall (fun e => match e with EvDo c => P c | _ => True end)
                   (events h p s).
Proof.
  induction 1; intros s; simpl; try (constructor; auto).
  destruct (perform h c s) as [st s']. auto.
Qed.





End Commands.

(** ** setPlugValue *)

Section SetPlugValue.
Context {L : PxrLibs} (h : Host).


(** No value, a value of a type the function does not handle, or a vector
    for a plug that is not compound: the function returns false and leaves
    the scene as it was. *)
Lemma setPlugValue_nothing_to_write (usdAttr : UsdAttribute)
    (time : UsdTimeCode) (attrPlug : MPlug) (s : Scene h) :
  (fst (answer h (UsdAttrGet usdAttr time) s) = false
   \/ match snd (answer h (UsdAttrGet usdAttr time) s) with
      | VtEmpty | VtOther _ => True
      | VtVec3f _ => answer h (PlugIsCompound attrPlug) s = false
      | _ => False
      end) ->
  run h (setPlugValue usdAttr time attrPlug) s = (false, s).
Proof.
  unfold setPlugValue. run_calls.
  destruct (answer h (UsdAttrGet usdAttr time) s) as [got val]. cbn [fst snd].
  intros [-> | Hval].
  - reflexivity.
  - destruct got; [| reflexivity].
    destruct val; try contradiction; run_calls; try reflexivity.
    rewrite Hval. reflexivity.
Qed.

(** The first component written for a vector is the first component of the
    value, converted from linear to display when the role of the attribute
    is Color. *)
Lemma setPlugValue_vector_first_write (usdAttr : UsdAttribute)
    (time : UsdTimeCode) (attrPlug : MPlug) (v : GfVec3f) (child : MPlug)
    (s : Scene h) :
  answer h (UsdAttrGet usdAttr time) s = (true, VtVec3f v) ->
  answer h (PlugIsCompound attrPlug) s = true ->
  answer h (PlugChild attrPlug 0) s = (kSuccess, child) ->
  List.hd_error (commands h (setPlugValue usdAttr time attrPlug) s)
  = Some (EvDo (PlugSetFloat child
       (GfVec3f_get
          (if String.eqb (answer h (UsdAttrGetRoleName usdAttr) s)
                         SdfValueRoleNames_Color
           then GfConvertLinearToDisplay v else v) 0))).
Proof.
  intros Hget Hcompound Hchild. unfold commands, setPlugValue, _GetVec.
  run_calls. rewrite Hget. run_calls. rewrite Hcompound. run_calls.
  destruct (String.eqb _ SdfValueRoleNames_Color);
    cbn [seq for_each]; run_calls; rewrite Hchild;
    unfold CHECK_MSTATUS_AND_RETURN; cbn [MStatus_ok]; run_calls;
    reflexivity.
Qed.

(** C3, where the code departs from it: when the value read is a token and
    the attribute of the plug is not an enum attribute, [setPlugValue]
    returns true although it writes nothing: the status it tests at the end
    is the one [attrPlug.attribute] returned. *)
Theorem setPlugValue_token_without_enum (usdAttr : UsdAttribute)
    (time : UsdTimeCode) (attrPlug : MPlug) (token : TfToken)
    (attrObj : MObject) (s : Scene h) :
  answer h (UsdAttrGet usdAttr time) s = (true, VtToken token) ->
  answer h (PlugAttribute attrPlug) s = (kSuccess, attrObj) ->
  answer h (ObjHasFn attrObj kEnumAttribute) s = false ->
  run h (setPlugValue usdAttr time attrPlug) s = (true, s)
  /\ commands h (setPlugValue usdAttr time attrPlug) s = [].
Proof.
  intros Hget Hattr Henum. unfold commands, setPlugValue. run_calls.
  rewrite Hget. run_calls. rewrite Hattr.
  unfold CHECK_MSTATUS_AND_RETURN. cbn [MStatus_ok]. run_calls.
  rewrite Henum. run_calls. split; reflexivity.
Qed.

End SetPlugValue.

(** * The properties on the scene of the cube *)

(** ** The table host is well-founded *)

Lemma TableHost_subPlug_rank (p : MPlug) (table : list nat) (i : nat) :
  (i < length table)%nat ->
  (TableHost.rank (snd (TableHost.subPlug p table i)) < TableHost.rank p)%nat
  \/ p = MPlug_null.
Proof.
  intros Hi. destruct p as [| id]; [right; reflexivity | left].
  unfold TableHost.subPlug.
  destruct (nth_error table i) as [q |]; [| simpl; lia].
  destruct (Nat.ltb_spec q id); simpl; lia.
Qed.

Lemma TableHost_plugRankDecreases (s : TableHost.Scene) :
  plugRankDecreases TableHost.host s TableHost.rank.
Proof.
  intros p. split.
  - intros e He. unfold connectedElement. simpl in *.
    destruct (TableHost_subPlug_rank p (TableHost.plugElements (TableHost.plugAt s p)) e He)
      as [Hlt | ->]; [exact Hlt | simpl in He; lia].
  - intros c Hc. unfold childPlug. simpl in *.
    destruct (TableHost_subPlug_rank p (TableHost.plugChildren (TableHost.plugAt s p)) c Hc)
      as [Hlt | ->]; [exact Hlt | simpl in Hc; lia].
Qed.

Lemma TableHost_iteratorAdvances (s : TableHost.Scene) :
  iteratorAdvances TableHost.host s (TableHost.remaining s).
Proof.
  intros [root position]. simpl. intros Hdone.
  apply Nat.leb_gt in Hdone. lia.
Qed.

(** ** getSampledType on the cube *)

(** C1 on the compound plug of translateY and translateZ: the first is
    driven through a mute node that is on, the second has no source, and
    the plug is classified 0.  TranslateX is driven by an animation curve
    whose input is free and is classified 2; the surface shader plug of the
    red group is driven by a shader, which decides nothing, and is
    classified 1; the compound plug of the three translations is
    classified 2 with its first child. *)
Lemma getSampledType_classifies_witness :
  plugRankDecreases TableHost.host TableHost.cube TableHost.rank
  /\ returnsSampledType TableHost.host TableHost.cube TableHost.rank (MPlug_at 5) true 0
  /\ noAnimatingConnection TableHost.host TableHost.cube (MPlug_at 5)
  /\ returnsSampledType TableHost.host TableHost.cube TableHost.rank (MPlug_at 1) true 0
  /\ returnsSampledType TableHost.host TableHost.cube TableHost.rank (MPlug_at 2) true 0
  /\ returnsSampledType TableHost.host TableHost.cube TableHost.rank (MPlug_at 0) false 2
  /\ curveConnection TableHost.host TableHost.cube
       (sourcesOf TableHost.host TableHost.cube (MPlug_at 0))
  /\ returnsSampledType TableHost.host TableHost.cube TableHost.rank (MPlug_at 10) false 1
  /\ sampledConnection TableHost.host TableHost.cube
       (sourcesOf TableHost.host TableHost.cube (MPlug_at 10))
  /\ returnsSampledType TableHost.host TableHost.cube TableHost.rank (MPlug_at 6) true 2
  /\ firstAnimated TableHost.host TableHost.cube TableHost.rank 3
       (childPlug TableHost.host TableHost.cube (MPlug_at 6)) 2.
Proof.
  pose proof (TableHost_plugRankDecreases TableHost.cube) as Hrank.
  split; [exact Hrank |].
  destruct (getSampledType_classifies TableHost.host TableHost.cube TableHost.rank Hrank
              (MPlug_at 5) true) as (r & Hr & _ & _ & _ & _ & Hzero).
  assert (r = 0) as ->.
  { specialize (Hr 7%nat ltac:(simpl; lia)). vm_compute in Hr. congruence. }
  destruct (Hzero eq_refl) as (Hnone & _ & Hchildren).
  split; [exact Hr |]. split; [exact Hnone |].
  split.
  { apply (Hchildren eq_refl eq_refl eq_refl ltac:(vm_compute; lia) eq_refl 0%nat).
    vm_compute. lia. }
  split.
  { apply (Hchildren eq_refl eq_refl eq_refl ltac:(vm_compute; lia) eq_refl 1%nat).
    vm_compute. lia. }
  destruct (getSampledType_classifies TableHost.host TableHost.cube TableHost.rank Hrank
              (MPlug_at 0) false) as (r0 & Hr0 & _ & _ & Hconn0 & _ & _).
  assert (r0 = 2) as ->.
  { specialize (Hr0 2%nat ltac:(simpl; lia)). vm_compute in Hr0. congruence. }
  destruct (Hconn0 ltac:(discriminate)) as [_ Hcurve].
  split; [exact Hr0 |]. split; [apply Hcurve; reflexivity |].
  destruct (getSampledType_classifies TableHost.host TableHost.cube TableHost.rank Hrank
              (MPlug_at 10) false) as (r1 & Hr1 & _ & _ & Hconn1 & _ & _).
  assert (r1 = 1) as ->.
  { specialize (Hr1 12%nat ltac:(simpl; lia)). vm_compute in Hr1. congruence. }
  destruct (Hconn1 ltac:(discriminate)) as [Hsampled _].
  split; [exact Hr1 |]. split; [apply Hsampled; reflexivity |].
  destruct (getSampledType_classifies TableHost.host TableHost.cube TableHost.rank Hrank
              (MPlug_at 6) true) as (r2 & Hr2 & _ & _ & _ & Hsub & _).
  assert (r2 = 2) as ->.
  { specialize (Hr2 8%nat ltac:(simpl; lia)). vm_compute in Hr2. congruence. }
  split; [exact Hr2 |].
  destruct (Hsub eq_refl ltac:(discriminate)) as [[Harray _] | (_ & _ & _ & _ & Hfirst)];
    [discriminate Harray | exact Hfirst].
Defined.

(** C4 on the cube. *)
Lemma traversals_terminate_witness :
  plugRankDecreases TableHost.host TableHost.cube TableHost.rank
  /\ iteratorAdvances TableHost.host TableHost.cube (TableHost.remaining TableHost.cube)
  /\ (exists r, forall fuel, (TableHost.rank (MPlug_at 6) < fuel)%nat ->
        result TableHost.host (getSampledType fuel (MPlug_at 6) true) TableHost.cube
        = Some r)
  /\ (exists b, forall fuel,
        (TableHost.remaining TableHost.cube
           (upstreamIterator TableHost.host TableHost.cube (MObject_at 0)) < fuel)%nat ->
        result TableHost.host (isAnimated fuel (MObject_at 0) true) TableHost.cube
        = Some b)
  /\ (nodesVisited TableHost.host (isAnimated 4 (MObject_at 0) true)
                   TableHost.cube
      <= TableHost.remaining TableHost.cube
           (upstreamIterator TableHost.host TableHost.cube (MObject_at 0)))%nat.
Proof.
  pose proof (TableHost_plugRankDecreases TableHost.cube) as Hrank.
  pose proof (TableHost_iteratorAdvances TableHost.cube) as Hadvances.
  destruct (traversals_terminate TableHost.host TableHost.cube TableHost.rank
              (TableHost.remaining TableHost.cube) Hrank Hadvances)
    as (Hsampled & Hanimated & Hvisited).
  split; [exact Hrank |]. split; [exact Hadvances |].
  split; [apply Hsampled |]. split; [apply Hanimated | apply Hvisited].
Defined.

Example isAnimated_transform_visits :
  nodesVisited TableHost.host (isAnimated 4 (MObject_at 0) true) TableHost.cube
  = 3%nat.
Proof. reflexivity. Qed.

(** ** Paths and connections on the cube *)

(** C9 on the path of the shape and the path of its transform, and on two
    different paths of the same length. *)
Lemma isAncestorDescendentRelationship_symmetric_witness :
  result TableHost.host
    (isAncestorDescendentRelationship [MObject_at 0; MObject_at 1]
                                      [MObject_at 0]) TableHost.cube
  = result TableHost.host
      (isAncestorDescendentRelationship [MObject_at 0]
                                        [MObject_at 0; MObject_at 1]) TableHost.cube
  /\ MDagPath_length [MObject_at 0; MObject_at 1]
     = MDagPath_length [MObject_at 0; MObject_at 2]
  /\ [MObject_at 0; MObject_at 1] <> [MObject_at 0; MObject_at 2]
  /\ result TableHost.host
       (isAncestorDescendentRelationship [MObject_at 0; MObject_at 1]
                                         [MObject_at 0; MObject_at 2]) TableHost.cube
     = false.
Proof.
  split.
  - apply (isAncestorDescendentRelationship_symmetric TableHost.host).
  - split; [reflexivity |]. split; [discriminate |].
    apply (isAncestorDescendentRelationship_symmetric TableHost.host);
      [reflexivity | discriminate].
Defined.

(** C8 on translateX, which has one source, and on translateZ, which has
    none. *)
Lemma GetConnected_single_source_witness :
  MStatus_ok (fst (answer TableHost.host (PlugConnectedTo (MPlug_at 0) true false)
                          TableHost.cube)) = true
  /\ snd (answer TableHost.host (PlugConnectedTo (MPlug_at 0) true false) TableHost.cube)
     = [MPlug_at 14]
  /\ result TableHost.host (GetConnected (MPlug_at 0)) TableHost.cube = MPlug_at 14
  /\ length (snd (answer TableHost.host (PlugConnectedTo (MPlug_at 2) true false)
                         TableHost.cube)) <> 1%nat
  /\ result TableHost.host (GetConnected (MPlug_at 2)) TableHost.cube = MPlug_null.
Proof.
  split; [reflexivity |]. split; [reflexivity |]. split.
  - apply (GetConnected_single_source TableHost.host (MPlug_at 0) TableHost.cube);
      reflexivity.
  - split; [discriminate |].
    apply (GetConnected_single_source TableHost.host (MPlug_at 2) TableHost.cube).
    right. discriminate.
Defined.

(** C5, as stated, fails on a name without components: the name [":"]
    splits into no component at all, which is at most [1 + 1] components,
    and [stripNamespaces] returns the name itself, which is none of its
    components; the same happens on the empty name. *)
Lemma stripNamespaces_without_components :
  MString_split (PxrLibs := TableHost.libs) ":" ":" = (kSuccess, [])
  /\ (N.of_nat (length (snd (MString_split (PxrLibs := TableHost.libs) ":" ":")))
      <= 1 + 1)%N
  /\ stripNamespaces (L := TableHost.libs) ":" 1 = ":"
  /\ ~ In (stripNamespaces (L := TableHost.libs) ":" 1)
          (snd (MString_split (PxrLibs := TableHost.libs) ":" ":"))
  /\ MString_split (PxrLibs := TableHost.libs) "" ":" = (kSuccess, [])
  /\ ~ In (stripNamespaces (L := TableHost.libs) "" 1)
          (snd (MString_split (PxrLibs := TableHost.libs) "" ":")).
Proof.
  split; [reflexivity |]. split; [vm_compute; discriminate |].
  split; [reflexivity |]. split; [intros [] |].
  split; [reflexivity | intros []].
Qed.

(** C5, amended, on the name a:b:c:d at depth 2 and at depth 7, and on the
    name [":"]. *)
Lemma stripNamespaces_components_witness :
  MString_split (PxrLibs := TableHost.libs) "a:b:c:d" ":"
  = (kSuccess, ["a"; "b"; "c"; "d"])
  /\ stripNamespaces (L := TableHost.libs) "a:b:c:d" 0 = "a:b:c:d"
  /\ stripNamespaces (L := TableHost.libs) "a:b:c:d" 2 = "c:d"
  /\ stripNamespaces (L := TableHost.libs) "a:b:c:d" 7 = "d"
  /\ stripNamespaces (L := TableHost.libs) ":" 2 = ":".
Proof.
  split; [reflexivity |].
  destruct (stripNamespaces_components (L := TableHost.libs) "a:b:c:d" 2 kSuccess
              ["a"; "b"; "c"; "d"] eq_refl eq_refl eq_refl)
    as (Hzero & _ & _ & Hjoin).
  destruct (stripNamespaces_components (L := TableHost.libs) "a:b:c:d" 7 kSuccess
              ["a"; "b"; "c"; "d"] eq_refl eq_refl eq_refl)
    as (_ & _ & Hlast & _).
  destruct (stripNamespaces_components (L := TableHost.libs) ":" 2 kSuccess
              [] eq_refl eq_refl eq_refl)
    as (_ & Hnone & _ & _).
  split; [exact Hzero |]. split; [| split].
  - rewrite Hjoin; [reflexivity | reflexivity | discriminate | reflexivity].
  - rewrite Hlast;
      [reflexivity | reflexivity | discriminate | discriminate | discriminate].
  - apply Hnone. right. reflexivity.
Defined.

(** ** setPlugValue on the cube *)

(** C3 at its failing input: a token for a string plug, whose attribute is
    not an enum attribute. *)
Lemma setPlugValue_token_without_enum_witness :
  answer TableHost.host (UsdAttrGet (UsdAttribute_at 2) UsdTimeCode_Default) TableHost.cube
  = (true, VtToken "smooth")
  /\ answer TableHost.host (PlugAttribute (MPlug_at 19)) TableHost.cube
     = (kSuccess, MObject_at 11)
  /\ answer TableHost.host (ObjHasFn (MObject_at 11) kEnumAttribute) TableHost.cube = false
  /\ run TableHost.host
       (setPlugValue (UsdAttribute_at 2) UsdTimeCode_Default (MPlug_at 19))
       TableHost.cube = (true, TableHost.cube)
  /\ commands TableHost.host
       (setPlugValue (UsdAttribute_at 2) UsdTimeCode_Default (MPlug_at 19))
       TableHost.cube = [].
Proof.
  split; [reflexivity |]. split; [reflexivity |]. split; [reflexivity |].
  apply (setPlugValue_token_without_enum TableHost.host (UsdAttribute_at 2)
           UsdTimeCode_Default (MPlug_at 19) "smooth" (MObject_at 11) TableHost.cube);
    reflexivity.
Defined.

(** ** Connect and setPlugValue modify the cube *)


(** ** GetLinearShaderColor on the cube *)

(** C7 on the transform, which has no shading group, and on the shape,
    whose two faces carry a red and a blue opaque shader: the colours
    differ and there are as many as faces, the alphas agree. *)
Lemma GetLinearShaderColor_interpolation_witness :
  noShaderConnected TableHost.host TableHost.cube (MObject_at 0)
  /\ result TableHost.host (GetLinearShaderColor (MObject_at 0) 2 TableHost.noColors)
            TableHost.cube = (false, TableHost.noColors)
  /\ fst (result TableHost.host (GetLinearShaderColor (MObject_at 1) 2 TableHost.noColors)
                 TableHost.cube) = true
  /\ filledRGB TableHost.host TableHost.cube
       (attachedShaders TableHost.host TableHost.cube (MObject_at 1) 2) TableHost.noColors
     = Some [TableHost.red; TableHost.blue]
  /\ ~ rgbAllAgree TableHost.host TableHost.cube
         (attachedShaders TableHost.host TableHost.cube (MObject_at 1) 2)
         [TableHost.red; TableHost.blue]
  /\ RGBInterp (snd (result TableHost.host
                       (GetLinearShaderColor (MObject_at 1) 2 TableHost.noColors)
                       TableHost.cube)) = UsdGeomTokens_uniform
  /\ alphaAllAgree TableHost.host TableHost.cube
       (attachedShaders TableHost.host TableHost.cube (MObject_at 1) 2)
       [TableHost.one; TableHost.one]
  /\ AlphaData (snd (result TableHost.host
                       (GetLinearShaderColor (MObject_at 1) 2 TableHost.noColors)
                       TableHost.cube)) = Some [TableHost.one]
  /\ AlphaInterp (snd (result TableHost.host
                         (GetLinearShaderColor (MObject_at 1) 2 TableHost.noColors)
                         TableHost.cube)) = UsdGeomTokens_constant.
Proof.
  assert (Hnone : noShaderConnected TableHost.host TableHost.cube (MObject_at 0))
    by (intros sg []).
  assert (Hdiffer : ~ rgbAllAgree TableHost.host TableHost.cube
            (attachedShaders TableHost.host TableHost.cube (MObject_at 1) 2)
            [TableHost.red; TableHost.blue]).
  { intros Hagree.
    specialize (Hagree 1%nat ltac:(vm_compute; lia) eq_refl).
    vm_compute in Hagree. discriminate. }
  assert (Hagree : alphaAllAgree TableHost.host TableHost.cube
            (attachedShaders TableHost.host TableHost.cube (MObject_at 1) 2)
            [TableHost.one; TableHost.one]).
  { intros i Hi _. vm_compute in Hi.
    destruct i as [| [| i]]; [reflexivity | reflexivity | lia]. }
  split; [exact Hnone |].
  split.
  { apply (GetLinearShaderColor_interpolation TableHost.host TableHost.cube (MObject_at 0)
             2 TableHost.noColors). exact Hnone. }
  split; [reflexivity |].
  split; [reflexivity |].
  split; [exact Hdiffer |].
  destruct (GetLinearShaderColor_interpolation TableHost.host TableHost.cube (MObject_at 1)
              2 TableHost.noColors) as [_ Htrue].
  destruct (Htrue (snd (result TableHost.host
                          (GetLinearShaderColor (MObject_at 1) 2 TableHost.noColors)
                          TableHost.cube)) eq_refl) as [Hrgb Halpha].
  destruct (Hrgb [TableHost.red; TableHost.blue] eq_refl) as (_ & _ & Huniform).
  destruct (Halpha [TableHost.one; TableHost.one] eq_refl) as (_ & Hconstant & _).
  split; [apply Huniform; [exact Hdiffer | reflexivity] |].
  split; [exact Hagree |].
  apply Hconstant. exact Hagree.
Defined.

(** ** More of the functions on the cube *)

Example getSampledType_translateX :
  result TableHost.host (getSampledType 3 (MPlug_at 0) false) TableHost.cube
  = Some 2.
Proof. reflexivity. Qed.

Example getSampledType_translateY_muted :
  result TableHost.host (getSampledType 3 (MPlug_at 1) false) TableHost.cube
  = Some 0.
Proof. reflexivity. Qed.

Example getSampledType_translate :
  result TableHost.host (getSampledType 8 (MPlug_at 6) true) TableHost.cube
  = Some 2
  /\ result TableHost.host (getSampledType 8 (MPlug_at 6) false) TableHost.cube
     = Some 0.
Proof. split; reflexivity. Qed.

Example getSampledType_array :
  result TableHost.host (getSampledType 9 (MPlug_at 7) false) TableHost.cube
  = Some 2.
Proof. reflexivity. Qed.

Example getSampledType_out_of_fuel :
  result TableHost.host (getSampledType 1 (MPlug_at 6) true) TableHost.cube
  = None.
Proof. reflexivity. Qed.

Example getVisibilityType_visibility :
  result TableHost.host (getVisibilityType 4 (MPlug_at 3)) TableHost.cube
  = Some 0.
Proof. reflexivity. Qed.

Example isAnimated_transform_and_shape :
  result TableHost.host (isAnimated 4 (MObject_at 0) true) TableHost.cube
  = Some true
  /\ result TableHost.host (isAnimated 2 (MObject_at 1) true) TableHost.cube
     = Some false.
Proof. split; reflexivity. Qed.

Example isRenderable_shape :
  result TableHost.host (isRenderable (MObject_at 1)) TableHost.cube = true
  /\ result TableHost.host (isIntermediate (MObject_at 1)) TableHost.cube
     = false.
Proof. split; reflexivity. Qed.

Example MDagPathToUsdPath_shape :
  result TableHost.host
    (MDagPathToUsdPath [MObject_at 0; MObject_at 1] false) TableHost.cube
  = "/ns_pCube1/ns_pCubeShape1"
  /\ result TableHost.host
       (MDagPathToUsdPath [MObject_at 0; MObject_at 1] true) TableHost.cube
     = "/ns_pCube1".
Proof. split; reflexivity. Qed.

Example getRotOrder_ZXY :
  getRotOrder kZXY 7 7 7 = (true, (2, 0, 1)%N)
  /\ getRotOrder kLast 7 8 9 = (false, (7, 8, 9)%N).
Proof. split; reflexivity. Qed.

Example SanitizeColorSetName_rman :
  SanitizeColorSetName "rman_Cs" = "Cs" /\ SanitizeColorSetName "Cs" = "Cs".
Proof. split; reflexivity. Qed.

Example GetLinearShaderColor_shape :
  result TableHost.host
    (GetLinearShaderColor (MObject_at 1) 2 TableHost.noColors) TableHost.cube
  = (true,
     {| RGBData := Some [TableHost.red; TableHost.blue];
        RGBInterp := "uniform";
        AlphaData := Some [TableHost.one];
        AlphaInterp := "constant" |}).
Proof. reflexivity. Qed.

(** A colour is written component by component, converted to display. *)
Example setPlugValue_color :
  commands TableHost.host
    (setPlugValue (UsdAttribute_at 1) UsdTimeCode_Default (MPlug_at 6))
    TableHost.cube
  = [EvDo (PlugSetFloat (L := TableHost.libs) (MPlug_at 0) 500000000);
     EvDo (PlugSetFloat (L := TableHost.libs) (MPlug_at 1) 500000000);
     EvDo (PlugSetFloat (L := TableHost.libs) (MPlug_at 2) 1000000000)]
  /\ result TableHost.host
       (setPlugValue (UsdAttribute_at 1) UsdTimeCode_Default (MPlug_at 6))
       TableHost.cube = true.
Proof. split; reflexivity. Qed.

(** A token is written to an enum plug as the index of its field. *)
Example setPlugValue_enum :
  commands TableHost.host
    (setPlugValue (UsdAttribute_at 2) UsdTimeCode_Default (MPlug_at 18))
    TableHost.cube
  = [EvDo (PlugSetShort (MPlug_at 18) 1)].
Proof. reflexivity. Qed.

Example setPlugValue_unhandled :
  run TableHost.host
    (setPlugValue (UsdAttribute_at 3) UsdTimeCode_Default (MPlug_at 2))
    TableHost.cube = (false, TableHost.cube)
  /\ run TableHost.host
       (setPlugValue (UsdAttribute_at 1) UsdTimeCode_Default (MPlug_at 2))
       TableHost.cube = (false, TableHost.cube).
Proof. split; reflexivity. Qed.

(** With [clearDstPlug] the source of translateY is replaced. *)
Example Connect_clears_destination :
  commands TableHost.host (Connect (MPlug_at 14) (MPlug_at 1) true)
           TableHost.cube
  = [EvDo (DGModifierDoIt [OpDisconnect (MPlug_at 15) (MPlug_at 1);
                           OpConnect (MPlug_at 14) (MPlug_at 1)])]
  /\ sourcesOf TableHost.host
       (final TableHost.host (Connect (MPlug_at 14) (MPlug_at 1) true)
              TableHost.cube) (MPlug_at 1) = [MPlug_at 14].
Proof. split; reflexivity. Qed.

(** * Further properties of the functions *)

(** ** Names and paths *)

Section SanitizeColorSetName.

Lemma substring_whole (s : string) :
  String.substring 0 (String.length s) s = s.
Proof. induction s as [| c s IH]; simpl; [reflexivity | now rewrite IH]. Qed.

(** X1: [SanitizeColorSetName] removes one leading [rman_] and nothing
    else: the name is the result with [rman_] put back in front when the
    name starts with it, and the result itself when it does not. *)
Theorem SanitizeColorSetName_strips_prefix (name : string) :
  name = (if String.prefix "rman_" name then "rman_" else "")
         +:+ SanitizeColorSetName name.
Proof.
  unfold SanitizeColorSetName.
  destruct (String.prefix "rman_" name) eqn:Hprefix.
  - apply prefix_correct in Hprefix.
    destruct name as [| c1 [| c2 [| c3 [| c4 [| c5 rest]]]]];
      try discriminate Hprefix.
    cbn in Hprefix. injection Hprefix as -> -> -> -> -> _.
    cbn [String.length Nat.sub String.substring].
    rewrite Nat.sub_0_r, substring_whole. reflexivity.
  - cbn [String.append]. rewrite Nat.sub_0_r, substring_whole. reflexivity.
Qed.

End SanitizeColorSetName.

Section UsdPathText.
Context {L : PxrLibs} (h : Host).

Lemma std_replace_length (old new : ascii) (s : string) :
  String.length (std_replace old new s) = String.length s.
Proof. induction s as [| c s IH]; simpl; [reflexivity | now rewrite IH]. Qed.

Lemma usdPathString_length (name : string) :
  String.length (usdPathString name) = String.length name.
Proof. induction name as [| c name IH]; simpl; [reflexivity | now rewrite IH]. Qed.

Lemma usdPathCharacter_neither (c : ascii) :
  Ascii.eqb (usdPathCharacter c) "|" = false
  /\ Ascii.eqb (usdPathCharacter c) ":" = false.
Proof.
  unfold usdPathCharacter.
  destruct (Ascii.eqb c "|") eqn:Hbar; [split; reflexivity |].
  destruct (Ascii.eqb c ":") eqn:Hcolon; [split; reflexivity |].
  split; assumption.
Qed.

Lemma usdPathString_occurs (name : string) :
  occurs "|" (usdPathString name) = false
  /\ occurs ":" (usdPathString name) = false.
Proof.
  induction name as [| c name [IHbar IHcolon]]; [split; reflexivity |].
  cbn [usdPathString occurs]. rewrite IHbar, IHcolon.
  destruct (usdPathCharacter_neither c) as [-> ->]. split; reflexivity.
Qed.

(** X2: the text from which [MDagPathToUsdPath] makes its path has the
    length of the full path name of the DAG path and contains neither ['|']
    nor [':']; the function returns the path made from that text or, when it
    merges a shape into its transform, the parent of that path. *)
Theorem MDagPathToUsdPath_path_text (dagPath : MDagPath)
    (mergeTransformAndShape : bool) (s : Scene h) :
  exists text,
    String.length text
    = String.length (answer h (DagPathFullPathName dagPath) s)
    /\ occurs "|" text = false
    /\ occurs ":" text = false
    /\ result h (MDagPathToUsdPath dagPath false) s = SdfPath_of_string text
    /\ (result h (MDagPathToUsdPath dagPath mergeTransformAndShape) s
        = SdfPath_of_string text
        \/ result h (MDagPathToUsdPath dagPath mergeTransformAndShape) s
           = SdfPath_GetParentPath (SdfPath_of_string text)).
Proof.
  exists (usdPathString (answer h (DagPathFullPathName dagPath) s)).
  split; [apply usdPathString_length |].
  destruct (usdPathString_occurs (answer h (DagPathFullPathName dagPath) s))
    as [Hbar Hcolon].
  split; [exact Hbar |]. split; [exact Hcolon |].
  unfold result, MDagPathToUsdPath. run_calls. rewrite std_replace_twice.
  split; [reflexivity |].
  destruct mergeTransformAndShape; run_calls; [| left; reflexivity].
  rewrite run_bind_readOnly by apply _IsShape_readOnly.
  destruct (result h (_IsShape dagPath) s); [right | left]; reflexivity.
Qed.

End UsdPathText.

(** ** stripNamespaces at any depth *)

Section StripNamespacesDepth.
Context {L : PxrLibs}.

(** What [stripNamespaces] returns at a depth other than 0 on a name that
    splits into at least one component. *)
Lemma stripNamespaces_min (iNodeName : MString) (iDepth : N)
    (status : MStatus) (strArray : list MString) :
  MString_split iNodeName ":" = (status, strArray) ->
  MStatus_ok status = true ->
  strArray <> [] ->
  iDepth <> 0%N ->
  (iDepth < UINT_MODULUS)%N ->
  (N.of_nat (length strArray) < UINT_MODULUS)%N ->
  stripNamespaces iNodeName iDepth
  = rejoinAfter (N.min iDepth (N.of_nat (length strArray) - 1)) strArray.
Proof.
  intros Hsplit Hok Hne Hnz Hdepth Hlen. unfold UINT_MODULUS in *.
  assert (Hpos : (0 < length strArray)%nat).
  { destruct strArray; [contradiction | simpl; lia]. }
  assert (Hlast : rejoinAfter (N.of_nat (length strArray) - 1) strArray
                  = nth (length strArray - 1) strArray "").
  { unfold rejoinAfter.
    replace (N.to_nat (N.of_nat (length strArray) - 1))
      with (length strArray - 1)%nat by lia.
    rewrite (skipn_cons_nth "" strArray (length strArray - 1)) by lia.
    rewrite skipn_all2 by lia. reflexivity. }
  replace (N.to_nat (N.of_nat (length strArray) - 1))
    with (length strArray - 1)%nat in * by lia.
  unfold stripNamespaces. rewrite Hsplit, Hok.
  replace (N.to_nat (N.of_nat (length strArray) - 1))
    with (length strArray - 1)%nat by lia.
  destruct (N.eqb_spec iDepth 0) as [| _]; [contradiction |].
  destruct (N.eqb_spec (N.of_nat (length strArray)) 0) as [H0 | _]; [lia |].
  destruct (N.leb_spec (N.of_nat (length strArray))
              ((iDepth + 1) mod UINT_MODULUS)) as [Hle | Hgt].
  - (* more namespaces asked for than the name has *)
    assert (Hle' : (N.of_nat (length strArray) <= iDepth + 1)%N).
    { pose proof (N.Div0.mod_le (iDepth + 1) UINT_MODULUS). lia. }
    rewrite N.min_r by lia. symmetry. exact Hlast.
  - destruct (N.ltb_spec (iDepth + 1) (N.of_nat (length strArray)))
      as [Hlt | Hge].
    + rewrite N.min_l by lia. unfold rejoinAfter.
      rewrite <- (N2Nat.id iDepth) at 1.
      rewrite stripNamespaces_loop_rejoins by lia.
      reflexivity.
    + (* [iDepth + 1] wrapped to 0: the loop makes no iteration *)
      rewrite N.min_r by lia. rewrite Hlast.
      replace (N.to_nat (N.of_nat (length strArray) - 1 - iDepth)) with 0%nat
        by lia.
      reflexivity.
Qed.

(** X3: for a depth other than 0 and a name that splits into at least one
    component, [stripNamespaces] removes the first [depth] components, but
    never the last one: it returns the components after the first
    [min depth (n - 1)] of the [n], joined with [":"].  So every depth of
    [n - 1] or more gives the same result, the last component. *)
Theorem stripNamespaces_keeps_last (iNodeName : MString) (iDepth : N)
    (status : MStatus) (strArray : list MString) :
  MString_split iNodeName ":" = (status, strArray) ->
  MStatus_ok status = true ->
  strArray <> [] ->
  iDepth <> 0%N ->
  (iDepth < UINT_MODULUS)%N ->
  (N.of_nat (length strArray) < UINT_MODULUS)%N ->
  stripNamespaces iNodeName iDepth
  = rejoinAfter (N.min iDepth (N.of_nat (length strArray) - 1)) strArray
  /\ ((N.of_nat (length strArray) - 1 <= iDepth)%N ->
      stripNamespaces iNodeName iDepth = List.last strArray "").
Proof.
  intros Hsplit Hok Hne Hnz Hdepth Hlen.
  pose proof (stripNamespaces_min _ _ _ _ Hsplit Hok Hne Hnz Hdepth Hlen)
    as Hrun.
  split; [exact Hrun |].
  intros Hdeep. rewrite Hrun, N.min_r by lia.
  assert (Hpos : (0 < length strArray)%nat).
  { destruct strArray; [contradiction | simpl; lia]. }
  unfold rejoinAfter.
  replace (N.to_nat (N.of_nat (length strArray) - 1))
    with (length strArray - 1)%nat by lia.
  rewrite (skipn_cons_nth "" strArray (length strArray - 1)) by lia.
  rewrite skipn_all2 by lia. rewrite last_nth. reflexivity.
Qed.

(** X4: stripping [d1] namespaces and then [d2] more is stripping
    [d1 + d2] at once, for a name whose remaining components the split
    gives back from what the first call returns. *)
Theorem stripNamespaces_twice (iNodeName : MString) (d1 d2 : N)
    (strArray : list MString) :
  MString_split iNodeName ":" = (kSuccess, strArray) ->
  strArray <> [] ->
  d1 <> 0%N -> d2 <> 0%N ->
  (d1 + d2 < UINT_MODULUS)%N ->
  (N.of_nat (length strArray) < UINT_MODULUS)%N ->
  MString_split (stripNamespaces iNodeName d1) ":"
  = (kSuccess,
     skipn (N.to_nat (N.min d1 (N.of_nat (length strArray) - 1))) strArray) ->
  stripNamespaces (stripNamespaces iNodeName d1) d2
  = stripNamespaces iNodeName (d1 + d2).
Proof.
  intros Hsplit Hne Hd1 Hd2 Hsum Hlen Hsplit'.
  assert (Hpos : (0 < length strArray)%nat).
  { destruct strArray; [contradiction | simpl; lia]. }
  set (m := N.min d1 (N.of_nat (length strArray) - 1)) in *.
  assert (Hrest : skipn (N.to_nat m) strArray <> []).
  { intros Hnil. apply (f_equal (@length _)) in Hnil.
    rewrite length_skipn in Hnil. simpl in Hnil. lia. }
  rewrite (stripNamespaces_min _ d2 _ _ Hsplit' eq_refl Hrest Hd2)
    by (rewrite ?length_skipn; lia).
  rewrite (stripNamespaces_min _ (d1 + d2) _ _ Hsplit eq_refl Hne)
    by lia.
  unfold rejoinAfter.
  rewrite skipn_skipn, length_skipn. f_equal. f_equal. lia.
Qed.

End StripNamespacesDepth.

(** ** getRotOrder, read backwards *)

(** X5: the six recognized rotation orders give six different triples of
    outputs: when [getRotOrder] returns true on two orders with the same
    outputs, the two orders are the same. *)
Theorem getRotOrder_injective (o1 o2 : RotationOrder) (x y z x' y' z' : N) :
  fst (getRotOrder o1 x y z) = true ->
  fst (getRotOrder o2 x' y' z') = true ->
  snd (getRotOrder o1 x y z) = snd (getRotOrder o2 x' y' z') ->
  o1 = o2.
Proof.
  destruct o1, o2; cbn; intros H1 H2 Hout;
    try reflexivity; discriminate.
Qed.

(** ** isAncestorDescendentRelationship on prefixes *)

Section AncestorDescendentPrefix.
Context {L : PxrLibs} (h : Host).

Lemma firstn_prefix {A} (l k : list A) :
  firstn (length l) k = l <-> exists rest, k = l ++ rest.
Proof.
  split.
  - intros Hfirst. exists (skipn (length l) k).
    rewrite <- Hfirst at 1. symmetry. apply firstn_skipn.
  - intros [rest ->]. rewrite firstn_app, Nat.sub_diag, firstn_all.
    cbn. apply app_nil_r.
Qed.

Lemma parentingRelationship_prefix (path1 path2 : MDagPath) :
  parentingRelationship path1 path2 = true
  <-> (exists rest, path2 = path1 ++ rest)
      \/ (exists rest, path1 = path2 ++ rest).
Proof.
  unfold parentingRelationship, MDagPath_eqb.
  destruct (Nat.ltb_spec (length path2) (length path1)) as [Hlt | Hge];
    rewrite bool_decide_eq_true; split.
  - intros Heq. right. apply firstn_prefix. congruence.
  - intros [[rest Hrest] | Hpre].
    + apply (f_equal (@length _)) in Hrest. rewrite length_app in Hrest. lia.
    + symmetry. now apply firstn_prefix.
  - intros Heq. left. apply firstn_prefix. congruence.
  - intros [Hpre | [rest Hrest]].
    + symmetry. now apply firstn_prefix.
    + assert (rest = []) as ->.
      { apply (f_equal (@length _)) in Hrest. rewrite length_app in Hrest.
        destruct rest; [reflexivity | simpl in Hrest; lia]. }
      rewrite app_nil_r in Hrest. subst path2. now rewrite firstn_all.
Qed.

(** X6: [isAncestorDescendentRelationship] returns true exactly when one of
    the two paths is the beginning of the other; so it returns true on a
    path and itself. *)
Theorem isAncestorDescendentRelationship_prefix (path1 path2 : MDagPath)
    (s : Scene h) :
  (result h (isAncestorDescendentRelationship path1 path2) s = true
   <-> (exists rest, path2 = path1 ++ rest)
       \/ (exists rest, path1 = path2 ++ rest))
  /\ result h (isAncestorDescendentRelationship path1 path1) s = true.
Proof.
  rewrite !isAncestorDescendentRelationship_result. split.
  - apply parentingRelationship_prefix.
  - apply parentingRelationship_prefix. left. exists []. now rewrite app_nil_r.
Qed.

(** X7: [isAncestorDescendentRelationship] displays an error exactly when
    it returns true: one message, which names the two paths by their full
    path names; when it returns false it displays nothing. *)
Theorem isAncestorDescendentRelationship_reports (path1 path2 : MDagPath)
    (s : Scene h) :
  messages h (isAncestorDescendentRelationship path1 path2) s
  = if result h (isAncestorDescendentRelationship path1 path2) s then
      [answer h (DagPathFullPathName path1) s +:+ " and "
       +:+ answer h (DagPathFullPathName path2) s
       +:+ " have parenting relationships"]
    else [].
Proof.
  unfold messages, result, isAncestorDescendentRelationship.
  destruct (_ && _); [reflexivity |].
  destruct (_ <? _)%nat; cbv zeta;
    match goal with
    | |- context [MDagPath_eqb ?a ?b] => destruct (MDagPath_eqb a b)
    end; try reflexivity; run_calls; cbn [flat_map app];
    rewrite string_append_assoc; reflexivity.
Qed.

End AncestorDescendentPrefix.

(** ** getSampledType on connected plugs, arrays and compounds *)

Section SampledTypeConnections.
Context {L : PxrLibs} (h : Host) (s : Scene h).

(** X8: on a plug that has sources, [getSampledType] looks at nothing but
    the sources, whatever [includeConnectedChildren] is and without
    recursion.  The first source that is an animation curve or a mute node
    decides: a curve gives 1 (sampled) when its input plug is connected and
    2 (curve) when it is not, a mute node gives 0 when it is on and 2 when
    it is off; when every source is a node of another kind the plug is
    sampled (1). *)
Theorem getSampledType_direct_connections (p : MPlug) :
  sourcesOf h s p <> [] ->
  exists r,
    (forall fuel b, result h (getSampledType (S fuel) p b) s = Some r) /\
    (Forall (fun c => passedOver h s c = true) (sourcesOf h s p) -> r = 1) /\
    (forall before c after,
       sourcesOf h s p = before ++ c :: after ->
       Forall (fun x => passedOver h s x = true) before ->
       (isAnimCurveType (sourceNodeType h s c) = true ->
        r = if curveInputConnected h s c then 1 else 2) /\
       (isMuteType (sourceNodeType h s c) = true ->
        r = if mutedSource h s c then 0 else 2)).
Proof.
  intros Hsources.
  exists (result h (getSampledType_conns (sourcesOf h s p)) s).
  split; [| split].
  - intros fuel b. rewrite getSampledType_S.
    destruct (Nat.eqb_spec (length (sourcesOf h s p)) 0) as [Hlen | _];
      [| reflexivity].
    apply length_zero_iff_nil in Hlen. contradiction.
  - intros Hpassed.
    rewrite <- (app_nil_r (sourcesOf h s p)).
    now rewrite getSampledType_conns_passedOver.
  - intros before c after -> Hpassed.
    rewrite getSampledType_conns_passedOver by exact Hpassed.
    rewrite getSampledType_conns_cons. unfold curveInputConnected. split.
    + intros ->. reflexivity.
    + intros Hmute. rewrite Hmute.
      destruct (sourceNodeType h s c); try discriminate Hmute. reflexivity.
Qed.

(** X9: [includeConnectedChildren] can only turn a result of 0 into
    another: a result other than 0 without it is the result with it, and a
    result of 0 with it is the result without it. *)
Theorem getSampledType_includeConnectedChildren (fuel : nat) (p : MPlug) :
  (forall r, result h (getSampledType fuel p false) s = Some r -> r <> 0 ->
             result h (getSampledType fuel p true) s = Some r)
  /\ (result h (getSampledType fuel p true) s = Some 0 ->
      result h (getSampledType fuel p false) s = Some 0).
Proof.
  destruct fuel as [| fuel]; [split; [discriminate | discriminate] |].
  rewrite !getSampledType_S.
  destruct (length (sourcesOf h s p) =? 0)%nat; [| split; auto].
  destruct (answer h (PlugIsArray p) s); [split; auto |].
  rewrite andb_false_r. split.
  - intros r [= <-] Hr. contradiction.
  - reflexivity.
Qed.

Lemma fold_first_positive (before after : list nat) (e : nat)
    (g : nat -> option Z) (r : Z) :
  (forall e', In e' before -> g e' = Some 0) ->
  g e = Some r -> 0 < r ->
  fold_until (before ++ e :: after) (fun e _ => positiveReturns (g e)) tt
  = inr (Some r).
Proof.
  intros Hbefore He Hr.
  induction before as [| a before IH]; cbn [app fold_until].
  - unfold positiveReturns. rewrite He.
    destruct (Z.ltb_spec 0 r); [reflexivity | lia].
  - unfold positiveReturns at 1. rewrite (Hbefore a) by (left; reflexivity).
    cbn. apply IH. intros e' Hin. apply Hbefore. right. exact Hin.
Qed.

Lemma seq_split_at (n e : nat) :
  (e < n)%nat -> seq 0 n = seq 0 e ++ e :: seq (S e) (n - S e).
Proof.
  intros He. replace n with (e + S (n - S e))%nat at 1 by lia.
  rewrite seq_app. reflexivity.
Qed.

Lemma loop_first_positive (fuel n e : nat) (f : nat -> MPlug) (r : Z) :
  (e < n)%nat ->
  (forall e', (e' < e)%nat ->
     result h (getSampledType fuel (f e') true) s = Some 0) ->
  result h (getSampledType fuel (f e) true) s = Some r ->
  0 < r ->
  loopReturn
    (fold_until (seq 0 n)
       (fun e _ => positiveReturns (result h (getSampledType fuel (f e) true) s))
       tt) = Some r.
Proof.
  intros He Hbefore Hr Hpos. rewrite (seq_split_at n e He).
  rewrite (fold_first_positive _ _ e
             (fun e => result h (getSampledType fuel (f e) true) s) r);
    [reflexivity | | exact Hr | exact Hpos].
  intros e' Hin. apply in_seq in Hin. apply Hbefore. lia.
Qed.

(** X10: on a plug without sources, the connected elements of an array plug
    (and, with [includeConnectedChildren], the children of a compound plug
    that has connected children) are classified in the order of their
    indices, and the first that is not static decides: when those before it
    are 0 and it is [r > 0], the plug is [r]. *)
Theorem getSampledType_first_animated (fuel : nat) (p : MPlug) :
  sourcesOf h s p = [] ->
  (answer h (PlugIsArray p) s = true ->
   forall e r,
     (e < answer h (PlugNumConnectedElements p) s)%nat ->
     (forall e', (e' < e)%nat ->
        result h (getSampledType fuel (connectedElement h s p e') true) s
        = Some 0) ->
     result h (getSampledType fuel (connectedElement h s p e) true) s = Some r ->
     0 < r ->
     forall b, result h (getSampledType (S fuel) p b) s = Some r)
  /\
  (answer h (PlugIsArray p) s = false ->
   answer h (PlugIsCompound p) s = true ->
   (0 < answer h (PlugNumConnectedChildren p) s)%nat ->
   forall c r,
     (c < answer h (PlugNumChildren p) s)%nat ->
     (forall c', (c' < c)%nat ->
        result h (getSampledType fuel (childPlug h s p c') true) s = Some 0) ->
     result h (getSampledType fuel (childPlug h s p c) true) s = Some r ->
     0 < r ->
     result h (getSampledType (S fuel) p true) s = Some r).
Proof.
  intros Hsources. split.
  - intros Harray e r He Hbefore Hr Hpos b.
    rewrite getSampledType_S, Hsources, Harray. cbn [length Nat.eqb].
    now apply (loop_first_positive fuel _ e).
  - intros Harray Hcompound Hconn c r Hc Hbefore Hr Hpos.
    rewrite getSampledType_S, Hsources, Harray, Hcompound.
    apply Nat.ltb_lt in Hconn. rewrite Hconn. cbn [length Nat.eqb andb].
    now apply (loop_first_positive fuel _ c).
Qed.

End SampledTypeConnections.

(** ** getVisibilityType *)

Section VisibilityType.
Context {L : PxrLibs} (h : Host) (s : Scene h).
Variable rank : MPlug -> nat.
Hypothesis Hrank : plugRankDecreases h s rank.

(** X11: on a scene whose plug hierarchy is well-founded,
    [getVisibilityType] returns on every plug, and its code tells whether
    the plug is static or animated ([getSampledType] with the children
    included returns 0 or not) and whether it is on: 0 for static and on,
    1 for static and off, 2 for animated and off, 3 for animated and on. *)
Theorem getVisibilityType_codes (iPlug : MPlug) :
  exists type,
    returnsSampledType h s rank iPlug true type /\
    forall fuel, (rank iPlug < fuel)%nat ->
      result h (getVisibilityType fuel iPlug) s
      = Some (visibilityCode (type =? 0) (answer h (PlugAsBool iPlug) s)).
Proof.
  destruct (getSampledType_returnsSampledType h s rank Hrank iPlug true)
    as [type Htype].
  exists type. split; [exact Htype |].
  intros fuel Hfuel. unfold getVisibilityType.
  rewrite result_bind_readOnly by apply getSampledType_readOnly.
  rewrite (Htype fuel Hfuel). unfold result.
  destruct (type =? 0); run_calls;
    destruct (answer h (PlugAsBool iPlug) s); reflexivity.
Qed.

End VisibilityType.

(** ** isAnimated over the nodes upstream *)

Section IsAnimatedNodes.
Context {L : PxrLibs} (h : Host) (s : Scene h).
Variable remaining : MItDependencyGraph -> nat.
Hypothesis Hadvances : iteratorAdvances h s remaining.

(** The iterator yields no more nodes than it has left. *)
Lemma upstreamNodes_bounded (n : nat) :
  forall m iter, (remaining iter <= n)%nat -> (remaining iter <= m)%nat ->
    upstreamNodes h s n iter = upstreamNodes h s m iter.
Proof.
  induction n as [| n IH]; intros m iter Hn Hm.
  - destruct m as [| m]; [reflexivity |]. cbn [upstreamNodes].
    destruct (answer h (ItDGIsDone iter) s) eqn:Hdone; [reflexivity |].
    pose proof (Hadvances iter Hdone). lia.
  - cbn [upstreamNodes].
    destruct (answer h (ItDGIsDone iter) s) eqn:Hdone.
    + destruct m; cbn [upstreamNodes]; [reflexivity |]. now rewrite Hdone.
    + pose proof (Hadvances iter Hdone) as Hless.
      destruct m as [| m]; [lia |].
      cbn [upstreamNodes]. rewrite Hdone. f_equal. apply IH; lia.
Qed.

Lemma upstreamNodes_enough (n : nat) (iter : MItDependencyGraph) :
  (remaining iter <= n)%nat ->
  upstreamNodes h s n iter = upstreamNodes h s (remaining iter) iter.
Proof. intros Hle. apply upstreamNodes_bounded; lia. Qed.

Lemma isAnimated_walk_nodes (fuel : nat) :
  forall iter nodes, (remaining iter < fuel)%nat ->
    result h (isAnimated_walk fuel iter nodes) s
    = if existsb (nodeAnimates h s) (upstreamNodes h s (remaining iter) iter)
      then Some (inl true)
      else Some (inr (nodes ++ upstreamNodes h s (remaining iter) iter)).
Proof.
  induction fuel as [| fuel IH]; intros iter nodes Hfuel; [lia |].
  rewrite isAnimated_walk_S.
  destruct (answer h (ItDGIsDone iter) s) eqn:Hdone.
  - destruct (remaining iter); cbn [upstreamNodes]; rewrite ?Hdone;
      cbn [existsb]; now rewrite app_nil_r.
  - pose proof (Hadvances iter Hdone) as Hless.
    destruct (remaining iter) as [| m] eqn:Hm; [lia |].
    cbn [upstreamNodes]. rewrite Hdone. cbn [existsb].
    rewrite (upstreamNodes_enough m) by lia.
    destruct (nodeAnimates h s (answer h (ItDGThisNode iter) s));
      [reflexivity |].
    cbn [orb]. rewrite IH by lia. rewrite <- app_assoc. reflexivity.
Qed.

Lemma fold_until_existsb {A} (f : A -> bool) (l : list A) :
  match fold_until l (fun a (_ : unit) => if f a then inr true else inl tt) tt
  with
  | inr b => b
  | inl _ => false
  end = existsb f l.
Proof.
  induction l as [| a l IH]; cbn [fold_until existsb]; [reflexivity |].
  destruct (f a); [reflexivity | exact IH].
Qed.

Lemma hasAnyFn_existsb (node : MObject) (types : list MFnType) :
  result h (hasAnyFn node types) s
  = existsb (fun t => answer h (ObjHasFn node t) s) types.
Proof.
  induction types as [| t types IH]; [reflexivity |].
  unfold result in *. cbn [hasAnyFn existsb]. run_calls.
  destruct (answer h (ObjHasFn node t) s); [reflexivity | exact IH].
Qed.

Lemma nodeAnimates_animatingNode (node : MObject) :
  nodeAnimates h s node = animatingNode h s node.
Proof. unfold nodeAnimates, animatingNode. now rewrite hasAnyFn_existsb. Qed.

(** X12: on a scene whose dependency-graph iterator is bounded,
    [isAnimated] returns true exactly when one of the nodes that the
    upstream iterator of the object yields is animated: it has one of the
    listed function sets or is an animated expression, or
    [MAnimUtil::isAnimated] holds of it.  The two loops of the function
    make no difference to its result.  The nodes are all the nodes of the
    iterator: it yields no more of them however long it is followed. *)
Theorem isAnimated_some_node_upstream (object : MObject) (checkParent : bool)
    (fuel : nat) :
  (remaining (upstreamIterator h s object) < fuel)%nat ->
  result h (isAnimated fuel object checkParent) s
  = Some (existsb
            (fun node =>
               animatingNode h s node
               || answer h (AnimUtilIsAnimated node checkParent) s)
            (upstreamNodes h s (remaining (upstreamIterator h s object))
                           (upstreamIterator h s object)))
  /\ (forall n, (remaining (upstreamIterator h s object) <= n)%nat ->
        upstreamNodes h s n (upstreamIterator h s object)
        = upstreamNodes h s (remaining (upstreamIterator h s object))
                        (upstreamIterator h s object)).
Proof.
  intros Hfuel. split; [| intros n Hn; now apply upstreamNodes_enough].
  unfold upstreamIterator in *.
  unfold result at 1, isAnimated. run_calls.
  destruct (answer h (ItDGCreate object kInvalid kUpstream kDepthFirst
                        kNodeLevel) s) as [stat iter].
  cbn [snd] in *.
  rewrite run_bind_readOnly by (destruct (negb (MStatus_ok stat)); read_only).
  rewrite run_bind_readOnly by apply isAnimated_walk_readOnly.
  rewrite (isAnimated_walk_nodes fuel iter [] Hfuel). cbn [app].
  set (nodes := upstreamNodes h s (remaining iter) iter).
  assert (Hor : existsb (fun node => animatingNode h s node
                  || answer h (AnimUtilIsAnimated node checkParent) s) nodes
                = existsb (nodeAnimates h s) nodes
                  || existsb (fun node =>
                        answer h (AnimUtilIsAnimated node checkParent) s) nodes).
  { induction nodes as [| a l IH]; cbn [existsb]; [reflexivity |].
    rewrite IH, nodeAnimates_animatingNode.
    destruct (animatingNode h s a),
      (answer h (AnimUtilIsAnimated a checkParent) s),
      (existsb (nodeAnimates h s) l); reflexivity. }
  rewrite Hor.
  destruct (existsb (nodeAnimates h s) nodes); run_calls; [reflexivity |].
  cbn [orb].
  rewrite run_bind_readOnly by (apply readOnly_for_each; read_only).
  rewrite (result_for_each h _ _
             (fun node _ =>
                if answer h (AnimUtilIsAnimated node checkParent) s
                then inr true else inl tt)).
  - rewrite <- (fold_until_existsb
                  (fun node => answer h (AnimUtilIsAnimated node checkParent) s)).
    destruct (fold_until nodes _ tt); reflexivity.
  - read_only.
  - intros node st _. unfold result. run_calls.
    destruct (answer h (AnimUtilIsAnimated node checkParent) s); reflexivity.
Qed.

End IsAnimatedNodes.

(** ** isIntermediate and isRenderable *)

Section Renderable.
Context {L : PxrLibs} (h : Host) (s : Scene h).

Lemma isRenderable_off_result (object : MObject) (name : string) :
  result h (isRenderable_off
              (fst (answer h (FnFindPlug object name false) s))
              (snd (answer h (FnFindPlug object name false) s))) s
  = switchedOff h s object name.
Proof.
  unfold result, isRenderable_off, switchedOff.
  destruct (answer h (FnFindPlug object name false) s) as [stat plug].
  cbn [fst snd]. destruct (MStatus_ok stat); cbn [andb]; [| reflexivity].
  run_calls. destruct (answer h (PlugAsBool plug) s); cbn [negb andb];
    [reflexivity |].
  run_calls.
  destruct (answer h (PlugConnectedTo plug true false) s) as [stat' arrayIn].
  reflexivity.
Qed.

(** X13: [isRenderable] returns false in three cases only: the node has a
    [template] plug that is on, or its [visibility] plug, or its
    [lodVisibility] plug, is off and the host reports, with success, no
    source connected to it.  A node whose
    visibility is off but driven by a connection is renderable, and so is a
    node that has none of the three plugs.  [isIntermediate] returns true
    exactly when the node has an [intermediateObject] plug that is on. *)
Theorem isRenderable_unless_switched_off (object : MObject) :
  result h (isRenderable object) s
  = negb (plugIsOn h s object "template")
    && negb (switchedOff h s object "visibility")
    && negb (switchedOff h s object "lodVisibility")
  /\ result h (isIntermediate object) s
     = plugIsOn h s object "intermediateObject".
Proof.
  split.
  - rewrite <- !isRenderable_off_result.
    unfold isRenderable, plugIsOn. unfold result at 1. run_calls.
    destruct (answer h (FnFindPlug object "template" false) s) as [st1 plug1].
    cbn [fst snd].
    assert (Hoff : forall stat plug, readOnly (isRenderable_off stat plug)).
    { intros stat plug. unfold isRenderable_off. read_only. }
    destruct (MStatus_ok st1); run_calls; cbn [andb negb].
    + destruct (answer h (PlugAsBool plug1) s); cbn [negb andb];
        [reflexivity |].
      run_calls.
      destruct (answer h (FnFindPlug object "visibility" false) s)
        as [st2 plug2]. cbn [fst snd].
      rewrite run_bind_readOnly by apply Hoff.
      destruct (result h (isRenderable_off st2 plug2) s); cbn [negb andb];
        [reflexivity |].
      run_calls.
      destruct (answer h (FnFindPlug object "lodVisibility" false) s)
        as [st3 plug3]. cbn [fst snd].
      rewrite run_bind_readOnly by apply Hoff.
      destruct (result h (isRenderable_off st3 plug3) s); reflexivity.
    + destruct (answer h (FnFindPlug object "visibility" false) s)
        as [st2 plug2]. cbn [fst snd].
      rewrite run_bind_readOnly by apply Hoff.
      destruct (result h (isRenderable_off st2 plug2) s); cbn [negb andb];
        [reflexivity |].
      run_calls.
      destruct (answer h (FnFindPlug object "lodVisibility" false) s)
        as [st3 plug3]. cbn [fst snd].
      rewrite run_bind_readOnly by apply Hoff.
      destruct (result h (isRenderable_off st3 plug3) s); reflexivity.
  - unfold result, isIntermediate, plugIsOn. run_calls.
    destruct (answer h (FnFindPlug object "intermediateObject" false) s)
      as [stat plug]. cbn [fst snd].
    destruct (MStatus_ok stat); [| reflexivity]. run_calls.
    destruct (answer h (PlugAsBool plug) s); reflexivity.
Qed.

End Renderable.

(** ** GetBoolCustomData *)

Section CustomData.
Context {L : PxrLibs} (h : Host).

(** X14: [GetBoolCustomData] returns the boolean stored under the key,
    and the default value when the key holds nothing or a value of another
    type; it displays an error only in the last case, and never when the
    key is missing. *)
Theorem GetBoolCustomData_or_default (obj : UsdAttribute) (key : TfToken)
    (defaultValue : bool) (s : Scene h) :
  let data := answer h (UsdAttrGetCustomDataByKey obj key) s in
  result h (GetBoolCustomData obj key defaultValue) s
  = match data with VtBool b => b | _ => defaultValue end
  /\ events h (GetBoolCustomData obj key defaultValue) s
     = EvAsk (UsdAttrGetCustomDataByKey obj key)
       :: match data with
          | VtEmpty | VtBool _ => []
          | _ => [EvSay ("Custom Data: " +:+ key
                         +:+ " is not of type bool. Skipping...")]
          end.
Proof.
  cbv zeta. unfold result, GetBoolCustomData. run_calls.
  destruct (answer h (UsdAttrGetCustomDataByKey obj key) s);
    split; reflexivity.
Qed.

End CustomData.

(** ** Connect *)

Section ConnectQueue.
Context {L : PxrLibs} (h : Host).

Lemma fold_left_disconnect (dstPlug : MPlug) (plgCons : list MPlug)
    (dgMod : list DGOp) :
  fold_left (fun dgMod plgCon => dgMod ++ [OpDisconnect plgCon dstPlug])
            plgCons dgMod
  = dgMod ++ map (fun plgCon => OpDisconnect plgCon dstPlug) plgCons.
Proof.
  revert dgMod. induction plgCons as [| c plgCons IH]; intros dgMod;
    cbn [fold_left map]; [now rewrite app_nil_r |].
  rewrite IH, <- app_assoc. reflexivity.
Qed.

(** X15: [Connect] hands the host one modifier and nothing else.  With
    [clearDstPlug] it first asks for the sources of the destination, and
    the modifier disconnects each of them, in the order given, before it
    connects the source plug; without it the destination is not looked at
    and the modifier only connects.  The status of [doIt] is not read: the
    scene is left as the host leaves it, whether the modifier succeeded or
    not. *)
Theorem Connect_one_modifier (srcPlug dstPlug : MPlug) (clearDstPlug : bool)
    (s : Scene h) :
  let ops := queuedOps h s srcPlug dstPlug clearDstPlug in
  events h (Connect srcPlug dstPlug clearDstPlug) s
  = (if clearDstPlug then [EvAsk (PlugConnectedTo dstPlug true false)] else [])
    ++ [EvDo (DGModifierDoIt ops)]
  /\ final h (Connect srcPlug dstPlug clearDstPlug) s
     = snd (perform h (DGModifierDoIt ops) s).
Proof.
  cbv zeta. unfold final, Connect, queuedOps, sourcesOf.
  destruct clearDstPlug; run_calls.
  - destruct (answer h (PlugConnectedTo dstPlug true false) s) as [st plgCons].
    run_calls. rewrite fold_left_disconnect. cbn [app snd].
    destruct (perform h _ s) as [st' s']. split; reflexivity.
  - cbn [app]. destruct (perform h _ s) as [st' s']. split; reflexivity.
Qed.

End ConnectQueue.

(** ** What setPlugValue writes *)

Section SetPlugValueWrites.
Context {L : PxrLibs} (h : Host).


(** X17: when the attribute has no value at the time asked, when its value
    is of a type the function does not handle, and when it is a vector but
    the plug is not compound, [setPlugValue] performs no command, leaves
    the scene as it was, and returns false. *)
Theorem setPlugValue_no_write (usdAttr : UsdAttribute)
    (time : UsdTimeCode) (attrPlug : MPlug) (s : Scene h) :
  (fst (answer h (UsdAttrGet usdAttr time) s) = false
   \/ match snd (answer h (UsdAttrGet usdAttr time) s) with
      | VtEmpty | VtOther _ => True
      | VtVec3f _ => answer h (PlugIsCompound attrPlug) s = false
      | _ => False
      end) ->
  run h (setPlugValue usdAttr time attrPlug) s = (false, s)
  /\ commands h (setPlugValue usdAttr time attrPlug) s = [].
Proof.
  intros Hnone.
  split; [now apply setPlugValue_nothing_to_write |].
  unfold commands, setPlugValue. run_calls.
  destruct (answer h (UsdAttrGet usdAttr time) s) as [got val].
  cbn [fst snd] in Hnone. destruct Hnone as [-> | Hval]; [reflexivity |].
  destruct got; [| reflexivity].
  destruct val; try contradiction; run_calls; try reflexivity.
  rewrite Hval. reflexivity.
Qed.

(** Steps through the loop over the three components: case analysis on
    each answer and status the loop reads, with the answers kept. *)
Ltac component_turns :=
  unfold CHECK_MSTATUS_AND_RETURN;
  repeat (run_calls;
          match goal with
          | |- context [answer h (PlugChild ?p ?i) ?sc] =>
              let E := fresh "Echild" in
              destruct (answer h (PlugChild p i) sc) as [? ?] eqn:E
          | |- context [perform h ?c ?sc] =>
              let E := fresh "Ewrite" in
              destruct (perform h c sc) as [? ?] eqn:E
          | |- context [MStatus_ok ?st] =>
              let E := fresh "Eok" in
              destruct (MStatus_ok st) eqn:E
          end).

(** Replays the writes made so far, with the answers kept. *)
Ltac replay_writes :=
  repeat (cbn [firstn sceneAfter fst snd];
          match goal with
          | E : perform h _ _ = _ |- _ => rewrite E
          | E : answer h _ _ = _ |- _ => rewrite E
          end);
  cbn [firstn sceneAfter fst snd].

(** X18: for a [GfVec3f] value and a compound plug, every command of
    [setPlugValue] is a [setFloat] on a child of the plug: the command at
    position [k] (0, 1 or 2) writes component [k] of the vector to the
    child [k] that the plug has, with success, in the scene the writes
    before it left, the vector being converted from linear to display when
    the role of the attribute is Color.  There are at most three writes,
    and the function returns true only after three. *)
Theorem setPlugValue_vector_components (usdAttr : UsdAttribute)
    (time : UsdTimeCode) (attrPlug : MPlug) (v : GfVec3f) (s : Scene h) :
  answer h (UsdAttrGet usdAttr time) s = (true, VtVec3f v) ->
  answer h (PlugIsCompound attrPlug) s = true ->
  let written := commands h (setPlugValue usdAttr time attrPlug) s in
  (length written <= 3)%nat
  /\ (forall k e, nth_error written k = Some e ->
        let before := sceneAfter h (firstn k written) s in
        MStatus_ok (fst (answer h (PlugChild attrPlug k) before)) = true
        /\ e = EvDo (PlugSetFloat
                       (snd (answer h (PlugChild attrPlug k) before))
                       (GfVec3f_get (vectorToWrite h s usdAttr v) k)))
  /\ (result h (setPlugValue usdAttr time attrPlug) s = true ->
      length written = 3%nat).
Proof.
  intros Hget Hcompound. cbv zeta.
  unfold result, commands, setPlugValue, _GetVec.
  run_calls. rewrite Hget. run_calls. rewrite Hcompound. run_calls.
  assert (Hvec : (if String.eqb (answer h (UsdAttrGetRoleName usdAttr) s)
                                SdfValueRoleNames_Color
                  then Ret (GfConvertLinearToDisplay v) else Ret v)
                 = Ret (R := GfVec3f) (vectorToWrite h s usdAttr v)).
  { unfold vectorToWrite. destruct (String.eqb _ _); reflexivity. }
  rewrite Hvec. clear Hvec Hget Hcompound.
  generalize (vectorToWrite h s usdAttr v). intros vec.
  cbn [seq for_each].
  component_turns; run_calls; cbn [List.filter isCommand length];
    (split; [lia |]); (split; [| try discriminate; intros _; reflexivity]);
    intros k e He;
    do 4 (try (destruct k as [| k]; cbn [nth_error] in He));
    try discriminate He; injection He as <-;
    replay_writes; cbn [MStatus_ok]; auto.
Qed.

(** X19: the write of a vector is not undone when it fails half way: when
    the first component is written and the second child of the plug cannot
    be had, [setPlugValue] returns false and leaves the scene as the first
    write left it. *)
Theorem setPlugValue_vector_partial (usdAttr : UsdAttribute)
    (time : UsdTimeCode) (attrPlug : MPlug) (v : GfVec3f) (child : MPlug)
    (s s1 : Scene h) :
  answer h (UsdAttrGet usdAttr time) s = (true, VtVec3f v) ->
  answer h (PlugIsCompound attrPlug) s = true ->
  answer h (PlugChild attrPlug 0) s = (kSuccess, child) ->
  perform h (PlugSetFloat child (GfVec3f_get (vectorToWrite h s usdAttr v) 0)) s
  = (kSuccess, s1) ->
  MStatus_ok (fst (answer h (PlugChild attrPlug 1) s1)) = false ->
  run h (setPlugValue usdAttr time attrPlug) s = (false, s1).
Proof.
  intros Hget Hcompound Hchild Hwrite Hfail.
  unfold setPlugValue, _GetVec, vectorToWrite in *.
  run_calls. rewrite Hget. run_calls. rewrite Hcompound. run_calls.
  destruct (String.eqb (answer h (UsdAttrGetRoleName usdAttr) s)
                       SdfValueRoleNames_Color);
    cbn [seq for_each]; run_calls; rewrite Hchild;
    unfold CHECK_MSTATUS_AND_RETURN at 1; cbn [MStatus_ok]; run_calls;
    rewrite Hwrite; unfold CHECK_MSTATUS_AND_RETURN at 1; cbn [MStatus_ok];
    run_calls;
    destruct (answer h (PlugChild attrPlug 1) s1) as [st child1];
    cbn [fst] in Hfail; unfold CHECK_MSTATUS_AND_RETURN at 1; rewrite Hfail;
    reflexivity.
Qed.

(** X20: a token for a plug whose attribute is an enum attribute is written
    as the index of the field of that name, with [setShort], and the
    function returns whether the write succeeded; when the enum has no
    field of that name nothing is written and the function returns false. *)
Theorem setPlugValue_enum_field (usdAttr : UsdAttribute) (time : UsdTimeCode)
    (attrPlug : MPlug) (token : TfToken) (attrObj : MObject) (s : Scene h) :
  answer h (UsdAttrGet usdAttr time) s = (true, VtToken token) ->
  answer h (PlugAttribute attrPlug) s = (kSuccess, attrObj) ->
  answer h (ObjHasFn attrObj kEnumAttribute) s = true ->
  answer h (FnEnumAttributeAttach attrObj) s = kSuccess ->
  let found := fst (answer h (FnEnumAttributeFieldIndex attrObj token) s) in
  let enumVal := snd (answer h (FnEnumAttributeFieldIndex attrObj token) s) in
  (MStatus_ok found = true ->
   commands h (setPlugValue usdAttr time attrPlug) s
   = [EvDo (PlugSetShort attrPlug enumVal)]
   /\ run h (setPlugValue usdAttr time attrPlug) s
      = (MStatus_ok (fst (perform h (PlugSetShort attrPlug enumVal) s)),
         snd (perform h (PlugSetShort attrPlug enumVal) s)))
  /\ (MStatus_ok found = false ->
      commands h (setPlugValue usdAttr time attrPlug) s = []
      /\ run h (setPlugValue usdAttr time attrPlug) s = (false, s)).
Proof.
  intros Hget Hattr Henum Hattach. cbv zeta.
  unfold commands, setPlugValue, CHECK_MSTATUS_AND_RETURN.
  repeat (run_calls; rewrite ?Hget, ?Hattr, ?Henum, ?Hattach;
          cbn [MStatus_ok]).
  destruct (answer h (FnEnumAttributeFieldIndex attrObj token) s)
    as [found enumVal].
  cbn [fst snd]. run_calls.
  split; intros Hfound; rewrite Hfound; run_calls.
  - destruct (perform h (PlugSetShort attrPlug enumVal) s) as [status s'].
    run_calls. cbn [fst snd]. destruct (MStatus_ok status); split; reflexivity.
  - split; reflexivity.
Qed.

End SetPlugValueWrites.

(** ** The shaders GetLinearShaderColor collects *)

Section AttachedShaders.
Context {L : PxrLibs} (h : Host) (s : Scene h).

Lemma firstn_snoc_nth {A} (d : A) (l : list A) (i : nat) :
  (i < length l)%nat -> firstn (S i) l = firstn i l ++ [nth i l d].
Proof.
  revert i. induction l as [| x l IH]; intros i Hi; simpl in Hi; [lia |].
  destruct i as [| i]; [reflexivity |].
  cbn [firstn nth app]. f_equal. apply IH. lia.
Qed.

Lemma fold_left_insert_length {A} (x : A) (indices : list nat) (l : list A) :
  length (fold_left (fun objs index => <[index := x]> objs) indices l)
  = length l.
Proof.
  revert l. induction indices as [| i indices IH]; intros l; cbn [fold_left];
    [reflexivity |].
  rewrite IH. apply length_insert.
Qed.

(** One turn of the loop over the shading groups. *)
Lemma _getAttachedMayaShaderObjects_turn (node : MObject) (numFaces : Z)
    (sgObjs compObjs : list MObject) (i : nat) (hasShader : bool)
    (shaderObjs : list MObject) :
  let sg := nth i sgObjs MObject_null in
  let st' :=
    result h
      ((fun i '(hasShader, shaderObjs) =>
          '(_, seSurfaceShaderPlg) ←
            ask (FnFindPlug (nth i sgObjs MObject_null) "surfaceShader" false);
          '(_, plgCons) ← ask (PlugConnectedTo seSurfaceShaderPlg true false);
          '(hasShader, shaderObj) ←
            (if (0 <? length plgCons)%nat then
               shaderObj ← ask (PlugNode (nth 0 plgCons MPlug_null));
               Ret (true, shaderObj)
             else Ret (hasShader, MObject_null));
          if (1 <? length sgObjs)%nat && (0 <? numFaces) then
            dagPath ← ask (FnDagNodeDagPath node);
            faces ← ask (ItMeshPolygonIndices dagPath
                           (nth i compObjs MObject_null));
            Ret (hasShader,
                 fold_left (fun objs index => <[index := shaderObj]> objs)
                           faces shaderObjs)
          else
            Ret (hasShader, <[0%nat := shaderObj]> shaderObjs))
         i (hasShader, shaderObjs)) s in
  fst st' = hasShader || (0 <? length (surfaceShaderSources h s sg))%nat
  /\ length (snd st') = length shaderObjs
  /\ ((1 <? length sgObjs)%nat && (0 <? numFaces) = false ->
      snd st' = <[0%nat := surfaceShader h s sg]> shaderObjs).
Proof.
  cbv zeta. unfold result, surfaceShader, surfaceShaderSources. run_calls.
  destruct (answer h (FnFindPlug (nth i sgObjs MObject_null) "surfaceShader"
                        false) s) as [st plg]. cbn [snd]. run_calls.
  destruct (answer h (PlugConnectedTo plg true false) s) as [st' plgCons].
  cbn [snd]. run_calls.
  destruct plgCons as [| c plgCons];
    [change (0 <? length (@nil MPlug))%nat with false
    | change (0 <? length (c :: plgCons))%nat with true; cbn [nth]];
    run_calls;
    destruct ((1 <? length sgObjs)%nat && (0 <? numFaces)); run_calls;
    cbn [fst snd]; rewrite ?orb_false_r, ?orb_true_r,
      ?fold_left_insert_length, ?length_insert;
    (split; [reflexivity |]); (split; [reflexivity |]);
    intros Hcond; (discriminate Hcond || reflexivity).
Qed.

Lemma _getAttachedMayaShaderObjects_result (node : MObject) (numFaces : Z)
    (shaderObjs : list MObject) :
  let sgObjs := shadingGroups h s node in
  let st' := result h (_getAttachedMayaShaderObjects node numFaces shaderObjs) s in
  fst st'
  = existsb (fun sg => (0 <? length (surfaceShaderSources h s sg))%nat) sgObjs
  /\ length (snd st')
     = if (length sgObjs =? 1)%nat || (numFaces =? 0) then 1%nat
       else if (1 <? length sgObjs)%nat then int_to_unsigned numFaces
       else length shaderObjs.
Proof.
  cbv zeta. unfold shadingGroups.
  unfold result at 1 2, _getAttachedMayaShaderObjects. run_calls.
  destruct (answer h (FnDagNodeGetConnectedSetsAndMembers node 0 true) s)
    as [sgObjs compObjs]. cbn [fst].
  match goal with
  | |- context [run h (for_do ?l ?body (false, ?objs0)) s] =>
      set (start := objs0);
      pose proof (for_do_seq_invariant h s
        (fun i (st : bool * list MObject) =>
           fst st = existsb (fun sg =>
                      (0 <? length (surfaceShaderSources h s sg))%nat)
                      (firstn i sgObjs)
           /\ length (snd st) = length start)
        (length sgObjs) body) as Hloop
  end.
  cbn beta in Hloop. specialize (Hloop ltac:(read_only) 0%nat).
  lapply Hloop; clear Hloop.
  - intros Hloop.
    destruct (Hloop (false, start) (conj eq_refl eq_refl)) as [Hhas Hlen].
    cbn [Nat.add] in Hhas, Hlen. unfold result in Hhas, Hlen.
    rewrite firstn_all in Hhas. split; [exact Hhas |].
    rewrite Hlen. subst start.
    destruct ((length sgObjs =? 1)%nat || (numFaces =? 0));
      [apply length_resize |].
    destruct (1 <? length sgObjs)%nat; [apply length_resize | reflexivity].
  - intros i [hasShader objs] Hi [Hfst Hsnd]. cbn [fst snd] in Hfst, Hsnd.
    destruct (_getAttachedMayaShaderObjects_turn node numFaces sgObjs compObjs
                i hasShader objs) as (Hfst' & Hsnd' & _).
    split.
    + etransitivity; [exact Hfst' |].
      rewrite Hfst, (firstn_snoc_nth MObject_null) by lia.
      rewrite existsb_app. cbn [existsb]. now rewrite orb_false_r.
    + etransitivity; [exact Hsnd' | exact Hsnd].
Qed.

(** X21: [GetLinearShaderColor] returns true exactly when some shading
    group of the node has a source on its surface shader plug. *)
Theorem GetLinearShaderColor_true_iff (node : MObject) (numFaces : Z)
    (out : ShaderColors) :
  fst (result h (GetLinearShaderColor node numFaces out) s) = true
  <-> exists sg, In sg (shadingGroups h s node)
                 /\ surfaceShaderSources h s sg <> [].
Proof.
  destruct (_getAttachedMayaShaderObjects_result node numFaces []) as [Hhas _].
  unfold GetLinearShaderColor.
  rewrite result_bind_readOnly by apply _getAttachedMayaShaderObjects_readOnly.
  destruct (result h (_getAttachedMayaShaderObjects node numFaces []) s)
    as [hasShader shaderObjs]. cbn [fst] in Hhas.
  assert (Hfst : fst (result h
            (if hasShader
             then bind (_getMayaShadersColor numFaces shaderObjs out)
                       (fun out0 => Ret (true, out0))
             else Ret (false, out)) s) = hasShader).
  { destruct hasShader; [| reflexivity].
    rewrite result_bind_readOnly by apply _getMayaShadersColor_readOnly.
    reflexivity. }
  rewrite Hfst, Hhas, existsb_exists.
  split; intros (sg & Hin & Hsources); exists sg; (split; [exact Hin |]).
  - intros Hnil. rewrite Hnil in Hsources. discriminate.
  - destruct (surfaceShaderSources h s sg); [contradiction | reflexivity].
Qed.

Lemma _getAttachedMayaShaderObjects_single (node : MObject) (numFaces : Z)
    (sg : MObject) :
  shadingGroups h s node = [sg] ->
  attachedShaders h s node numFaces = [surfaceShader h s sg].
Proof.
  intros Hone. unfold attachedShaders, shadingGroups in *.
  unfold result, _getAttachedMayaShaderObjects. run_calls.
  destruct (answer h (FnDagNodeGetConnectedSetsAndMembers node 0 true) s)
    as [sgObjs compObjs]. cbn [fst] in Hone. subst sgObjs.
  cbn [length Nat.eqb orb seq for_do]. rewrite run_bind_readOnly by read_only.
  cbn [run snd].
  destruct (_getAttachedMayaShaderObjects_turn node numFaces [sg] compObjs
              0 false (resize 1 MObject_null [])) as (_ & _ & Hsnd).
  cbn [nth] in Hsnd. specialize (Hsnd eq_refl).
  etransitivity; [exact Hsnd | reflexivity].
Qed.

(** X22: the array of shaders that [GetLinearShaderColor] collects has one
    entry when the node has one shading group or [numFaces] is 0, an entry
    per face ([numFaces] as an unsigned number) when it has several shading
    groups, and no entry when it has none and [numFaces] is not 0.  When
    the node has exactly one shading group, the entry is the node behind
    the first source of the surface shader plug of that group, or a null
    object when the plug has no source. *)
Theorem attachedShaders_entries (node : MObject) (numFaces : Z) :
  length (attachedShaders h s node numFaces)
  = (if (length (shadingGroups h s node) =? 1)%nat || (numFaces =? 0)
     then 1%nat
     else if (1 <? length (shadingGroups h s node))%nat
          then int_to_unsigned numFaces
          else 0%nat)
  /\ (forall sg, shadingGroups h s node = [sg] ->
        attachedShaders h s node numFaces = [surfaceShader h s sg]).
Proof.
  split.
  - unfold attachedShaders.
    destruct (_getAttachedMayaShaderObjects_result node numFaces []) as [_ Hlen].
    exact Hlen.
  - apply _getAttachedMayaShaderObjects_single.
Qed.

End AttachedShaders.

(** ** The colours GetLinearShaderColor fills in *)

Section ShaderDefaults.
Context {L : PxrLibs} (h : Host) (s : Scene h).

(** A shader that cannot be read leaves the two values as they were. *)
Lemma _GetColorAndTransparency_unreadable (shaderObj : MObject)
    (rgb : option GfVec3f) (alpha : option float) :
  shaderReadable h s shaderObj = false ->
  result h (_GetColorAndTransparency shaderObj rgb alpha) s
  = (false, rgb, alpha).
Proof.
  unfold shaderReadable. intros Hno. apply orb_false_iff in Hno as [Hl Hd].
  unfold _GetColorAndTransparency, _GetColorAndTransparencyFromLambert.
  unfold result. run_calls. rewrite Hl. run_calls.
  unfold _GetColorAndTransparencyFromDepNode. run_calls.
  destruct (answer h (FnFindPlug shaderObj "color" false) s) as [st1 p1].
  cbn [fst] in Hd. destruct (MStatus_ok st1); cbn [negb]; [| reflexivity].
  run_calls.
  destruct (answer h (FnFindPlug shaderObj "transparency" false) s)
    as [st2 p2].
  cbn [fst andb] in Hd. rewrite Hd. reflexivity.
Qed.

Lemma insert_nth_same {A} (d : A) (l : list A) (i : nat) :
  <[i := nth i l d]> l = l.
Proof.
  revert i. induction l as [| x l IH]; intros i; [reflexivity |].
  destruct i as [| i]; [reflexivity |]. cbn. f_equal. apply IH.
Qed.

Lemma nth_insert_eq {A} (d v : A) (l : list A) (i : nat) :
  (i < length l)%nat -> nth i (<[i := v]> l) d = v.
Proof.
  revert i. induction l as [| x l IH]; intros i Hi; simpl in Hi; [lia |].
  destruct i as [| i]; [reflexivity |]. cbn. apply IH. lia.
Qed.

Lemma setComponents_white (data : list GfVec3f) (i : nat) :
  (i < length data)%nat ->
  let one := double_to_float lit_1_0 in
  nth i (setComponent (setComponent (setComponent data i 0 one) i 1 one)
                      i 2 one) GfVec3f_default
  = whiteRGB.
Proof.
  intros Hi. cbv zeta. unfold setComponent.
  rewrite !nth_insert_eq by (rewrite ?length_insert; exact Hi).
  destruct (nth i data GfVec3f_default) as [[a b] c]. reflexivity.
Qed.

(** The turn of the loop of [_getMayaShadersColor] at an index where no
    value is retrieved: the entry is set to (1, 1, 1) and 1. *)
Lemma _getMayaShadersColor_body_unretrieved (shaderObjs : list MObject)
    (i : nat) (rgb : option (list GfVec3f)) (al : option (list float))
    (c ca : bool) :
  retrievedAt h s shaderObjs i = false ->
  let one := double_to_float lit_1_0 in
  result h (_getMayaShadersColor_body shaderObjs i (rgb, al, c, ca)) s
  = (match rgb with
     | Some d =>
         Some (setComponent (setComponent (setComponent d i 0 one) i 1 one)
                            i 2 one)
     | None => None
     end,
     match al with
     | Some d => Some (<[i := one]> d)
     | None => None
     end, c, ca).
Proof.
  unfold retrievedAt, _getMayaShadersColor_body. cbv zeta.
  destruct (MObject_isNull (nth i shaderObjs MObject_null)); cbn [negb andb].
  - intros _. reflexivity.
  - intros Hno. unfold result.
    rewrite run_bind_readOnly by apply _GetColorAndTransparency_readOnly.
    rewrite _GetColorAndTransparency_unreadable by exact Hno.
    destruct rgb as [d |], al as [a |]; cbn [elementPtr storeElement];
      rewrite ?insert_nth_same; reflexivity.
Qed.

(** X23: an entry for which no colour is retrieved, because the shader
    object is null or because it is neither a Lambert shader nor a node
    with a color and a transparency plug, is white and opaque in the arrays
    the loop of [_getMayaShadersColor] fills: (1, 1, 1) and 1. *)
Theorem unretrieved_shader_is_white (shaderObjs : list MObject)
    (out : ShaderColors) (i : nat) :
  (i < length shaderObjs)%nat ->
  retrievedAt h s shaderObjs i = false ->
  (forall data, filledRGB h s shaderObjs out = Some data ->
     nth i data GfVec3f_default = whiteRGB)
  /\ (forall data, filledAlpha h s shaderObjs out = Some data ->
        nth i data lit_0f = double_to_float lit_1_0).
Proof.
  intros Hi Hno. unfold filledRGB, filledAlpha, _getMayaShadersColor_fill.
  pose proof (for_do_seq_invariant h s
    (fun k (st : option (list GfVec3f) * option (list float) * bool * bool) =>
       let '(rgb, al, c, ca) := st in
       (forall data, rgb = Some data ->
          length data = length shaderObjs
          /\ ((i < k)%nat -> nth i data GfVec3f_default = whiteRGB))
       /\ (forall data, al = Some data ->
             length data = length shaderObjs
             /\ ((i < k)%nat -> nth i data lit_0f = double_to_float lit_1_0)))
    (length shaderObjs) (_getMayaShadersColor_body shaderObjs)
    (_getMayaShadersColor_body_readOnly shaderObjs) 0%nat) as Hloop.
  cbn [Nat.add] in Hloop.
  lapply Hloop; clear Hloop.
  - intros Hloop.
    match goal with
    | |- context [result h (for_do _ _ ?st0) s] => specialize (Hloop st0)
    end.
    lapply Hloop; clear Hloop.
    + intros Hloop.
      destruct (result h (for_do _ _ _) s) as [[[rgb al] c] ca].
      cbn [fst snd]. destruct Hloop as [Hrgb Hal]. split.
      * intros data ->. now apply (Hrgb data eq_refl).
      * intros data ->. now apply (Hal data eq_refl).
    + split; intros data Hdata.
      * destruct (RGBData out); [| discriminate].
        injection Hdata as <-. split; [apply length_resize | lia].
      * destruct (AlphaData out); [| discriminate].
        injection Hdata as <-. split; [apply length_resize | lia].
  - intros k [[[rgb al] c] ca] Hk [Hrgb Hal].
    destruct (Nat.eq_dec k i) as [-> | Hne].
    + (* the turn at the index itself *)
      rewrite _getMayaShadersColor_body_unretrieved by exact Hno.
      split; intros data Hdata.
      * destruct rgb as [d |]; [| discriminate]. injection Hdata as <-.
        destruct (Hrgb d eq_refl) as [Hlen _].
        split; [now rewrite !setComponent_length |].
        intros _. apply setComponents_white. lia.
      * destruct al as [d |]; [| discriminate]. injection Hdata as <-.
        destruct (Hal d eq_refl) as [Hlen _].
        split; [now rewrite length_insert |].
        intros _. apply nth_insert_eq. lia.
    + (* another turn leaves the entry alone *)
      pose proof (_getMayaShadersColor_body_step h s shaderObjs k rgb al c ca)
        as Hstep.
      destruct (result h (_getMayaShadersColor_body shaderObjs k
                            (rgb, al, c, ca)) s) as [[[rgb' al'] c'] ca'].
      destruct Hstep as [Hs1 Hs2]. unfold channelStep in Hs1, Hs2.
      split; intros data Hdata.
      * destruct rgb as [d |]; [| destruct Hs1; congruence].
        destruct Hs1 as (arr' & Heq & Hlen' & Hother & _).
        assert (data = arr') as -> by congruence.
        destruct (Hrgb d eq_refl) as [Hlen Hwhite].
        split; [congruence |].
        intros Hlt. rewrite Hother by congruence. apply Hwhite. lia.
      * destruct al as [d |]; [| destruct Hs2; congruence].
        destruct Hs2 as (arr' & Heq & Hlen' & Hother & _).
        assert (data = arr') as -> by congruence.
        destruct (Hal d eq_refl) as [Hlen Hwhite].
        split; [congruence |].
        intros Hlt. rewrite Hother by congruence. apply Hwhite. lia.
Qed.

(** The loop leaves a null array pointer null. *)
Lemma _getMayaShadersColor_fill_null (shaderObjs : list MObject)
    (out : ShaderColors) :
  (RGBData out = None -> filledRGB h s shaderObjs out = None)
  /\ (AlphaData out = None -> filledAlpha h s shaderObjs out = None).
Proof.
  unfold filledRGB, filledAlpha, _getMayaShadersColor_fill.
  pose proof (for_do_invariant h s
    (fun (st : option (list GfVec3f) * option (list float) * bool * bool) =>
       (RGBData out = None -> fst (fst (fst st)) = None)
       /\ (AlphaData out = None -> snd (fst (fst st)) = None))
    (seq 0 (length shaderObjs)) (_getMayaShadersColor_body shaderObjs)
    (_getMayaShadersColor_body_readOnly shaderObjs)) as Hloop.
  cbn beta in Hloop. apply Hloop; clear Hloop.
  - intros k [[[rgb al] c] ca] _ [Hrgb Hal]. cbn [fst snd] in Hrgb, Hal.
    pose proof (_getMayaShadersColor_body_step h s shaderObjs k rgb al c ca)
      as Hstep.
    destruct (result h (_getMayaShadersColor_body shaderObjs k
                          (rgb, al, c, ca)) s) as [[[rgb' al'] c'] ca'].
    destruct Hstep as [Hs1 Hs2]. unfold channelStep in Hs1, Hs2.
    cbn [fst snd]. split; intros Hnull.
    + rewrite (Hrgb Hnull) in Hs1. now destruct Hs1.
    + rewrite (Hal Hnull) in Hs2. now destruct Hs2.
  - cbn [fst snd]. split; intros ->; reflexivity.
Qed.

(** X24: a null array pointer is respected: when [GetLinearShaderColor] is
    given no RGB array it returns none and leaves the RGB interpolation as
    it was, whether it finds a shader or not, and the same holds of the
    alpha array and its interpolation. *)
Theorem GetLinearShaderColor_null_arrays (node : MObject) (numFaces : Z)
    (out : ShaderColors) :
  let out' := snd (result h (GetLinearShaderColor node numFaces out) s) in
  (RGBData out = None ->
   RGBData out' = None /\ RGBInterp out' = RGBInterp out)
  /\ (AlphaData out = None ->
      AlphaData out' = None /\ AlphaInterp out' = AlphaInterp out).
Proof.
  cbv zeta. unfold GetLinearShaderColor.
  rewrite result_bind_readOnly by apply _getAttachedMayaShaderObjects_readOnly.
  destruct (result h (_getAttachedMayaShaderObjects node numFaces []) s)
    as [[] shaderObjs]; [| cbn [result run fst snd]; auto].
  rewrite result_bind_readOnly by apply _getMayaShadersColor_readOnly.
  unfold result at 1. cbn [run fst snd]. unfold _getMayaShadersColor.
  rewrite result_bind_readOnly by apply _getMayaShadersColor_fill_readOnly.
  destruct (_getMayaShadersColor_fill_null shaderObjs out) as [Hrgb Hal].
  unfold filledRGB, filledAlpha in Hrgb, Hal.
  destruct (result h (_getMayaShadersColor_fill shaderObjs out) s)
    as [[[rgb al] c] ca].
  cbn [fst snd] in Hrgb, Hal.
  split; intros Hnull.
  - rewrite (Hrgb Hnull).
    destruct al as [adata |]; [destruct ca |];
      try destruct (N.of_nat (length adata) =? int_to_size_t numFaces)%N;
      cbn; auto.
  - rewrite (Hal Hnull).
    destruct rgb as [rdata |]; [destruct c |];
      try destruct (N.of_nat (length rdata) =? int_to_size_t numFaces)%N;
      cbn; auto.
Qed.

End ShaderDefaults.

(** ** One Lambert shader *)

Section SingleLambert.
Context {L : PxrLibs} (h : Host) (s : Scene h).

Lemma _GetColorAndTransparency_lambert (shaderObj : MObject)
    (rgb : GfVec3f) (alpha : float) :
  MStatus_ok (answer h (FnLambertShaderAttach shaderObj) s) = true ->
  result h (_GetColorAndTransparency shaderObj (Some rgb) (Some alpha)) s
  = (true,
     Some (lambertRGB (answer h (FnLambertShaderColor shaderObj) s)),
     Some (lambertAlpha (answer h (FnLambertShaderTransparency shaderObj) s))).
Proof.
  intros Hok.
  unfold _GetColorAndTransparency, _GetColorAndTransparencyFromLambert.
  unfold result. run_calls. rewrite Hok. reflexivity.
Qed.

(** X25: on a node with one shading group whose surface shader is a Lambert
    shader, [GetLinearShaderColor], given the two arrays, returns true with
    one colour and one opacity, both of constant interpolation: the colour
    of the shader converted from display to linear, and 1 minus the mean of
    the three components of its transparency.  (The comparison of a value
    with itself within 1e-9 is assumed to hold, as it does unless the value
    is not a number.) *)
Theorem GetLinearShaderColor_single_lambert (node : MObject) (numFaces : Z)
    (out : ShaderColors) (sg : MObject) (rgb0 : list GfVec3f)
    (alpha0 : list float) :
  shadingGroups h s node = [sg] ->
  surfaceShaderSources h s sg <> [] ->
  MObject_isNull (surfaceShader h s sg) = false ->
  MStatus_ok (answer h (FnLambertShaderAttach (surfaceShader h s sg)) s)
  = true ->
  RGBData out = Some rgb0 ->
  AlphaData out = Some alpha0 ->
  let color :=
    lambertRGB (answer h (FnLambertShaderColor (surfaceShader h s sg)) s) in
  let alpha :=
    lambertAlpha
      (answer h (FnLambertShaderTransparency (surfaceShader h s sg)) s) in
  rgbClose color color = true ->
  floatClose alpha alpha = true ->
  result h (GetLinearShaderColor node numFaces out) s
  = (true, {| RGBData := Some [color];
              RGBInterp := UsdGeomTokens_constant;
              AlphaData := Some [alpha];
              AlphaInterp := UsdGeomTokens_constant |}).
Proof.
  intros Hone Hsources Hnull Hlambert Hrgb Halpha color alpha Hcolor Hclose.
  destruct (_getAttachedMayaShaderObjects_result h s node numFaces [])
    as [Hhas _].
  pose proof (_getAttachedMayaShaderObjects_single h s node numFaces sg Hone)
    as Hobjs.
  unfold attachedShaders in Hobjs. rewrite Hone in Hhas.
  unfold GetLinearShaderColor.
  rewrite result_bind_readOnly by apply _getAttachedMayaShaderObjects_readOnly.
  destruct (result h (_getAttachedMayaShaderObjects node numFaces []) s)
    as [hasShader objs].
  cbn [fst snd existsb] in Hhas, Hobjs. subst objs.
  assert (hasShader = true) as ->.
  { rewrite Hhas. destruct (surfaceShaderSources h s sg); [contradiction |].
    reflexivity. }
  rewrite result_bind_readOnly by apply _getMayaShadersColor_readOnly.
  unfold result at 1. cbn [run fst]. f_equal.
  unfold _getMayaShadersColor.
  rewrite result_bind_readOnly by apply _getMayaShadersColor_fill_readOnly.
  assert (Hfill : result h (_getMayaShadersColor_fill [surfaceShader h s sg] out) s
                  = (Some [color], Some [alpha], true, true)).
  { unfold _getMayaShadersColor_fill. rewrite Hrgb, Halpha.
    cbn [option_map length seq for_do].
    rewrite result_bind_readOnly by apply _getMayaShadersColor_body_readOnly.
    unfold result at 1. cbn [run fst].
    unfold _getMayaShadersColor_body. cbn [nth]. rewrite Hnull. cbn [negb].
    rewrite !resize_one.
    rewrite result_bind_readOnly by apply _GetColorAndTransparency_readOnly.
    cbn [elementPtr].
    rewrite _GetColorAndTransparency_lambert by exact Hlambert.
    unfold result. cbn [run fst storeElement].
    rewrite rgbStillConstant_and, alphaStillConstant_and.
    unfold setComponent. cbn [insert list_insert nth].
    fold color. fold alpha. rewrite Hcolor, Hclose. reflexivity. }
  rewrite Hfill. unfold result. cbn [run fst]. rewrite !resize_one.
  reflexivity.
Qed.

End SingleLambert.

(** ** A shader that is not a Lambert shader *)

Section DependencyNodeShader.
Context {L : PxrLibs} (h : Host) (s : Scene h).

(** X26: for a shader that is not a Lambert shader but has a [color] and a
    [transparency] plug, the colour retrieved is the three children of
    [color] converted from display to linear, and the opacity is 1 minus
    the sum of the thirds of the three children of [transparency]; a child
    of [transparency] that gives no value counts as 0, and a child of
    [color] that gives none leaves the component as a default-constructed
    vector has it. *)
Theorem GetColorAndTransparency_from_plugs (shaderObj : MObject)
    (rgb : GfVec3f) (alpha : float) :
  MStatus_ok (answer h (FnLambertShaderAttach shaderObj) s) = false ->
  MStatus_ok (fst (answer h (FnFindPlug shaderObj "color" false) s)) = true ->
  MStatus_ok (fst (answer h (FnFindPlug shaderObj "transparency" false) s))
  = true ->
  let colorPlug := snd (answer h (FnFindPlug shaderObj "color" false) s) in
  let transparencyPlug :=
    snd (answer h (FnFindPlug shaderObj "transparency" false) s) in
  let c j := childFloat h s colorPlug j float_indeterminate in
  let t j := childFloat h s transparencyPlug j lit_0f in
  result h (_GetColorAndTransparency shaderObj (Some rgb) (Some alpha)) s
  = (true,
     Some (GfConvertDisplayToLinear (c 0%nat, c 1%nat, c 2%nat)),
     Some (float_sub lit_1f
             (float_add
                (float_add
                   (float_add lit_0f (float_div (t 0%nat) lit_3f))
                   (float_div (t 1%nat) lit_3f))
                (float_div (t 2%nat) lit_3f)))).
Proof.
  intros Hlambert Hcolor Htransparency. cbv zeta.
  unfold _GetColorAndTransparency, _GetColorAndTransparencyFromLambert.
  unfold result. run_calls. rewrite Hlambert. run_calls.
  unfold _GetColorAndTransparencyFromDepNode, childFloat. run_calls.
  destruct (answer h (FnFindPlug shaderObj "color" false) s)
    as [st1 colorPlug].
  cbn [fst snd] in *. rewrite Hcolor. cbn [negb]. run_calls.
  destruct (answer h (FnFindPlug shaderObj "transparency" false) s)
    as [st2 transparencyPlug].
  cbn [fst snd] in *. rewrite Htransparency. cbn [negb].
  (* the answers the two loops will read *)
  repeat match goal with
         | |- context [answer h (PlugChild ?p ?j) s] =>
             let E := fresh "Echild" in
             destruct (answer h (PlugChild p j) s) as [? ?] eqn:E
         end.
  cbn [snd].
  repeat match goal with
         | |- context [answer h (PlugGetValueFloat ?p) s] =>
             let E := fresh "Evalue" in
             destruct (answer h (PlugGetValueFloat p) s) as [?|] eqn:E
         end.
  all: cbn [seq for_do]; unfold getChildValue;
    repeat (run_calls;
            match goal with
            | E : answer h _ s = _ |- _ => rewrite E
            end);
    run_calls; reflexivity.
Qed.

End DependencyNodeShader.

(** ** When getSampledType returns 0 *)

Section SampledTypeStatic.
Context {L : PxrLibs} (h : Host) (s : Scene h).

Lemma fold_all_static (l : list nat) (g : nat -> option Z) :
  (forall e, In e l -> g e = Some 0) ->
  fold_until l (fun e _ => positiveReturns (g e)) tt = inl tt.
Proof.
  induction l as [| a l IH]; intros Hall; cbn [fold_until]; [reflexivity |].
  unfold positiveReturns at 1. rewrite (Hall a) by (left; reflexivity).
  cbn. apply IH. intros e Hin. apply Hall. right. exact Hin.
Qed.

(** X27: [getSampledType] returns 0 in each of these cases: the first
    source of the plug that decides is a mute node that is on; the plug has
    no source and is neither an array nor a compound plug whose connected
    children are asked for; the plug has no source and every connected
    element of the array, or every child of the compound, is itself
    classified 0. *)
Theorem getSampledType_static (fuel : nat) (p : MPlug) (b : bool) :
  (staticallyMuted h s (sourcesOf h s p) ->
   result h (getSampledType (S fuel) p b) s = Some 0)
  /\ (sourcesOf h s p = [] ->
      answer h (PlugIsArray p) s = false ->
      answer h (PlugIsCompound p) s
      && (0 <? answer h (PlugNumConnectedChildren p) s)%nat && b = false ->
      result h (getSampledType (S fuel) p b) s = Some 0)
  /\ (sourcesOf h s p = [] ->
      answer h (PlugIsArray p) s = true ->
      (forall e, (e < answer h (PlugNumConnectedElements p) s)%nat ->
         result h (getSampledType fuel (connectedElement h s p e) true) s
         = Some 0) ->
      result h (getSampledType (S fuel) p b) s = Some 0)
  /\ (sourcesOf h s p = [] ->
      answer h (PlugIsArray p) s = false ->
      (forall c, (c < answer h (PlugNumChildren p) s)%nat ->
         result h (getSampledType fuel (childPlug h s p c) true) s = Some 0) ->
      result h (getSampledType (S fuel) p b) s = Some 0).
Proof.
  rewrite getSampledType_S. repeat split.
  - intros Hmuted.
    assert (Hne : (length (sourcesOf h s p) =? 0)%nat = false).
    { destruct Hmuted as (before & c & after & -> & _).
      rewrite length_app. cbn [length]. apply Nat.eqb_neq. lia. }
    rewrite Hne. f_equal. now apply getSampledType_conns_zero.
  - intros -> -> ->. reflexivity.
  - intros -> -> Hall. cbn [length Nat.eqb].
    rewrite fold_all_static; [reflexivity |].
    intros e Hin. apply in_seq in Hin. apply Hall. lia.
  - intros -> -> Hall. cbn [length Nat.eqb].
    destruct (_ && _ && b); [| reflexivity].
    rewrite fold_all_static; [reflexivity |].
    intros c Hin. apply in_seq in Hin. apply Hall. lia.
Qed.

End SampledTypeStatic.

(** * The further properties on the two scenes *)

(** ** Names *)

(** X3 on the name a:b:c:d: at depth 2, at depth 3, and at the largest
    depth an [unsigned int] holds. *)
Lemma stripNamespaces_keeps_last_witness :
  MString_split (PxrLibs := TableHost.libs) "a:b:c:d" ":"
  = (kSuccess, ["a"; "b"; "c"; "d"])
  /\ stripNamespaces (L := TableHost.libs) "a:b:c:d" 2 = "c:d"
  /\ stripNamespaces (L := TableHost.libs) "a:b:c:d" 3 = "d"
  /\ stripNamespaces (L := TableHost.libs) "a:b:c:d" 4294967295 = "d".
Proof.
  split; [reflexivity |].
  destruct (stripNamespaces_keeps_last (L := TableHost.libs) "a:b:c:d" 2
              kSuccess ["a"; "b"; "c"; "d"] eq_refl eq_refl
              ltac:(discriminate) ltac:(discriminate) eq_refl eq_refl)
    as [Htwo _].
  destruct (stripNamespaces_keeps_last (L := TableHost.libs) "a:b:c:d" 3
              kSuccess ["a"; "b"; "c"; "d"] eq_refl eq_refl
              ltac:(discriminate) ltac:(discriminate) eq_refl eq_refl)
    as [_ Hthree].
  destruct (stripNamespaces_keeps_last (L := TableHost.libs) "a:b:c:d"
              4294967295 kSuccess ["a"; "b"; "c"; "d"] eq_refl eq_refl
              ltac:(discriminate) ltac:(discriminate) eq_refl eq_refl)
    as [_ Hmax].
  split; [rewrite Htwo; reflexivity |].
  split; [rewrite Hthree; [reflexivity | simpl; lia] |].
  rewrite Hmax; [reflexivity | simpl; lia].
Defined.

(** X4 on the name a:b:c:d: one namespace, then two more. *)
Lemma stripNamespaces_twice_witness :
  stripNamespaces (L := TableHost.libs) "a:b:c:d" 1 = "b:c:d"
  /\ MString_split (PxrLibs := TableHost.libs) "b:c:d" ":"
     = (kSuccess, ["b"; "c"; "d"])
  /\ stripNamespaces (L := TableHost.libs)
       (stripNamespaces (L := TableHost.libs) "a:b:c:d" 1) 2
     = stripNamespaces (L := TableHost.libs) "a:b:c:d" 3.
Proof.
  split; [reflexivity |]. split; [reflexivity |].
  apply (stripNamespaces_twice (L := TableHost.libs) "a:b:c:d" 1 2
           ["a"; "b"; "c"; "d"]);
    try reflexivity; discriminate.
Defined.

(** X5 on the outputs 2, 0, 1. *)
Lemma getRotOrder_injective_witness :
  fst (getRotOrder kZXY 0 0 0) = true
  /\ snd (getRotOrder kZXY 0 0 0) = (2, 0, 1)%N
  /\ (forall o, fst (getRotOrder o 7 7 7) = true ->
                snd (getRotOrder o 7 7 7) = (2, 0, 1)%N -> o = kZXY).
Proof.
  split; [reflexivity |]. split; [reflexivity |].
  intros o Hok Hout.
  apply (getRotOrder_injective o kZXY 7 7 7 0 0 0 Hok eq_refl Hout).
Defined.

(** ** Plugs *)

(** X8 on translateX, driven by a curve whose input is free, and on the
    surface shader plug of the red group, driven by a shader. *)
Lemma getSampledType_direct_connections_witness :
  sourcesOf TableHost.host TableHost.cube (MPlug_at 0) = [MPlug_at 14]
  /\ result TableHost.host (getSampledType 1 (MPlug_at 0) true) TableHost.cube
     = Some 2
  /\ sourcesOf TableHost.host TableHost.cube (MPlug_at 10) = [MPlug_at 11]
  /\ result TableHost.host (getSampledType 1 (MPlug_at 10) false) TableHost.cube
     = Some 1.
Proof.
  split; [reflexivity |].
  destruct (getSampledType_direct_connections TableHost.host TableHost.cube
              (MPlug_at 0) ltac:(discriminate)) as (r & Hr & _ & Hfirst).
  destruct (Hfirst [] (MPlug_at 14) [] eq_refl ltac:(constructor))
    as [Hcurve _].
  split; [rewrite Hr, (Hcurve eq_refl); reflexivity |].
  split; [reflexivity |].
  destruct (getSampledType_direct_connections TableHost.host TableHost.cube
              (MPlug_at 10) ltac:(discriminate)) as (r' & Hr' & Hpassed & _).
  rewrite Hr', Hpassed; [reflexivity |].
  repeat constructor.
Defined.

(** X10 on the array plug of the rig, whose third element is the first
    that is animated, and on its compound plug of translateZ and
    translateX. *)
Lemma getSampledType_first_animated_witness :
  sourcesOf TableHost.host Rig.rig (MPlug_at 20) = []
  /\ result TableHost.host (getSampledType 2 (MPlug_at 20) false) Rig.rig
     = Some 2
  /\ sourcesOf TableHost.host Rig.rig (MPlug_at 21) = []
  /\ result TableHost.host (getSampledType 2 (MPlug_at 21) true) Rig.rig
     = Some 2.
Proof.
  split; [reflexivity |].
  destruct (getSampledType_first_animated TableHost.host Rig.rig 1
              (MPlug_at 20) eq_refl) as [Harray _].
  split.
  { apply (Harray eq_refl 2%nat 2); [simpl; lia | | reflexivity | lia].
    intros [| [| e']] He'; [reflexivity | reflexivity | lia]. }
  split; [reflexivity |].
  destruct (getSampledType_first_animated TableHost.host Rig.rig 1
              (MPlug_at 21) eq_refl) as [_ Hcompound].
  apply (Hcompound eq_refl eq_refl ltac:(simpl; lia) 1%nat 2);
    [simpl; lia | | reflexivity | lia].
  intros [| c'] Hc'; [reflexivity | lia].
Defined.

(** X11 on translateX, animated and off, and on the visibility plug of the
    cube, static and on. *)
Lemma getVisibilityType_codes_witness :
  plugRankDecreases TableHost.host TableHost.cube TableHost.rank
  /\ result TableHost.host (getVisibilityType 2 (MPlug_at 0)) TableHost.cube
     = Some 2
  /\ result TableHost.host (getVisibilityType 5 (MPlug_at 3)) TableHost.cube
     = Some 0.
Proof.
  pose proof (TableHost_plugRankDecreases TableHost.cube) as Hrank.
  split; [exact Hrank |].
  destruct (getVisibilityType_codes TableHost.host TableHost.cube
              TableHost.rank Hrank (MPlug_at 0)) as (type & Htype & Hcode).
  specialize (Htype 2%nat ltac:(simpl; lia)).
  specialize (Hcode 2%nat ltac:(simpl; lia)).
  assert (type = 2) as -> by (vm_compute in Htype; congruence).
  split; [exact Hcode |].
  destruct (getVisibilityType_codes TableHost.host TableHost.cube
              TableHost.rank Hrank (MPlug_at 3)) as (type' & Htype' & Hcode').
  specialize (Htype' 5%nat ltac:(simpl; lia)).
  specialize (Hcode' 5%nat ltac:(simpl; lia)).
  assert (type' = 0) as -> by (vm_compute in Htype'; congruence).
  exact Hcode'.
Defined.

(** X12 on the transform of the cube, which has a curve upstream, and on
    its shape, which has nothing upstream but itself. *)
Lemma isAnimated_some_node_upstream_witness :
  iteratorAdvances TableHost.host TableHost.cube
    (TableHost.remaining TableHost.cube)
  /\ upstreamNodes TableHost.host TableHost.cube 3
       (upstreamIterator TableHost.host TableHost.cube (MObject_at 0))
     = [MObject_at 0; MObject_at 4; MObject_at 5]
  /\ result TableHost.host (isAnimated 4 (MObject_at 0) true) TableHost.cube
     = Some true
  /\ result TableHost.host (isAnimated 2 (MObject_at 1) true) TableHost.cube
     = Some false.
Proof.
  pose proof (TableHost_iteratorAdvances TableHost.cube) as Hadvances.
  split; [exact Hadvances |]. split; [reflexivity |].
  destruct (isAnimated_some_node_upstream TableHost.host TableHost.cube
              (TableHost.remaining TableHost.cube) Hadvances
              (MObject_at 0) true 4 ltac:(simpl; lia)) as [Htransform _].
  destruct (isAnimated_some_node_upstream TableHost.host TableHost.cube
              (TableHost.remaining TableHost.cube) Hadvances
              (MObject_at 1) true 2 ltac:(simpl; lia)) as [Hshape _].
  split; [rewrite Htransform; reflexivity | rewrite Hshape; reflexivity].
Defined.

(** The sphere of the rig is hidden but its visibility is driven by a
    curve: it is renderable; the hidden shape is not. *)
Example isRenderable_driven_visibility :
  switchedOff TableHost.host Rig.rig (MObject_at 12) "visibility" = false
  /\ result TableHost.host (isRenderable (MObject_at 12)) Rig.rig = true
  /\ switchedOff TableHost.host Rig.rig (MObject_at 13) "visibility" = true
  /\ result TableHost.host (isRenderable (MObject_at 13)) Rig.rig = false.
Proof. repeat split. Qed.

(** ** setPlugValue *)


(** X17 on an attribute without a value, and on a colour for a plug that
    is not compound. *)
Lemma setPlugValue_no_write_witness :
  fst (answer TableHost.host (UsdAttrGet (UsdAttribute_at 4) UsdTimeCode_Default)
              TableHost.cube) = false
  /\ run TableHost.host
       (setPlugValue (UsdAttribute_at 4) UsdTimeCode_Default (MPlug_at 2))
       TableHost.cube = (false, TableHost.cube)
  /\ commands TableHost.host
       (setPlugValue (UsdAttribute_at 1) UsdTimeCode_Default (MPlug_at 2))
       TableHost.cube = [].
Proof.
  split; [reflexivity |]. split.
  - apply (setPlugValue_no_write TableHost.host (UsdAttribute_at 4)
             UsdTimeCode_Default (MPlug_at 2) TableHost.cube).
    left. reflexivity.
  - apply (setPlugValue_no_write TableHost.host (UsdAttribute_at 1)
             UsdTimeCode_Default (MPlug_at 2) TableHost.cube).
    right. reflexivity.
Defined.

(** X18 on the colour (0.25, 0.25, 1) written to translate: three writes,
    the second of the display value 0.5 to translateY, the child 1 of
    translate in the scene that the first write left. *)
Lemma setPlugValue_vector_components_witness :
  answer TableHost.host (UsdAttrGet (UsdAttribute_at 1) UsdTimeCode_Default)
         TableHost.cube
  = (true, VtVec3f (L := TableHost.libs) (250000000, 250000000, TableHost.one))
  /\ vectorToWrite TableHost.host TableHost.cube (UsdAttribute_at 1)
       (250000000, 250000000, TableHost.one)
     = (500000000, 500000000, TableHost.one)
  /\ length (commands TableHost.host
               (setPlugValue (UsdAttribute_at 1) UsdTimeCode_Default (MPlug_at 6))
               TableHost.cube) = 3%nat
  /\ answer TableHost.host (PlugChild (MPlug_at 6) 1)
       (sceneAfter TableHost.host
          (firstn 1
             (commands TableHost.host
                (setPlugValue (UsdAttribute_at 1) UsdTimeCode_Default
                              (MPlug_at 6))
                TableHost.cube))
          TableHost.cube)
     = (kSuccess, MPlug_at 1)
  /\ EvDo (PlugSetFloat (L := TableHost.libs) (MPlug_at 1) 500000000)
     = EvDo (PlugSetFloat
               (snd (answer TableHost.host (PlugChild (MPlug_at 6) 1)
                       (sceneAfter TableHost.host
                          (firstn 1
                             (commands TableHost.host
                                (setPlugValue (UsdAttribute_at 1)
                                   UsdTimeCode_Default (MPlug_at 6))
                                TableHost.cube))
                          TableHost.cube)))
               (GfVec3f_get
                  (vectorToWrite TableHost.host TableHost.cube
                     (UsdAttribute_at 1)
                     (250000000, 250000000, TableHost.one)) 1)).
Proof.
  split; [reflexivity |]. split; [reflexivity |].
  destruct (setPlugValue_vector_components TableHost.host (UsdAttribute_at 1)
              UsdTimeCode_Default (MPlug_at 6)
              (250000000, 250000000, TableHost.one) TableHost.cube
              eq_refl eq_refl) as (_ & Hnth & Hthree).
  split; [apply Hthree; reflexivity |].
  split; [reflexivity |].
  apply (Hnth 1%nat
           (EvDo (PlugSetFloat (L := TableHost.libs) (MPlug_at 1) 500000000))
           eq_refl).
Defined.

(** X19 on the compound plug of the rig whose second child is missing:
    translateZ is written, and stays written. *)
Lemma setPlugValue_vector_partial_witness :
  answer TableHost.host (PlugGetValueFloat (MPlug_at 2)) Rig.rig = Some 0
  /\ MStatus_ok (fst (answer TableHost.host (PlugChild (MPlug_at 22) 1)
                             Rig.rig)) = false
  /\ result TableHost.host
       (setPlugValue (UsdAttribute_at 7) UsdTimeCode_Default (MPlug_at 22))
       Rig.rig = false
  /\ answer TableHost.host (PlugGetValueFloat (MPlug_at 2))
       (final TableHost.host
          (setPlugValue (UsdAttribute_at 7) UsdTimeCode_Default (MPlug_at 22))
          Rig.rig) = Some 1.
Proof.
  split; [reflexivity |]. split; [reflexivity |].
  pose proof (setPlugValue_vector_partial TableHost.host (UsdAttribute_at 7)
                UsdTimeCode_Default (MPlug_at 22) (1, 2, 3) (MPlug_at 2)
                Rig.rig
                (snd (perform TableHost.host
                        (PlugSetFloat (L := TableHost.libs) (MPlug_at 2) 1)
                        Rig.rig))
                eq_refl eq_refl eq_refl eq_refl eq_refl) as Hrun.
  unfold result, final. rewrite Hrun. split; reflexivity.
Defined.

(** X20 on the enum plug of the cube: the token smooth is field 1 of its
    attribute, the token cubic is no field of it. *)
Lemma setPlugValue_enum_field_witness :
  answer TableHost.host
    (FnEnumAttributeFieldIndex (MObject_at 10) "smooth") TableHost.cube
  = (kSuccess, 1)
  /\ commands TableHost.host
       (setPlugValue (UsdAttribute_at 2) UsdTimeCode_Default (MPlug_at 18))
       TableHost.cube
     = [EvDo (PlugSetShort (L := TableHost.libs) (MPlug_at 18) 1)]
  /\ result TableHost.host
       (setPlugValue (UsdAttribute_at 2) UsdTimeCode_Default (MPlug_at 18))
       TableHost.cube = true
  /\ MStatus_ok (fst (answer TableHost.host
                        (FnEnumAttributeFieldIndex (MObject_at 10) "cubic")
                        Rig.rig)) = false
  /\ run TableHost.host
       (setPlugValue (UsdAttribute_at 5) UsdTimeCode_Default (MPlug_at 18))
       Rig.rig = (false, Rig.rig).
Proof.
  split; [reflexivity |].
  pose proof (setPlugValue_enum_field TableHost.host (UsdAttribute_at 2)
                UsdTimeCode_Default (MPlug_at 18) "smooth" (MObject_at 10)
                TableHost.cube eq_refl eq_refl eq_refl eq_refl) as Hsmooth.
  cbv zeta in Hsmooth. destruct Hsmooth as [Hfound _].
  destruct (Hfound eq_refl) as [Hwritten Hrun].
  split; [exact Hwritten |].
  split; [unfold result; rewrite Hrun; reflexivity |].
  split; [reflexivity |].
  pose proof (setPlugValue_enum_field TableHost.host (UsdAttribute_at 5)
                UsdTimeCode_Default (MPlug_at 18) "cubic" (MObject_at 10)
                Rig.rig eq_refl eq_refl eq_refl eq_refl) as Hcubic.
  cbv zeta in Hcubic. destruct Hcubic as [_ Hmissing].
  apply (Hmissing eq_refl).
Defined.

(** ** Shaders *)

(** X23 on a null shader object beside the red shader, and on the
    transform of the cube taken for a shader. *)
Lemma unretrieved_shader_is_white_witness :
  retrievedAt TableHost.host TableHost.cube [MObject_null; MObject_at 3] 0
  = false
  /\ filledRGB TableHost.host TableHost.cube [MObject_null; MObject_at 3]
       TableHost.noColors
     = Some [(TableHost.one, TableHost.one, TableHost.one); TableHost.red]
  /\ nth 0 [(TableHost.one, TableHost.one, TableHost.one); TableHost.red]
         (GfVec3f_default (L := TableHost.libs))
     = whiteRGB (L := TableHost.libs)
  /\ retrievedAt TableHost.host TableHost.cube [MObject_at 0] 0 = false
  /\ filledAlpha TableHost.host TableHost.cube [MObject_at 0]
       TableHost.noColors
     = Some [TableHost.one]
  /\ nth 0 [TableHost.one] (lit_0f (PxrLibs := TableHost.libs))
     = double_to_float (PxrLibs := TableHost.libs) lit_1_0.
Proof.
  split; [reflexivity |]. split; [reflexivity |].
  destruct (unretrieved_shader_is_white TableHost.host TableHost.cube
              [MObject_null; MObject_at 3] TableHost.noColors 0
              ltac:(simpl; lia) eq_refl) as [Hrgb _].
  split; [apply Hrgb; reflexivity |].
  split; [reflexivity |].
  destruct (unretrieved_shader_is_white TableHost.host TableHost.cube
              [MObject_at 0] TableHost.noColors 0
              ltac:(simpl; lia) eq_refl) as [_ Halpha].
  split; [reflexivity |].
  apply (Halpha [TableHost.one]). reflexivity.
Defined.

(** X25 on the sphere of the rig, whose one shading group carries the red
    Lambert shader. *)
Lemma GetLinearShaderColor_single_lambert_witness :
  shadingGroups TableHost.host Rig.rig (MObject_at 12) = [MObject_at 14]
  /\ surfaceShader TableHost.host Rig.rig (MObject_at 14) = MObject_at 3
  /\ result TableHost.host
       (GetLinearShaderColor (MObject_at 12) 6 TableHost.noColors) Rig.rig
     = (true, {| RGBData := Some [TableHost.red];
                 RGBInterp := UsdGeomTokens_constant;
                 AlphaData := Some [TableHost.one];
                 AlphaInterp := UsdGeomTokens_constant |}).
Proof.
  split; [reflexivity |]. split; [reflexivity |].
  apply (GetLinearShaderColor_single_lambert TableHost.host Rig.rig
           (MObject_at 12) 6 TableHost.noColors (MObject_at 14) [] []
           eq_refl ltac:(discriminate) eq_refl eq_refl eq_refl eq_refl
           eq_refl eq_refl).
Defined.

(** X26 on the ramp of the rig, whose third transparency child holds no
    value: the colour (0.5, 0.5, 1) is (0.25, 0.25, 1) in linear, and the
    opacity is 1 - (0.1 + 0.1 + 0). *)
Lemma GetColorAndTransparency_from_plugs_witness :
  MStatus_ok (answer TableHost.host (FnLambertShaderAttach (MObject_at 15))
                     Rig.rig) = false
  /\ answer TableHost.host (PlugGetValueFloat (MPlug_at 32)) Rig.rig = None
  /\ result TableHost.host
       (_GetColorAndTransparency (L := TableHost.libs) (MObject_at 15)
          (Some (0, 0, 0)) (Some 0)) Rig.rig
     = (true, Some (250000000, 250000000, TableHost.one), Some 800000000).
Proof.
  split; [reflexivity |]. split; [reflexivity |].
  apply (GetColorAndTransparency_from_plugs TableHost.host Rig.rig
           (MObject_at 15) (0, 0, 0) 0 eq_refl eq_refl eq_refl).
Defined.
